(** * FanetGroundStation: FANET wire codec, radio state machine, dispatcher

    A shallow embedding of the C++ sources under [src/fanet], of
    [src/fanetmessagedispatcher.cpp] and of the pin names of
    [src/gpio/gpio.cpp], followed by the properties of the specification
    that are stated about them and by further properties of the code.

    Conventions.
    - A [QByteArray] holding serial text is a [list ascii]; a payload's byte
      buffer is a [list Z] with every element in [0, 256).
    - A C++ [int] is a [Z]; narrowing casts ([quint8], [qint8], [quint16],
      [char]) are written out with [mod].
    - Objects with mutable members (the radio, the dispatcher) are records
      threaded through ExtLib's state monad; Qt signals and log lines are
      appended to traces kept in the record.
    - The serial device, the single-shot timer and the clock are the
      environment: the record stores what the code can observe of them. *)

From Stdlib Require Import String.
From Stdlib Require Import ZArith List Ascii Bool Lia QArith Qround Qabs Qpower Lqa.
From ExtLib Require Import Structures.Monad Structures.MonadState.
From ExtLib Require Import Data.Monads.StateMonad Data.Monads.OptionMonad.
Import ListNotations.
Import MonadNotation.
Local Open Scope monad_scope.
Local Open Scope Z_scope.

(** ** Qt value classes used by the sources *)

Module Qt.

Definition QByteArray := list ascii.

Definition lit (s : string) : QByteArray := list_ascii_of_string s.

Definition code (c : ascii) : Z := Z.of_N (N_of_ascii c).
Definition chr (z : Z) : ascii := ascii_of_N (Z.to_N (z mod 256)).

Definition LF : ascii := chr 10.

(** [ascii_isspace] of qbytearray.cpp: blank and the controls 9..13. *)
Definition ascii_isspace (c : ascii) : bool :=
  (code c =? 32) || ((9 <=? code c) && (code c <=? 13)).

(** [QChar::isSpace] on a Latin-1 character: the above, NEL and NBSP. *)
Definition qchar_isSpace (c : ascii) : bool :=
  ascii_isspace c || (code c =? 133) || (code c =? 160).

Fixpoint dropWhile {A} (p : A -> bool) (l : list A) : list A :=
  match l with
  | [] => []
  | x :: t => if p x then dropWhile p t else l
  end.

Definition trim (sp : ascii -> bool) (s : QByteArray) : QByteArray :=
  rev (dropWhile sp (rev (dropWhile sp s))).

(** [QByteArray::trimmed] and [QString::trimmed]. *)
Definition trimmed : QByteArray -> QByteArray := trim ascii_isspace.
Definition qstring_trimmed : QByteArray -> QByteArray := trim qchar_isSpace.

Definition eqb (a b : QByteArray) : bool :=
  if list_eq_dec ascii_dec a b then true else false.

Fixpoint startsWith (s p : QByteArray) : bool :=
  match p, s with
  | [], _ => true
  | _ :: _, [] => false
  | c :: p', d :: s' => Ascii.eqb c d && startsWith s' p'
  end.

Definition size (s : QByteArray) : Z := Z.of_nat (length s).
Definition size_list {A} (l : list A) : Z := Z.of_nat (length l).

(** [QByteArray::mid(pos)] and [mid(pos, len)] for [pos >= 0]. *)
Definition mid (s : QByteArray) (pos : Z) : QByteArray :=
  skipn (Z.to_nat pos) s.
Definition mid_len (s : QByteArray) (pos len : Z) : QByteArray :=
  firstn (Z.to_nat len) (skipn (Z.to_nat pos) s).

(** [QByteArray::indexOf(char)]: position of the first match, else -1. *)
Fixpoint indexOf_from (c : ascii) (s : QByteArray) (i : Z) : Z :=
  match s with
  | [] => -1
  | d :: t => if Ascii.eqb c d then i else indexOf_from c t (i + 1)
  end.
Definition indexOf (s : QByteArray) (c : ascii) : Z := indexOf_from c s 0.

(** [QString::split(sep, Qt::SkipEmptyParts)]. *)
Fixpoint split_acc (sep : ascii) (s cur : QByteArray) : list QByteArray :=
  match s with
  | [] => [rev cur]
  | c :: t =>
      if Ascii.eqb c sep then rev cur :: split_acc sep t []
      else split_acc sep t (c :: cur)
  end.
Definition isEmpty {A} (l : list A) : bool :=
  match l with [] => true | _ => false end.
Definition split_skip_empty (sep : ascii) (s : QByteArray) : list QByteArray :=
  filter (fun t => negb (isEmpty t)) (split_acc sep s []).

(** Digits of number formatting and parsing. *)
Definition digit_char (d : Z) : ascii :=
  if d <? 10 then chr (48 + d) else chr (87 + d).

Definition digit_val (c : ascii) : option Z :=
  let n := code c in
  if (48 <=? n) && (n <=? 57) then Some (n - 48)
  else if (97 <=? n) && (n <=? 122) then Some (n - 87)
  else if (65 <=? n) && (n <=? 90) then Some (n - 55)
  else None.

Fixpoint digits_acc (fuel : nat) (base n : Z) (acc : QByteArray) : QByteArray :=
  match fuel with
  | O => acc
  | S f =>
      let acc' := digit_char (n mod base) :: acc in
      if n / base =? 0 then acc' else digits_acc f base (n / base) acc'
  end.

(** [QString::number(n, base)] for [n >= 0] that fits 64 bits. *)
Definition number (n base : Z) : QByteArray := digits_acc 64 base n [].

(** [QByteArray::toHex] of a byte buffer: two lower-case digits a byte. *)
Definition toHex (bytes : list Z) : QByteArray :=
  flat_map (fun b => [digit_char ((b mod 256) / 16); digit_char (b mod 16)]) bytes.

Fixpoint digits_value (base : Z) (s : QByteArray) (acc : Z) : option Z :=
  match s with
  | [] => Some acc
  | c :: t =>
      match digit_val c with
      | Some d => if d <? base then digits_value base t (acc * base + d) else None
      | None => None
      end
  end.

Definition strip_0x (s : QByteArray) : QByteArray :=
  match s with
  | z :: x :: t =>
      if (code z =? 48) && ((code x =? 120) || (code x =? 88)) then t else s
  | _ => s
  end.

(** The integer a Qt [toInt]/[toUShort] call reads from a text: blanks
    around it are skipped, a sign may lead, base 16 accepts a [0x]
    prefix, and at least one digit has to follow.  [None] is Qt's
    [ok = false]. *)
Definition parse_integer (base : Z) (allow_minus : bool) (s : QByteArray) : option Z :=
  let body sgn t :=
    let t := if base =? 16 then strip_0x t else t in
    match t with
    | [] => None
    | _ => option_map (Z.mul sgn) (digits_value base t 0)
    end in
  match trimmed s with
  | [] => None
  | c :: t =>
      if code c =? 45 then (if allow_minus then body (-1) t else None)
      else if code c =? 43 then body 1 t
      else body 1 (c :: t)
  end.

(** [toUShort(&ok, 16)]: value and [ok]; 0 when the conversion fails. *)
Definition toUShort16 (s : QByteArray) : Z * bool :=
  match parse_integer 16 false s with
  | Some v => if v <=? 65535 then (v, true) else (0, false)
  | None => (0, false)
  end.

(** [toInt(&ok, base)] on a 32-bit [int]. *)
Definition toInt (base : Z) (s : QByteArray) : Z * bool :=
  match parse_integer base true s with
  | Some v =>
      if (-2147483648 <=? v) && (v <=? 2147483647) then (v, true) else (0, false)
  | None => (0, false)
  end.

Definition hex_nibbles (s : QByteArray) : list Z :=
  flat_map (fun c => match digit_val c with
                     | Some d => if d <? 16 then [d] else []
                     | None => []
                     end) s.

Fixpoint pair_nibbles (l : list Z) : list Z :=
  match l with
  | lo :: hi :: t => (hi * 16 + lo) :: pair_nibbles t
  | [lo] => [lo]
  | [] => []
  end.

(** [QByteArray::fromHex]: characters that are no hex digit are skipped
    and the digits are paired from the end of the text. *)
Definition fromHex (s : QByteArray) : list Z :=
  rev (pair_nibbles (rev (hex_nibbles s))).

(** [qRound(double)]: halves round away from zero.  A [double] is
    modelled by the rational it stands for; the quotients of integers that
    the codec rounds ([v / 10.0], [dir * 256.0 / 360.0], ...) are either
    exact in binary or further than a rounding error from a half. *)
Definition qRound (q : Q) : Z :=
  if Qle_bool 0 q then Qfloor (q + (1 # 2)) else Qceiling (q - (1 # 2)).

End Qt.

Module Platform.

(** Plain [char] is signed on the x86-64 ABI and unsigned on ARM Linux.
    [QByteArray::at] returns a [char]; the one place below where the
    difference is visible is the Service header test of
    [FanetPayload.fromReceivedData]. *)
Definition char_is_signed : bool := true.

(** The [int] a byte of a [QByteArray] promotes to. *)
Definition char_to_int (b : Z) : Z :=
  if char_is_signed && (128 <=? b) then b - 256 else b.

End Platform.

(** ** fanetaddress.cpp *)

Module FanetAddress.

Import Qt.

Definition MANUFACUTER_ID_INVALID : Z := 0xff.
Definition DEVICE_ID_INVALID : Z := 0xffff.

Record t := mk { m_manufacturerId : Z; m_deviceId : Z }.

(** [FanetAddress(quint8 manufacturerId = 0, quint16 deviceId = 0)]. *)
Definition default : t := mk 0 0.

(** [FanetAddress(const QByteArray &data)], the text forms [mm,dddd] and
    [mm:dddd].  The second component tells whether a warning was logged. *)
Definition fromData (data : QByteArray) : t * bool :=
  let sep := Z.max (indexOf data ","%char) (indexOf data ":"%char) in
  if (0 <? sep) && (sep <? 3) && (sep + 1 <? size data) then
    let '(m, ok1) := toUShort16 (mid_len data 0 sep) in
    let '(d, ok2) := toUShort16 (mid data (sep + 1)) in
    (mk (Z.land m 0xff) d, negb ok1 || negb ok2)
  else (mk MANUFACUTER_ID_INVALID DEVICE_ID_INVALID, false).

Definition parse (data : QByteArray) : t := fst (fromData data).

(** [FanetAddress(quint32 addr)]. *)
Definition fromUInt32 (addr : Z) : t :=
  mk (Z.shiftr (Z.land addr 0x00ff0000) 16 mod 256) (Z.land addr 0x0000ffff mod 65536).

Definition isValid (a : t) : bool :=
  negb (m_manufacturerId a =? MANUFACUTER_ID_INVALID) &&
  negb (m_deviceId a =? DEVICE_ID_INVALID).

Definition isBroadcast (a : t) : bool :=
  (m_manufacturerId a =? 0) && (m_deviceId a =? 0).

Definition toHex (a : t) (separator : ascii) : QByteArray :=
  let device := [Z.shiftr (Z.land (m_deviceId a) 0xff00) 8; Z.land (m_deviceId a) 0x00ff] in
  let manufacturer := [m_manufacturerId a] in
  Qt.toHex manufacturer ++ [separator] ++ Qt.toHex device.

Definition toUInt32 (a : t) : Z :=
  Z.lor (Z.shiftl (m_manufacturerId a) 16 mod 2 ^ 32) (m_deviceId a).

End FanetAddress.

(** ** fanetpayload.cpp *)

Module FanetPayload.

Import Qt.

Inductive PayloadType :=
| PTAck | PTTracking | PTName | PTMessage | PTService | PTLandmarks
| PTRemoteConfig | PTGroundTracking | PTHWInfoOld | PTThermal | PTHWInfo
| PTInvalid.

Definition PayloadType_code (ty : PayloadType) : Z :=
  match ty with
  | PTAck => 0x00 | PTTracking => 0x01 | PTName => 0x02 | PTMessage => 0x03
  | PTService => 0x04 | PTLandmarks => 0x05 | PTRemoteConfig => 0x06
  | PTGroundTracking => 0x07 | PTHWInfoOld => 0x08 | PTThermal => 0x09
  | PTHWInfo => 0x0A | PTInvalid => 0xFF
  end.

(** [static_cast<PayloadType>(int)]; [None] is a value without enumerator. *)
Definition PayloadType_of_int (v : Z) : option PayloadType :=
  find (fun ty => PayloadType_code ty =? v)
    [PTAck; PTTracking; PTName; PTMessage; PTService; PTLandmarks;
     PTRemoteConfig; PTGroundTracking; PTHWInfoOld; PTThermal; PTHWInfo;
     PTInvalid].

Definition PayloadType_eqb (a b : PayloadType) : bool :=
  PayloadType_code a =? PayloadType_code b.

(** [enum ServiceHeader]; a [ServiceHeaderFlags] value is its [int]. *)
Definition SHExtendedHeader : Z := 0x01.
Definition SHStateOfCharge : Z := 0x02.
Definition SHSupportRemoteConfig : Z := 0x04.
Definition SHPressure : Z := 0x08.
Definition SHHumidity : Z := 0x10.
Definition SHWind : Z := 0x20.
Definition SHTemperature : Z := 0x40.
Definition SHInternetGateway : Z := 0x80.
Definition ServiceHeaderFlags := Z.

(** [QFlags::testFlag]. *)
Definition testFlag (i : ServiceHeaderFlags) (flag : Z) : bool :=
  (Z.land i flag =? flag) && (negb (flag =? 0) || (i =? flag)).

(** [QFlags::testFlags]. *)
Definition testFlags (i : ServiceHeaderFlags) (other : Z) : bool :=
  if other =? 0 then i =? 0 else Z.land i other =? other.

Record t := mk { m_type : PayloadType; m_data : list Z }.

Definition isValid (p : t) : bool := negb (PayloadType_eqb (m_type p) PTInvalid).
Definition type (p : t) : PayloadType := m_type p.
Definition data (p : t) : list Z := m_data p.

(** [QByteArray::at]; the sources index inside the buffer wherever the
    size checks of [fromReceivedData] hold, outside it Qt leaves the
    result undefined and the model reads 0. *)
Definition at_ (d : list Z) (i : Z) : Z := nth (Z.to_nat i) d 0.

Definition PAYLOAD_SIZE_GROUNDTRACKING : Z := 7.
Definition PAYLOAD_SIZE_TRACKING_MIN : Z := 11.
Definition PAYLOAD_SIZE_HWINFO_OLD_MIN : Z := 3.
Definition PAYLOAD_SIZE_THERMAL : Z := 11.

Definition dsize (d : list Z) : Z := Z.of_nat (length d).

Definition bit_set (b mask : Z) : bool := negb (Z.land b mask =? 0).

(** The second component is the warning [fromReceivedData] logs, if any. *)
Inductive Warning :=
| WarnGroundTrackingSize | WarnTrackingSize | WarnThermalSize
| WarnHwInfoPullRequest | WarnHwInfoSize | WarnServiceSize
| WarnNotImplemented.

Definition fromReceivedData (type : option PayloadType) (data : list Z)
  : t * option Warning :=
  match type with
  | Some PTGroundTracking =>
      if negb (dsize data =? PAYLOAD_SIZE_GROUNDTRACKING)
      then (mk PTInvalid data, Some WarnGroundTrackingSize)
      else (mk PTGroundTracking data, None)
  | Some PTTracking =>
      if dsize data <? PAYLOAD_SIZE_TRACKING_MIN
      then (mk PTInvalid data, Some WarnTrackingSize)
      else (mk PTTracking data, None)
  | Some PTThermal =>
      (mk PTThermal data,
       if dsize data <? PAYLOAD_SIZE_THERMAL then Some WarnThermalSize else None)
  | Some PTName => (mk PTName data, None)
  | Some PTMessage => (mk PTMessage data, None)
  | Some PTHWInfoOld =>
      (if dsize data <? PAYLOAD_SIZE_HWINFO_OLD_MIN
       then mk PTInvalid data else mk PTHWInfoOld data, None)
  | Some PTHWInfo =>
      if negb (isEmpty data) && bit_set (at_ data 0) 0x80
      then (mk PTInvalid data, Some WarnHwInfoPullRequest)
      else
        let expectedSize :=
          if isEmpty data then 1
          else 1 + (if bit_set (at_ data 0) 0x40 then 3 else 0)
                 + (if bit_set (at_ data 0) 0x20 then 3 else 0)
                 + (if bit_set (at_ data 0) 0x10 then 2 else 0)
                 + (if bit_set (at_ data 0) 0x08 then 4 else 0)
                 + (if bit_set (at_ data 0) 0x01 then 1 else 0) in
        if dsize data <? expectedSize
        then (mk PTInvalid data, Some WarnHwInfoSize)
        else (mk PTHWInfo data, None)
  | Some PTService =>
      let expectedSize :=
        if isEmpty data then 1
        else
          let header := Platform.char_to_int (at_ data 0) in
          1 + (if negb (Z.land header
                          (Z.lnot (Z.lor (Z.lor SHExtendedHeader SHInternetGateway)
                                         SHSupportRemoteConfig)) =? 0)
               then 6 else 0)
            + (if testFlag header SHExtendedHeader then 1 else 0)
            + (if testFlag header SHTemperature then 1 else 0)
            + (if testFlag header SHWind then 3 else 0)
            + (if testFlag header SHHumidity then 1 else 0)
            + (if testFlag header SHPressure then 2 else 0)
            + (if testFlag header SHStateOfCharge then 1 else 0) in
      if dsize data <? expectedSize
      then (mk PTInvalid data, Some WarnServiceSize)
      else (mk PTService data, None)
  | _ => (mk PTInvalid data, Some WarnNotImplemented)
  end.

Definition ackPayload : t := mk PTAck [].

(** *** Arithmetic on [double]

    Where the codec multiplies or divides a coordinate the operands are
    no integers, and the IEEE rounding of the result decides which
    integer is stored.  A [double] is the rational it stands for, and
    [fround] is the rounding of a real result to binary64: to the
    nearest, ties to even, with 53 bits of mantissa and the gradual
    underflow below 2^-1022.  Overflow is left out: the codec works on
    coordinates of at most 180 degrees. *)

(** The nearest integer; a half goes to the even neighbour. *)
Definition round_even (q : Q) : Z :=
  let f := Qfloor q in
  match (q - inject_Z f ?= 1 # 2)%Q with
  | Lt => f
  | Gt => f + 1
  | Eq => if Z.even f then f else f + 1
  end.

Definition pow2 (e : Z) : Q := Qpower 2 e.

(** The exponent of the unit in the last place of the binary64 numbers
    around [q]: [floor (log2 |q|) - 52], and -1074 for the subnormal
    numbers and zero. *)
Definition ulp_exponent (q : Q) : Z :=
  Z.max (Z.log2 (Qfloor (Qabs q * pow2 1074)) - 1126) (-1074).

Definition fround (q : Q) : Q :=
  let e := ulp_exponent q in
  (inject_Z (round_even (q / pow2 e)) * pow2 e)%Q.

(** [qRound(double d)] of Qt 6 on a double that is no quotient of
    integers: [d >= 0.0 ? int(d + 0.5) : int(d - 0.5)], the sum being a
    double itself. *)
Definition qRound_double (d : Q) : Z :=
  if Qle_bool 0 d then Qfloor (fround (d + (1 # 2)))
  else Qceiling (fround (d - (1 # 2))).

(** [name.toLatin1()]: the text is given by its Latin-1 bytes. *)
Definition namePayload (name : QByteArray) : t := mk PTName (map code name).

Definition messagePayload (msg : QByteArray) : t :=
  mk PTMessage (0 :: map code msg).

(** [QGeoCoordinate]: latitude and longitude in degrees; a default
    constructed coordinate holds none. *)
Definition QGeoCoordinate := option (Q * Q).

Definition coord_isValid (pos : QGeoCoordinate) : bool :=
  match pos with
  | Some (lat, lon) =>
      Qle_bool (-90) lat && Qle_bool lat 90 &&
      Qle_bool (-180) lon && Qle_bool lon 180
  | None => false
  end.

Definition latitude (pos : QGeoCoordinate) : Q :=
  match pos with Some (lat, _) => lat | None => 0 end.
Definition longitude (pos : QGeoCoordinate) : Q :=
  match pos with Some (_, lon) => lon | None => 0 end.

(** The wind and gust byte of a Service payload. *)
Definition speed_byte (v : Z) : Z :=
  if 254 <? v
  then Z.lor 0x80 (qRound (inject_Z v / 10) mod 256)
  else Z.land 0x7F (Z.shiftr v 1).

Definition servicePayload (header : ServiceHeaderFlags) (pos : QGeoCoordinate)
    (temp dir wind gusts humidity pressure : Z) : t :=
  let data := [header mod 256] in
  let lat := if coord_isValid pos
             then qRound_double (fround (latitude pos * 93206)) else 0 in
  let lon := if coord_isValid pos
             then qRound_double (fround (longitude pos * 46603)) else 0 in
  let data := data ++ [Z.land lat 0x000000FF;
                       Z.shiftr (Z.land lat 0x0000FF00) 8;
                       Z.shiftr (Z.land lat 0x00FF0000) 16;
                       Z.land lon 0x000000FF;
                       Z.shiftr (Z.land lon 0x0000FF00) 8;
                       Z.shiftr (Z.land lon 0x00FF0000) 16] in
  let data := if testFlag header SHTemperature
              then data ++ [qRound (inject_Z temp / 5) mod 256] else data in
  let data := if testFlag header SHWind
              then data ++ [qRound (inject_Z dir * 256 / 360) mod 256;
                            speed_byte wind mod 256;
                            speed_byte gusts mod 256]
              else data in
  let data := if testFlag header SHHumidity
              then data ++ [qRound (inject_Z humidity / 4) mod 256] else data in
  let data := if testFlag header SHPressure
              then let pres := ((pressure - 430) * 10) mod 65536 in
                   data ++ [Z.land pres 0xFF; Z.shiftr (Z.land pres 0xFF00) 8]
              else data in
  mk PTService data.

Definition TemperatureInvalid : Z := -274.

(** The header the Service getters test: byte 0 when the type is Service. *)
Definition service_header (p : t) : ServiceHeaderFlags :=
  if PayloadType_eqb (m_type p) PTService
  then Platform.char_to_int (at_ (m_data p) 0) else 0.

Definition wind_offset (header : ServiceHeaderFlags) : Z :=
  (if testFlag header SHExtendedHeader then 8 else 7)
  + (if testFlag header SHTemperature then 1 else 0).

Definition to_qint8 (b : Z) : Z :=
  let u := b mod 256 in if 128 <=? u then u - 256 else u.

Definition temperature (p : t) : Z :=
  let header := service_header p in
  if testFlags header SHTemperature then
    let offset := if testFlag header SHExtendedHeader then 8 else 7 in
    to_qint8 (at_ (m_data p) offset) * 5
  else TemperatureInvalid * 10.

Definition dir (p : t) : Z :=
  let header := service_header p in
  if testFlags header SHWind then
    let offset := wind_offset header in
    qRound (inject_Z ((Platform.char_to_int (at_ (m_data p) offset) * 360) mod 256) / 256)
  else -1.

Definition scaled_speed (data : Z) : Z :=
  let scale := if bit_set data 0x80 then 25 else 5 in
  let speed := Z.land data 0x7F in
  speed * scale.

Definition wind (p : t) : Z :=
  let header := service_header p in
  if testFlags header SHWind then
    let offset := wind_offset header in
    scaled_speed (at_ (m_data p) (offset + 1))
  else -1.

Definition gusts (p : t) : Z :=
  let header := service_header p in
  if testFlags header SHWind then
    let offset := wind_offset header in
    scaled_speed (at_ (m_data p) (offset + 2))
  else -1.

Definition heading (p : t) : Z :=
  match m_type p with
  | PTTracking | PTThermal =>
      let data := at_ (m_data p) 10 in
      qRound (inject_Z data * 360 / 256)
  | _ => -1
  end.

Definition speed (p : t) : Z :=
  match m_type p with
  | PTTracking => scaled_speed (at_ (m_data p) 8)
  | PTThermal => scaled_speed (at_ (m_data p) 9)
  | _ => -1
  end.

Definition altitude (p : t) : Z :=
  match m_type p with
  | PTTracking | PTThermal =>
      let scale := if bit_set (at_ (m_data p) 7) 0x08 then 4 else 1 in
      let alt := Z.lor (at_ (m_data p) 6) (Z.shiftl (Z.land (at_ (m_data p) 7) 0x07) 8) in
      scale * alt
  | _ => -1
  end.

End FanetPayload.

(** ** abstractfanetmessage.h and the message classes *)

Inductive FanetMessageType :=
| FMTInvalid
| FMTVersionCommand | FMTRegionCommand | FMTEnableCommand | FMTTransmitCommand
| FMTReply | FMTVersionReply | FMTRegionReply | FMTFanetReply
| FMTEvent | FMTPktReceivedEvent.

Definition FanetMessageType_code (ty : FanetMessageType) : Z :=
  match ty with
  | FMTInvalid => 0x00
  | FMTVersionCommand => 0x01 | FMTRegionCommand => 0x02
  | FMTEnableCommand => 0x03 | FMTTransmitCommand => 0x04
  | FMTReply => 0x40 | FMTVersionReply => 0x41 | FMTRegionReply => 0x42
  | FMTFanetReply => 0x44
  | FMTEvent => 0x80 | FMTPktReceivedEvent => 0x81
  end.

(** The string constants of fanetprotocolparser.cpp. *)
Module Tags.
Definition FANET_REGION_CMD := Qt.lit "DGL".
Definition FANET_TRANSMIT_CMD := Qt.lit "FNT".
Definition FANET_VERSION_CMD := Qt.lit "DGV".
Definition FANET_ENABLE_CMD := Qt.lit "DGP".
Definition MSG_VERSION_REPLY := Qt.lit "DGV".
Definition MSG_REGION_REPLY := Qt.lit "DGR".
Definition MSG_FANET_REPLY := Qt.lit "FNR".
Definition MSG_FANET_RECEIVE := Qt.lit "FNF".
Definition FANET_DATA_SEP : ascii := ","%char.
End Tags.

Module GenericReply.

Import Qt.

Inductive ReplyType :=
| ReplyOther | ReplyOk | ReplyMsg | ReplyError | ReplyAck | ReplyNack.

Definition ReplyType_eqb (a b : ReplyType) : bool :=
  match a, b with
  | ReplyOther, ReplyOther | ReplyOk, ReplyOk | ReplyMsg, ReplyMsg
  | ReplyError, ReplyError | ReplyAck, ReplyAck | ReplyNack, ReplyNack => true
  | _, _ => false
  end.

Definition REPLY_CODE_INVALID : Z := -1.
Definition FANET_REPLY_OK := lit "OK".
Definition FANET_REPLY_MSG := lit "MSG".
Definition FANET_REPLY_ERR := lit "ERR".
Definition FANET_REPLY_ACK := lit "ACK".
Definition FANET_REPLY_NACK := lit "NACK".

Record t := mk {
  m_type : FanetMessageType;
  m_data : QByteArray;
  m_code : Z;
  m_reply : ReplyType;
  m_msg : QByteArray
}.

(** The token list the constructor works on. *)
Definition tokens (data : QByteArray) : list QByteArray :=
  split_skip_empty Tags.FANET_DATA_SEP (qstring_trimmed data).

(** [GenericReply::GenericReply(type, data)]. *)
Definition make (type : FanetMessageType) (data : QByteArray) : t :=
  let init := mk type data REPLY_CODE_INVALID ReplyOther [] in
  let tmp := tokens data in
  match tmp with
  | [] => init
  | first :: _ =>
      if eqb first FANET_REPLY_OK then mk type data REPLY_CODE_INVALID ReplyOk []
      else if eqb first FANET_REPLY_ACK then mk type data REPLY_CODE_INVALID ReplyAck []
      else if eqb first FANET_REPLY_NACK then mk type data REPLY_CODE_INVALID ReplyNack []
      else
        let reply := if eqb first FANET_REPLY_MSG then ReplyMsg else ReplyOther in
        let reply := if eqb first FANET_REPLY_ERR then ReplyError else reply in
        if 2 <? size_list tmp
        then mk type data (fst (toInt 10 (nth 1 tmp []))) reply (nth 2 tmp [])
        else mk type data REPLY_CODE_INVALID reply []
  end.

Definition isValid (r : t) : bool :=
  negb (ReplyType_eqb (m_reply r) ReplyOther) &&
  negb (FanetMessageType_code (m_type r) =? FanetMessageType_code FMTInvalid).

Definition serialize (r : t) : QByteArray :=
  match m_type r with
  | FMTVersionReply => Tags.MSG_VERSION_REPLY ++ [" "%char] ++ m_data r
  | FMTRegionReply => Tags.MSG_REGION_REPLY ++ [" "%char] ++ m_data r
  | FMTFanetReply => Tags.MSG_FANET_REPLY ++ [" "%char] ++ m_data r
  | _ => []
  end.

End GenericReply.

Module TransmitReply.

Import Qt.

Record t := mk { base : GenericReply.t; m_addr : FanetAddress.t }.

(** [TransmitReply::TransmitReply(data)]. *)
Definition make (data : QByteArray) : t :=
  let r := GenericReply.make FMTFanetReply data in
  mk r (match GenericReply.m_reply r with
        | GenericReply.ReplyAck | GenericReply.ReplyNack =>
            FanetAddress.parse (mid data (indexOf data Tags.FANET_DATA_SEP + 1))
        | _ => FanetAddress.default
        end).

Definition isValid (r : t) : bool :=
  match GenericReply.m_reply (base r) with
  | GenericReply.ReplyAck | GenericReply.ReplyNack =>
      FanetAddress.isValid (m_addr r) && GenericReply.isValid (base r)
  | _ => GenericReply.isValid (base r)
  end.

End TransmitReply.

Module VersionReply.

Import Qt.

Definition FANET_VERSION_PREFIX := lit "build-".

Record t := mk { m_data : QByteArray }.

Definition make (data : QByteArray) : t := mk (trimmed data).

Definition isValid (r : t) : bool := startsWith (m_data r) FANET_VERSION_PREFIX.

Definition version (r : t) : QByteArray :=
  if startsWith (m_data r) FANET_VERSION_PREFIX
  then mid (m_data r) (size FANET_VERSION_PREFIX)
  else [].

Definition serialize (r : t) : QByteArray :=
  Tags.MSG_VERSION_REPLY ++ [" "%char] ++ m_data r.

End VersionReply.

Module ReceiveEvent.

Import Qt.

Record t := mk {
  m_addr : FanetAddress.t;
  m_payload : FanetPayload.t;
  m_sig : QByteArray;
  m_broadcast : bool
}.

(** [ReceiveEvent::ReceiveEvent(data)]. *)
Definition make (data : QByteArray) : t :=
  let tmp := split_skip_empty Tags.FANET_DATA_SEP (qstring_trimmed data) in
  let invalid := FanetPayload.mk FanetPayload.PTInvalid [] in
  if size_list tmp <? 7 then mk FanetAddress.default invalid [] false
  else
    let addr := FanetAddress.parse (nth 0 tmp [] ++ [Tags.FANET_DATA_SEP] ++ nth 1 tmp []) in
    let broadcast := eqb (qstring_trimmed (nth 2 tmp [])) (lit "1") in
    let sig := nth 3 tmp [] in
    let '(iPayloadType, convOk) := toInt 16 (nth 4 tmp []) in
    if negb convOk then mk addr invalid sig broadcast
    else mk addr
           (fst (FanetPayload.fromReceivedData
                   (FanetPayload.PayloadType_of_int iPayloadType)
                   (fromHex (nth 6 tmp []))))
           sig broadcast.

(** What the constructor logs and what the constructors it calls log,
    in the order of the calls: its own two warnings, the one of
    [FanetAddress(QByteArray)] and the one of [fromReceivedData]. *)
Inductive Warning :=
| WarnTooShort
| WarnAddress
| WarnPayloadType
| WarnPayload (w : FanetPayload.Warning).

Definition logged (data : QByteArray) : list Warning :=
  let tmp := split_skip_empty Tags.FANET_DATA_SEP (qstring_trimmed data) in
  if size_list tmp <? 7 then [WarnTooShort]
  else
    let addr :=
      FanetAddress.fromData (nth 0 tmp [] ++ [Tags.FANET_DATA_SEP] ++ nth 1 tmp []) in
    let waddr := if snd addr then [WarnAddress] else [] in
    let '(iPayloadType, convOk) := toInt 16 (nth 4 tmp []) in
    if negb convOk then waddr ++ [WarnPayloadType]
    else
      waddr
      ++ match snd (FanetPayload.fromReceivedData
                      (FanetPayload.PayloadType_of_int iPayloadType)
                      (fromHex (nth 6 tmp []))) with
         | Some w => [WarnPayload w]
         | None => []
         end.

Definition isValid (e : t) : bool :=
  FanetAddress.isValid (m_addr e) && FanetPayload.isValid (m_payload e).

Definition serialize (e : t) : QByteArray :=
  Tags.MSG_FANET_RECEIVE ++ [" "%char] ++ FanetAddress.toHex (m_addr e) ","%char
  ++ [Tags.FANET_DATA_SEP] ++ [if m_broadcast e then "1"%char else "0"%char]
  ++ [Tags.FANET_DATA_SEP] ++ m_sig e
  ++ [Tags.FANET_DATA_SEP]
  ++ number (FanetPayload.PayloadType_code (FanetPayload.m_type (m_payload e))) 16
  ++ [Tags.FANET_DATA_SEP]
  ++ number (FanetPayload.dsize (FanetPayload.m_data (m_payload e))) 16
  ++ [Tags.FANET_DATA_SEP] ++ toHex (FanetPayload.m_data (m_payload e)).

End ReceiveEvent.

Module RegionCommand.

Import Qt.

Inductive FanetFreq := FreqInvalid | Freq868MHz | Freq915Mhz.

Definition FANET_FREQ868 := lit "868".
Definition FANET_FREQ915 := lit "915".
Definition FANET_TXPOWER_MIN : Z := 2.
Definition FANET_TXPOWER_MAX : Z := 20.

Record t := mk { m_txPower : Z; m_freq : FanetFreq }.

(** [RegionCommand::RegionCommand(txPower, freq)]: the power is clamped. *)
Definition make (txPower : Z) (freq : FanetFreq) : t :=
  let p := if txPower <? FANET_TXPOWER_MIN then FANET_TXPOWER_MIN else txPower in
  let p := if FANET_TXPOWER_MAX <? txPower then FANET_TXPOWER_MAX else p in
  mk p freq.

Definition isValid (c : t) : bool :=
  match m_freq c with FreqInvalid => false | _ => true end.

Definition serialize (c : t) : QByteArray :=
  match m_freq c with
  | Freq868MHz =>
      Tags.FANET_REGION_CMD ++ [" "%char] ++ FANET_FREQ868
      ++ [Tags.FANET_DATA_SEP] ++ number (m_txPower c) 10
  | Freq915Mhz =>
      Tags.FANET_REGION_CMD ++ [" "%char] ++ FANET_FREQ915
      ++ [Tags.FANET_DATA_SEP] ++ number (m_txPower c) 10
  | FreqInvalid => []
  end.

End RegionCommand.

Module EnableCommand.

Import Qt.

Definition FANET_RX_ENABLE : ascii := "1"%char.
Definition FANET_RX_DISABLE : ascii := "0"%char.

Definition serialize (m_enable : bool) : QByteArray :=
  Tags.FANET_ENABLE_CMD ++ [" "%char]
  ++ [if m_enable then FANET_RX_ENABLE else FANET_RX_DISABLE].

End EnableCommand.

Module TransmitCommand.

Import Qt.

Record t := mk { m_addr : FanetAddress.t; m_payload : FanetPayload.t }.

(** [FNT type,dest_manufacturer,dest_id,forward,req.ack,length,payload]. *)
Definition serialize (c : t) : QByteArray :=
  let p := m_payload c in
  if FanetPayload.PayloadType_eqb (FanetPayload.type p) FanetPayload.PTInvalid then []
  else
    let flag := if FanetAddress.isBroadcast (m_addr c) then lit "0" else lit "1" in
    Tags.FANET_TRANSMIT_CMD ++ [" "%char]
    ++ number (FanetPayload.PayloadType_code (FanetPayload.type p)) 10 ++ lit ","
    ++ FanetAddress.toHex (m_addr c) ","%char ++ lit ","
    ++ flag ++ lit ","
    ++ flag ++ lit ","
    ++ number (FanetPayload.dsize (FanetPayload.data p)) 16 ++ lit ","
    ++ toHex (FanetPayload.data p).

End TransmitCommand.

(** The class hierarchy below [AbstractFanetMessage] as one variant; the
    virtual functions dispatch on the constructor. *)
Module AbstractFanetMessage.

Import Qt.

Inductive t :=
| VersionCommand
| RegionCommand (c : RegionCommand.t)
| EnableCommand (m_enable : bool)
| TransmitCommand (c : TransmitCommand.t)
| ReceiveEvent (e : ReceiveEvent.t)
| TransmitReply (r : TransmitReply.t)
| VersionReply (r : VersionReply.t)
| GenericReply (r : GenericReply.t).

Definition type (msg : t) : FanetMessageType :=
  match msg with
  | VersionCommand => FMTVersionCommand
  | RegionCommand _ => FMTRegionCommand
  | EnableCommand _ => FMTEnableCommand
  | TransmitCommand _ => FMTTransmitCommand
  | ReceiveEvent _ => FMTPktReceivedEvent
  | TransmitReply r => GenericReply.m_type (TransmitReply.base r)
  | VersionReply _ => FMTVersionReply
  | GenericReply r => GenericReply.m_type r
  end.

Definition isValid (msg : t) : bool :=
  match msg with
  | VersionCommand | EnableCommand _ | TransmitCommand _ => true
  | RegionCommand c => RegionCommand.isValid c
  | ReceiveEvent e => ReceiveEvent.isValid e
  | TransmitReply r => TransmitReply.isValid r
  | VersionReply r => VersionReply.isValid r
  | GenericReply r => GenericReply.isValid r
  end.

Definition isEvent (msg : t) : bool :=
  negb (Z.land (FanetMessageType_code (type msg)) (FanetMessageType_code FMTEvent) =? 0).
Definition isReply (msg : t) : bool :=
  negb (Z.land (FanetMessageType_code (type msg)) (FanetMessageType_code FMTReply) =? 0).
Definition isCommand (msg : t) : bool :=
  (FanetMessageType_code FMTInvalid <? FanetMessageType_code (type msg)) &&
  (FanetMessageType_code (type msg) <? FanetMessageType_code FMTReply).

Definition serialize (msg : t) : QByteArray :=
  match msg with
  | VersionCommand => Tags.FANET_VERSION_CMD
  | RegionCommand c => RegionCommand.serialize c
  | EnableCommand e => EnableCommand.serialize e
  | TransmitCommand c => TransmitCommand.serialize c
  | ReceiveEvent e => ReceiveEvent.serialize e
  | TransmitReply r => GenericReply.serialize (TransmitReply.base r)
  | VersionReply r => VersionReply.serialize r
  | GenericReply r => GenericReply.serialize r
  end.

(** The [dynamic_cast]s of fanetradio.cpp. *)
Definition as_GenericReply (msg : t) : option GenericReply.t :=
  match msg with
  | GenericReply r => Some r
  | TransmitReply r => Some (TransmitReply.base r)
  | _ => None
  end.

Definition as_TransmitReply (msg : t) : option TransmitReply.t :=
  match msg with TransmitReply r => Some r | _ => None end.

Definition as_VersionReply (msg : t) : option VersionReply.t :=
  match msg with VersionReply r => Some r | _ => None end.

Definition as_ReceiveEvent (msg : t) : option ReceiveEvent.t :=
  match msg with ReceiveEvent e => Some e | _ => None end.

End AbstractFanetMessage.

(** ** fanetprotocolparser.cpp *)

Module FanetProtocolParser.

Import Qt.

Definition StartDelimiter : Z := 0x23.
Definition EndDelimiter : Z := 0x0a.
Definition MSG_SIZE_IDENTIFIER : Z := 3.
Definition MSG_INIT_IGNORE := lit "CCCCCC".

(** The lines the parser writes to its log. *)
Inductive LogEvent :=
| WarnMessageIgnored (buf : QByteArray)
| WarnDiscardingIncomplete (m_buffer : QByteArray)
| DebugMsgReceived (m_buffer : QByteArray).

(** [parseMessage]: the message object, or the null pointer. *)
Definition parseMessage (data : QByteArray)
  : option AbstractFanetMessage.t * list LogEvent :=
  if MSG_SIZE_IDENTIFIER <? size data then
    let buf := trimmed data in
    if startsWith buf Tags.MSG_FANET_RECEIVE then
      (Some (AbstractFanetMessage.ReceiveEvent
               (ReceiveEvent.make (mid buf MSG_SIZE_IDENTIFIER))), [])
    else if startsWith buf Tags.MSG_FANET_REPLY then
      (Some (AbstractFanetMessage.TransmitReply
               (TransmitReply.make (mid buf MSG_SIZE_IDENTIFIER))), [])
    else if startsWith buf Tags.MSG_VERSION_REPLY then
      (Some (AbstractFanetMessage.VersionReply
               (VersionReply.make (mid buf MSG_SIZE_IDENTIFIER))), [])
    else if startsWith buf Tags.MSG_REGION_REPLY then
      (Some (AbstractFanetMessage.GenericReply
               (GenericReply.make FMTRegionReply (mid buf MSG_SIZE_IDENTIFIER))), [])
    else (None, [WarnMessageIgnored buf])
  else (None, []).

(** What one call of [next] leaves behind: the returned pointer, the
    bytes still unread in the device, [m_buffer], and the log lines. *)
Record Result := mkResult {
  res_msg : option AbstractFanetMessage.t;
  res_dev : QByteArray;
  res_buffer : QByteArray;
  res_log : list LogEvent
}.

(** [next]: the loop runs over the bytes the device has available. *)
Fixpoint next (dev m_buffer : QByteArray) (log : list LogEvent) : Result :=
  match dev with
  | [] => mkResult None [] m_buffer log
  | byte :: rest =>
      if code byte =? StartDelimiter then
        next rest []
          (if negb (isEmpty m_buffer) && negb (startsWith m_buffer MSG_INIT_IGNORE)
           then log ++ [WarnDiscardingIncomplete m_buffer] else log)
      else if code byte =? EndDelimiter then
        let '(msg, plog) := parseMessage m_buffer in
        mkResult msg rest [] (log ++ [DebugMsgReceived m_buffer] ++ plog)
      else next rest (m_buffer ++ [byte]) log
  end.

End FanetProtocolParser.

(** ** fanetradio.cpp *)

Module FanetRadio.

Import Qt.

Inductive RadioState :=
| RadioDisabled | RadioResetting | RadioInitializing | RadioReady
| RadioError | RadioDevNotFound | RadioDevOpenFail | RadioInitTimeout
| RadioComTimeout | RadioWrongFw.

Definition RadioState_code (s : RadioState) : Z :=
  match s with
  | RadioDisabled => 0x00 | RadioResetting => 0x01
  | RadioInitializing => 0x02 | RadioReady => 0x03
  | RadioError => 0x80 | RadioDevNotFound => 0x81 | RadioDevOpenFail => 0x82
  | RadioInitTimeout => 0x83 | RadioComTimeout => 0x84 | RadioWrongFw => 0x85
  end.

Definition RadioState_eqb (a b : RadioState) : bool :=
  RadioState_code a =? RadioState_code b.

Definition FANET_RESET_MSEC : Z := 250.
Definition FANET_INIT_TIMEOUT_MSEC : Z := 10 * 1000.
Definition FANET_COM_TIMEOUT_MSEC : Z := 3 * 1000.
Definition FANET_MSG_CODE_INITIALIZED : Z := 1.
Definition FANET_EXPECTED_FW := lit "202201131742".

(** The pins named by macros of the generated config.h, and pins given
    by number in the configuration. *)
Inductive GpioPin :=
| LED_PIN_GREEN | LED_PIN_RED | FANET_PIN_BOOT | FANET_PIN_RESET
| Pin (number : Z).

Inductive GpioCall :=
| initPin (pin : GpioPin) (invert : bool)
| setGpio (pin : GpioPin) (value : bool)
| clearGpio (pin : GpioPin).

Record RadioConfig := mkConfig {
  txPower : Z;
  frequency : Z;
  pinBoot : GpioPin;
  pinReset : GpioPin;
  invertPinBoot : bool;
  invertPinReset : bool
}.

Inductive Signal :=
| radioStateChanged (state : RadioState)
| messageReceived (addr : Z) (payload : FanetPayload.t) (broadcast : bool).

Inductive LogLevel := Debug | Info | Notice | Warning | Error | Critical.

Inductive LogLine :=
| Parser (e : FanetProtocolParser.LogEvent)
| Line (level : LogLevel) (text : string).

(** The condition of the serial device: what [open] and [write] meet. *)
Inductive SerialPortError := NoError | DeviceNotFoundError | OtherError.

Record t := mk {
  m_config : RadioConfig;
  m_state : RadioState;
  m_gpio : bool;                 (* the Gpio pointer is not null *)
  gpio_calls : list GpioCall;    (* calls made on the Gpio object *)
  uart_isOpen : bool;
  uart_error : SerialPortError;  (* environment *)
  uart_rx : QByteArray;          (* bytes available for reading *)
  uart_tx : list QByteArray;     (* buffers accepted by write, in order *)
  m_timer : option Z;            (* interval of the armed single shot *)
  m_buffer : QByteArray;         (* the parser's buffer *)
  signals : list Signal;         (* signals emitted, in order *)
  log : list LogLine
}.

Abbreviation radio := (state t).

Definition set_m_state v r :=
  mk (m_config r) v (m_gpio r) (gpio_calls r) (uart_isOpen r) (uart_error r)
     (uart_rx r) (uart_tx r) (m_timer r) (m_buffer r) (signals r) (log r).
Definition set_gpio_calls v r :=
  mk (m_config r) (m_state r) (m_gpio r) v (uart_isOpen r) (uart_error r)
     (uart_rx r) (uart_tx r) (m_timer r) (m_buffer r) (signals r) (log r).
Definition set_uart_isOpen v r :=
  mk (m_config r) (m_state r) (m_gpio r) (gpio_calls r) v (uart_error r)
     (uart_rx r) (uart_tx r) (m_timer r) (m_buffer r) (signals r) (log r).
Definition set_uart_rx v r :=
  mk (m_config r) (m_state r) (m_gpio r) (gpio_calls r) (uart_isOpen r) (uart_error r)
     v (uart_tx r) (m_timer r) (m_buffer r) (signals r) (log r).
Definition set_uart_tx v r :=
  mk (m_config r) (m_state r) (m_gpio r) (gpio_calls r) (uart_isOpen r) (uart_error r)
     (uart_rx r) v (m_timer r) (m_buffer r) (signals r) (log r).
Definition set_m_timer v r :=
  mk (m_config r) (m_state r) (m_gpio r) (gpio_calls r) (uart_isOpen r) (uart_error r)
     (uart_rx r) (uart_tx r) v (m_buffer r) (signals r) (log r).
Definition set_m_buffer v r :=
  mk (m_config r) (m_state r) (m_gpio r) (gpio_calls r) (uart_isOpen r) (uart_error r)
     (uart_rx r) (uart_tx r) (m_timer r) v (signals r) (log r).
Definition set_signals v r :=
  mk (m_config r) (m_state r) (m_gpio r) (gpio_calls r) (uart_isOpen r) (uart_error r)
     (uart_rx r) (uart_tx r) (m_timer r) (m_buffer r) v (log r).
Definition set_log v r :=
  mk (m_config r) (m_state r) (m_gpio r) (gpio_calls r) (uart_isOpen r) (uart_error r)
     (uart_rx r) (uart_tx r) (m_timer r) (m_buffer r) (signals r) v.

(** *** The collaborators: logger, Gpio, QTimer, QSerialPort, signals *)

Definition m_log (level : LogLevel) (text : string) : radio unit :=
  modify (fun r => set_log (log r ++ [Line level text]) r) ;; ret tt.

Definition gpio (c : GpioCall) : radio unit :=
  r <- get ;;
  if m_gpio r then put (set_gpio_calls (gpio_calls r ++ [c]) r) else ret tt.

Definition emit (s : Signal) : radio unit :=
  modify (fun r => set_signals (signals r ++ [s]) r) ;; ret tt.

Definition timer_start (msec : Z) : radio unit :=
  modify (set_m_timer (Some msec)) ;; ret tt.

Definition timer_stop : radio unit :=
  modify (set_m_timer None) ;; ret tt.

(** [QSerialPort::open(ReadWrite)]. *)
Definition uart_open : radio bool :=
  r <- get ;;
  match uart_error r with
  | NoError => put (set_uart_isOpen true r) ;; ret true
  | _ => ret false
  end.

(** [QSerialPort::close]: buffered input is dropped. *)
Definition uart_close : radio unit :=
  modify (fun r => set_uart_rx [] (set_uart_isOpen false r)) ;; ret tt.

(** [QIODevice::write]: the number of bytes written, or -1. *)
Definition uart_write (buf : QByteArray) : radio Z :=
  r <- get ;;
  if uart_isOpen r then
    match uart_error r with
    | NoError => put (set_uart_tx (uart_tx r ++ [buf]) r) ;; ret (size buf)
    | _ => ret (-1)
    end
  else ret (-1).

(** [m_parser->next()] on the radio's serial port. *)
Definition parser_next : radio (option AbstractFanetMessage.t) :=
  r <- get ;;
  if uart_isOpen r then
    let res := FanetProtocolParser.next (uart_rx r) (m_buffer r) [] in
    put (set_log (log r ++ map Parser (FanetProtocolParser.res_log res))
           (set_m_buffer (FanetProtocolParser.res_buffer res)
              (set_uart_rx (FanetProtocolParser.res_dev res) r))) ;;
    ret (FanetProtocolParser.res_msg res)
  else ret None.

(** *** The member functions *)

Definition FanetRadio (config : RadioConfig) (gpio : bool) : t :=
  mk config RadioDisabled gpio
     (if gpio
      then [initPin (pinBoot config) (invertPinBoot config);
            initPin (pinReset config) (invertPinReset config);
            initPin LED_PIN_GREEN false; initPin LED_PIN_RED false;
            clearGpio LED_PIN_GREEN; clearGpio LED_PIN_RED]
      else [])
     false NoError [] [] None [] [] [].

Definition setState (state : RadioState) : radio unit :=
  r <- get ;;
  if negb (RadioState_eqb state (m_state r)) then
    m_log Info "radio state changed: %1 -> %2" ;;
    match state with
    | RadioResetting => gpio (setGpio LED_PIN_GREEN true)
    | RadioReady => gpio (setGpio LED_PIN_GREEN false)
    | RadioError | RadioDevNotFound | RadioDevOpenFail
    | RadioInitTimeout | RadioComTimeout | RadioWrongFw =>
        gpio (clearGpio LED_PIN_GREEN) ;; gpio (setGpio LED_PIN_RED true)
    | _ => gpio (clearGpio LED_PIN_RED)
    end ;;
    modify (set_m_state state) ;;
    emit (radioStateChanged state)
  else ret tt.

Definition sendMessage (msg : AbstractFanetMessage.t) : radio bool :=
  if AbstractFanetMessage.isValid msg && AbstractFanetMessage.isCommand msg then
    r <- get ;;
    (* isWritable: the port was opened ReadWrite *)
    if negb (uart_isOpen r) && uart_isOpen r then
      m_log Error "Cannot write to radio! Message dropped: '%1'" ;;
      ret false
    else
      let buf := [chr FanetProtocolParser.StartDelimiter]
                 ++ AbstractFanetMessage.serialize msg
                 ++ [chr FanetProtocolParser.EndDelimiter] in
      m_log Debug "Sending message: '%1'" ;;
      n <- uart_write buf ;;
      if negb (n =? size buf) then
        timer_stop ;;
        m_log Error "Failed to write to radio: %1" ;;
        setState RadioError ;;
        ret false
      else ret true
  else ret false.

Definition sendData (addr : FanetAddress.t) (data : FanetPayload.t) : radio bool :=
  if negb (FanetAddress.isValid addr) then
    m_log Warning "Failed to send data: invalid address!" ;;
    ret false
  else
    r <- get ;;
    if negb (RadioState_eqb (m_state r) RadioReady) then
      m_log Warning "Failed to send data (%1) to '%2': Radio is not ready (current state: %3)" ;;
      ret false
    else
      gpio (setGpio LED_PIN_GREEN true) ;;
      sendMessage (AbstractFanetMessage.TransmitCommand (TransmitCommand.mk addr data)).

Definition onRadioInitialized (msg : AbstractFanetMessage.t) : radio unit :=
  match AbstractFanetMessage.as_TransmitReply msg with
  | Some reply =>
      if GenericReply.ReplyType_eqb
           (GenericReply.m_reply (TransmitReply.base reply)) GenericReply.ReplyMsg
         && (GenericReply.m_code (TransmitReply.base reply) =? FANET_MSG_CODE_INITIALIZED)
      then
        m_log Info "Radio found, checking firmware version..." ;;
        timer_start FANET_COM_TIMEOUT_MSEC ;;
        _ <- sendMessage AbstractFanetMessage.VersionCommand ;;
        ret tt
      else m_log Warning "received unexpected message: %1"
  | None => m_log Warning "received unexpected message: %1"
  end.

Definition handleVersionReply (msg : AbstractFanetMessage.t) : radio unit :=
  timer_stop ;;
  match AbstractFanetMessage.as_VersionReply msg with
  | Some reply =>
      if isEmpty (VersionReply.version reply) then
        m_log Error "Radio firmware version check failed!" ;;
        setState RadioWrongFw
      else if negb (eqb (VersionReply.version reply) FANET_EXPECTED_FW) then
        m_log Error "Wrong radio firmware version: '%1' (expected: '%2')" ;;
        setState RadioWrongFw
      else
        m_log Notice "Firmware version: %1" ;;
        r <- get ;;
        let freq := if frequency (m_config r) =? 915
                    then RegionCommand.Freq915Mhz else RegionCommand.Freq868MHz in
        let cmd := RegionCommand.make (txPower (m_config r)) freq in
        m_log Info "Setting radio region: tx-power=%1dBm, frequency=%2" ;;
        _ <- sendMessage (AbstractFanetMessage.RegionCommand cmd) ;;
        timer_start FANET_COM_TIMEOUT_MSEC
  | None =>
      m_log Error "Radio firmware version check failed!" ;;
      setState RadioWrongFw
  end.

Definition handleRegionReply (msg : AbstractFanetMessage.t) : radio unit :=
  timer_stop ;;
  let failed :=
    m_log Error "Failed to set radio region/enabled: %1 - %2" ;;
    setState RadioError in
  match AbstractFanetMessage.as_GenericReply msg with
  | Some reply =>
      if negb (GenericReply.ReplyType_eqb (GenericReply.m_reply reply) GenericReply.ReplyOk)
      then failed
      else
        r <- get ;;
        if RadioState_eqb (m_state r) RadioInitializing then
          _ <- sendMessage (AbstractFanetMessage.EnableCommand true) ;;
          timer_start FANET_COM_TIMEOUT_MSEC ;;
          m_log Notice "Radio ready." ;;
          setState RadioReady
        else ret tt
  | None => failed
  end.

Definition handleFanetReply (msg : AbstractFanetMessage.t) : radio unit :=
  match AbstractFanetMessage.as_GenericReply msg with
  | Some reply =>
      if AbstractFanetMessage.isReply msg then
        gpio (clearGpio LED_PIN_GREEN) ;;
        match GenericReply.m_reply reply with
        | GenericReply.ReplyOk => m_log Debug "Fanet command reply: ok"
        | GenericReply.ReplyMsg => m_log Info "Fanet command reply: %1 - %2"
        | GenericReply.ReplyAck => m_log Debug "Fanet command: ack"
        | GenericReply.ReplyNack => m_log Debug "Fanet command: nack"
        | GenericReply.ReplyError =>
            m_log Error "Fanet command failed: %1 - %2" ;;
            setState RadioError
        | GenericReply.ReplyOther => m_log Error "Unknown reply"
        end
      else ret tt
  | None => ret tt
  end.

Definition handleFanetPktRecv (msg : AbstractFanetMessage.t) : radio unit :=
  match AbstractFanetMessage.as_ReceiveEvent msg with
  | Some event =>
      if ReceiveEvent.isValid event then
        m_log Info "%1 -> ..." ;;
        emit (messageReceived (FanetAddress.toUInt32 (ReceiveEvent.m_addr event))
                (ReceiveEvent.m_payload event) (ReceiveEvent.m_broadcast event))
      else ret tt
  | None => ret tt
  end.

Definition handleMessage (msg : AbstractFanetMessage.t) : radio unit :=
  match AbstractFanetMessage.type msg with
  | FMTPktReceivedEvent => handleFanetPktRecv msg
  | FMTFanetReply =>
      r <- get ;;
      if RadioState_eqb (m_state r) RadioInitializing
      then onRadioInitialized msg
      else handleFanetReply msg
  | FMTRegionReply => handleRegionReply msg
  | FMTVersionReply => handleVersionReply msg
  | _ => m_log Debug "ignored unexpected fanet message (type: %1)"
  end.

Definition injectMessage (data : QByteArray) : radio unit :=
  match FanetProtocolParser.parseMessage data with
  | (Some msg, plog) =>
      modify (fun r => set_log (log r ++ map Parser plog) r) ;;
      handleMessage msg
  | (None, plog) =>
      modify (fun r => set_log (log r ++ map Parser plog) r) ;; ret tt
  end.

Definition deinit : radio unit :=
  gpio (clearGpio FANET_PIN_RESET) ;;
  timer_stop ;;
  r <- get ;;
  (if uart_isOpen r then uart_close else ret tt) ;;
  setState RadioDisabled.

Definition init : radio unit :=
  r <- get ;;
  (if uart_isOpen r then deinit else ret tt) ;;
  setState RadioResetting ;;
  opened <- uart_open ;;
  if negb opened then
    r <- get ;;
    setState (match uart_error r with
              | DeviceNotFoundError => RadioDevNotFound
              | _ => RadioDevOpenFail
              end) ;;
    m_log Error "failed to open serial port: %1 (%2)"
  else
    m_log Info "serial port opened: %1, resetting radio..." ;;
    gpio (setGpio FANET_PIN_BOOT true) ;;
    gpio (clearGpio FANET_PIN_RESET) ;;
    timer_start FANET_RESET_MSEC.

Definition onTimeout : radio unit :=
  r <- get ;;
  match m_state r with
  | RadioResetting =>
      gpio (setGpio FANET_PIN_RESET true) ;;
      setState RadioInitializing ;;
      timer_start FANET_INIT_TIMEOUT_MSEC
  | RadioInitializing =>
      m_log Error "Timeout initializing radio!" ;;
      setState RadioInitTimeout
  | RadioReady =>
      m_log Error "communication with radio timed out!" ;;
      setState RadioComTimeout
  | _ => ret tt
  end.

(** [onReadyRead]: [while ((msg = m_parser->next())) ...].  Every
    iteration that goes on has read an end delimiter, so the number of
    unread bytes bounds the iterations. *)
Fixpoint onReadyRead_loop (fuel : nat) : radio unit :=
  match fuel with
  | O => ret tt
  | S fuel' =>
      msg <- parser_next ;;
      match msg with
      | Some m =>
          (if AbstractFanetMessage.isValid m then handleMessage m else ret tt) ;;
          onReadyRead_loop fuel'
      | None => ret tt
      end
  end.

Definition onReadyRead : radio unit :=
  r <- get ;;
  onReadyRead_loop (S (length (uart_rx r))).

(** *** The events of the event loop *)

(** The single-shot timer fires. *)
Definition timerExpires : radio unit :=
  r <- get ;;
  match m_timer r with
  | Some _ => timer_stop ;; onTimeout
  | None => ret tt
  end.

(** Bytes arrive at the open port; [readyRead] is signalled once. *)
Definition receive (bytes : QByteArray) : radio unit :=
  r <- get ;;
  if uart_isOpen r then
    put (set_uart_rx (uart_rx r ++ bytes) r) ;;
    onReadyRead
  else ret tt.

End FanetRadio.

(** ** weatherstation/abstractweatherstation.h, as the dispatcher sees it *)

Module AbstractWeatherStation.

Import Qt.

(** A [QDateTime] in UTC: milliseconds since the epoch, [None] when the
    object is invalid (default constructed). *)
Definition QDateTime := option Z.

Definition NoData : Z := 0x00.
Definition WindSpeed : Z := 0x01.
Definition WindSpeedGust : Z := 0x02.
Definition WindDirection : Z := 0x04.
Definition Temperature : Z := 0x08.
Definition Humidity : Z := 0x10.

Record StationConfig := mkConfig {
  position : FanetPayload.QGeoCoordinate;
  cfg_updateInterval : Z
}.

Record t := mk {
  stationId : Z;
  stationName : QByteArray;
  lastUpdate : QDateTime;
  windDirection : Z;
  windSpeed : Z;
  windGusts : Z;
  temperature : Z;
  availableData : Z;
  config : StationConfig;
  m_updateIntervalSecs : Z;
  update_calls : nat            (* requests made through update() *)
}.

(** [setUpdateInterval]; the station's own timer runs iff the interval
    is positive. *)
Definition setUpdateInterval (secs : Z) (s : t) : t :=
  if negb (secs =? m_updateIntervalSecs s)
  then mk (stationId s) (stationName s) (lastUpdate s) (windDirection s)
          (windSpeed s) (windGusts s) (temperature s) (availableData s)
          (config s) secs (update_calls s)
  else s.

(** [update]: the fetch itself belongs to the provider adapters. *)
Definition update (s : t) : t :=
  mk (stationId s) (stationName s) (lastUpdate s) (windDirection s)
     (windSpeed s) (windGusts s) (temperature s) (availableData s)
     (config s) (m_updateIntervalSecs s) (S (update_calls s)).

End AbstractWeatherStation.

(** ** fanetmessagedispatcher.cpp *)

Module FanetMessageDispatcher.

Import Qt.
Import AbstractWeatherStation.

Record FanetConfig := mkConfig {
  txIntervalWeather : Z;
  txIntervalNames : Z;
  inactivityTimeout : Z;
  weatherDataMaxAge : Z
}.

Record t := mk {
  m_config : FanetConfig;
  m_radio : FanetRadio.t;
  m_stations : list AbstractWeatherStation.t;
  m_lastNodeSeen : QDateTime;
  m_lastWeatherUpdate : QDateTime;
  m_lastNameUpdate : QDateTime;
  m_timer : bool;                       (* the 1 s tick is active *)
  sendData_calls : list (FanetAddress.t * FanetPayload.t);
                                      (* calls of m_radio->sendData, in order *)
  log : list (FanetRadio.LogLevel * string)
}.

Abbreviation disp := (state t).

Definition set_m_radio v d :=
  mk (m_config d) v (m_stations d) (m_lastNodeSeen d) (m_lastWeatherUpdate d)
     (m_lastNameUpdate d) (m_timer d) (sendData_calls d) (log d).
Definition set_m_stations v d :=
  mk (m_config d) (m_radio d) v (m_lastNodeSeen d) (m_lastWeatherUpdate d)
     (m_lastNameUpdate d) (m_timer d) (sendData_calls d) (log d).
Definition set_m_lastNodeSeen v d :=
  mk (m_config d) (m_radio d) (m_stations d) v (m_lastWeatherUpdate d)
     (m_lastNameUpdate d) (m_timer d) (sendData_calls d) (log d).
Definition set_m_lastWeatherUpdate v d :=
  mk (m_config d) (m_radio d) (m_stations d) (m_lastNodeSeen d) v
     (m_lastNameUpdate d) (m_timer d) (sendData_calls d) (log d).
Definition set_m_lastNameUpdate v d :=
  mk (m_config d) (m_radio d) (m_stations d) (m_lastNodeSeen d) (m_lastWeatherUpdate d)
     v (m_timer d) (sendData_calls d) (log d).
Definition set_m_timer v d :=
  mk (m_config d) (m_radio d) (m_stations d) (m_lastNodeSeen d) (m_lastWeatherUpdate d)
     (m_lastNameUpdate d) v (sendData_calls d) (log d).
Definition set_sendData_calls v d :=
  mk (m_config d) (m_radio d) (m_stations d) (m_lastNodeSeen d) (m_lastWeatherUpdate d)
     (m_lastNameUpdate d) (m_timer d) v (log d).
Definition set_log v d :=
  mk (m_config d) (m_radio d) (m_stations d) (m_lastNodeSeen d) (m_lastWeatherUpdate d)
     (m_lastNameUpdate d) (m_timer d) (sendData_calls d) v.

Definition m_log (level : FanetRadio.LogLevel) (text : string) : disp unit :=
  modify (fun d => set_log (log d ++ [(level, text)]) d) ;; ret tt.

(** A call into the radio object.  The signals the radio emits during
    the call are kept in its trace; the slots they are connected to are
    entries of their own below. *)
Definition on_radio {A} (op : FanetRadio.radio A) : disp A :=
  d <- get ;;
  let '(a, r) := runState op (m_radio d) in
  put (set_m_radio r d) ;;
  ret a.

Definition radio_sendData (addr : FanetAddress.t) (data : FanetPayload.t) : disp bool :=
  modify (fun d => set_sendData_calls (sendData_calls d ++ [(addr, data)]) d) ;;
  on_radio (FanetRadio.sendData addr data).

(** [FanetRadio::supportsAddressChange]. *)
Definition supportsAddressChange : bool := false.

(** [QDateTime::secsTo] between two valid instants. *)
Definition secsTo (from to : Z) : Z := Z.quot (to - from) 1000.

(** [a > b] on [QDateTime]: an invalid one is below every valid one. *)
Definition QDateTime_gtb (a b : QDateTime) : bool :=
  match a, b with
  | Some x, Some y => y <? x
  | Some _, None => true
  | None, _ => false
  end.

(** [!last.isValid() || last.secsTo(current) > interval]. *)
Definition elapsed (last : QDateTime) (current interval : Z) : bool :=
  match last with
  | None => true
  | Some l => interval <? secsTo l current
  end.

Fixpoint sendWeatherData_loop (maxAge : QDateTime)
    (stations : list AbstractWeatherStation.t) : disp unit :=
  match stations with
  | [] => ret tt
  | station :: rest =>
      (if QDateTime_gtb (lastUpdate station) maxAge then
         let header :=
           Z.lor FanetPayload.SHWind
             (if negb (Z.land (availableData station) Temperature =? 0)
              then FanetPayload.SHTemperature else 0) in
         let pos := position (config station) in
         let data := FanetPayload.servicePayload header pos
                       (temperature station) (windDirection station)
                       (windSpeed station) (windGusts station) 0 0 in
         let bcAddr := FanetAddress.default in
         _ <- radio_sendData bcAddr data ;; ret tt
       else
         m_log FanetRadio.Debug
           "Not sending weather data for station #%1 (%2): station has outdated data (last update: %1)") ;;
      if negb supportsAddressChange then ret tt
      else sendWeatherData_loop maxAge rest
  end.

(** [now] is what [QDateTime::currentDateTimeUtc] returns during the call. *)
Definition sendWeatherData (now : Z) : disp unit :=
  modify (set_m_lastWeatherUpdate (Some now)) ;;
  d <- get ;;
  let maxAge := Some (now - weatherDataMaxAge (m_config d) * 1000) in
  sendWeatherData_loop maxAge (m_stations d).

Fixpoint sendStationNames_loop (stations : list AbstractWeatherStation.t) : disp unit :=
  match stations with
  | [] => ret tt
  | station :: rest =>
      (if negb (isEmpty (stationName station)) then
         let name := FanetPayload.namePayload (stationName station) in
         let bcAddr := FanetAddress.default in
         _ <- radio_sendData bcAddr name ;; ret tt
       else ret tt) ;;
      if negb supportsAddressChange then ret tt
      else sendStationNames_loop rest
  end.

Definition sendStationNames (now : Z) : disp unit :=
  modify (set_m_lastNameUpdate (Some now)) ;;
  d <- get ;;
  sendStationNames_loop (m_stations d).

Definition disableWeatherUpdates : disp unit :=
  m_log FanetRadio.Debug "Disabling weather updates..." ;;
  modify (fun d => set_m_stations (map (setUpdateInterval 0) (m_stations d)) d) ;;
  modify (set_m_timer false) ;;
  ret tt.

Definition enabledWeatherUpdates : disp unit :=
  m_log FanetRadio.Debug "Enabling weather updates..." ;;
  modify (fun d =>
    set_m_stations
      (map (fun station =>
              update (setUpdateInterval (cfg_updateInterval (config station)) station))
           (m_stations d)) d) ;;
  modify (set_m_timer true) ;;
  ret tt.

(** The slot of the 1 s tick. *)
Definition onTimeout (now : Z) : disp unit :=
  d <- get ;;
  if (0 <? inactivityTimeout (m_config d))
     && elapsed (m_lastNodeSeen d) now (inactivityTimeout (m_config d))
  then
    m_log FanetRadio.Info
      "No Fanet nodes seen within the last %1 minutes, disabling weather data broadcasting..." ;;
    disableWeatherUpdates
  else
    (if (0 <? txIntervalNames (m_config d))
        && elapsed (m_lastNameUpdate d) now (txIntervalNames (m_config d))
     then sendStationNames now else ret tt) ;;
    d <- get ;;
    if (0 <? txIntervalWeather (m_config d))
       && elapsed (m_lastWeatherUpdate d) now (txIntervalWeather (m_config d))
    then sendWeatherData now else ret tt.

Definition onRadioStateChanged (state : FanetRadio.RadioState) : disp unit :=
  match state with
  | FanetRadio.RadioReady =>
      d <- get ;;
      (if negb supportsAddressChange && (1 <? size_list (m_stations d)) then
         m_log FanetRadio.Warning
           "Multiple weather stations configured but radio firmware does not support address change."
       else ret tt) ;;
      enabledWeatherUpdates
  | FanetRadio.RadioError | FanetRadio.RadioComTimeout =>
      m_log FanetRadio.Error "Fanet radio has gone into error state!" ;;
      disableWeatherUpdates ;;
      m_log FanetRadio.Info "Trying to re-initialize radio..." ;;
      on_radio FanetRadio.init
  | FanetRadio.RadioDevNotFound | FanetRadio.RadioDevOpenFail
  | FanetRadio.RadioInitTimeout | FanetRadio.RadioWrongFw =>
      m_log FanetRadio.Critical "Unrecoverable radio error!"
  | _ => ret tt
  end.

Definition onFanetMessageReceived (addr : Z) (payload : FanetPayload.t)
    (broadcast : bool) (now : Z) : disp unit :=
  match FanetPayload.type payload with
  | FanetPayload.PTTracking | FanetPayload.PTGroundTracking =>
      modify (set_m_lastNodeSeen (Some now)) ;;
      d <- get ;;
      if negb (m_timer d) then
        m_log FanetRadio.Info "Fanet node seen (%1), enabling weather data broadcasting..." ;;
        enabledWeatherUpdates
      else ret tt
  | _ => ret tt
  end.

(** The slots the event loop enters the dispatcher through. *)
Inductive Slot :=
| Timeout (now : Z)
| RadioStateChanged (state : FanetRadio.RadioState)
| FanetMessageReceived (addr : Z) (payload : FanetPayload.t) (broadcast : bool) (now : Z).

Definition invoke (s : Slot) : disp unit :=
  match s with
  | Timeout now => onTimeout now
  | RadioStateChanged state => onRadioStateChanged state
  | FanetMessageReceived addr payload broadcast now =>
      onFanetMessageReceived addr payload broadcast now
  end.

Fixpoint run (slots : list Slot) : disp unit :=
  match slots with
  | [] => ret tt
  | s :: rest => invoke s ;; run rest
  end.

(** A slot call that reports a node: a received Tracking or
    GroundTracking payload. *)
Definition reports_node (s : Slot) : bool :=
  match s with
  | FanetMessageReceived _ payload _ _ =>
      match FanetPayload.type payload with
      | FanetPayload.PTTracking | FanetPayload.PTGroundTracking => true
      | _ => false
      end
  | _ => false
  end.

End FanetMessageDispatcher.

(** ** Scenarios and reference definitions used by the properties *)

Module Scenario.

Import Qt.

(** A frame as it travels on the serial line. *)
Definition frame (body : string) : QByteArray :=
  ["#"%char] ++ lit body ++ [LF].

(** The bring-up stream of the specification's first scenario. *)
Definition bringup_frames : list QByteArray :=
  [frame "CCCCC"; frame "FNR MSG,1,initialized";
   frame "DGV build-202201131742"; frame "DGR OK"; frame "FNR OK"].

Definition bringup_stream : QByteArray := concat bringup_frames.

(** 868 MHz at 14 dBm, pins as in the defaults of the configuration. *)
Definition config_868_14 : FanetRadio.RadioConfig :=
  FanetRadio.mkConfig 14 868 FanetRadio.FANET_PIN_BOOT FanetRadio.FANET_PIN_RESET
    false false.

Definition radio0 : FanetRadio.t := FanetRadio.FanetRadio config_868_14 true.

(** Chunks of bytes arriving one after the other, [readyRead] signalled
    for each. *)
Fixpoint feed (chunks : list QByteArray) : FanetRadio.radio unit :=
  match chunks with
  | [] => ret tt
  | c :: rest => FanetRadio.receive c ;; feed rest
  end.

(** [init()], the reset timer expiring, then the chunks. *)
Definition bringup (chunks : list QByteArray) : FanetRadio.radio unit :=
  FanetRadio.init ;; FanetRadio.timerExpires ;; feed chunks.

Definition region_ok : AbstractFanetMessage.t :=
  AbstractFanetMessage.GenericReply (GenericReply.make FMTRegionReply (lit " OK")).

Definition region_err : AbstractFanetMessage.t :=
  AbstractFanetMessage.GenericReply (GenericReply.make FMTRegionReply (lit " ERR,12,fail")).

(** The address a parsed message carries, if it is of a class that
    has one. *)
Definition reply_address (msg : option AbstractFanetMessage.t) : option FanetAddress.t :=
  match msg with
  | Some (AbstractFanetMessage.TransmitReply r) => Some (TransmitReply.m_addr r)
  | Some (AbstractFanetMessage.ReceiveEvent e) => Some (ReceiveEvent.m_addr e)
  | Some (AbstractFanetMessage.TransmitCommand c) => Some (TransmitCommand.m_addr c)
  | _ => None
  end.

(** The decoding of [FanetPayload.heading] applied to an encoded wind
    direction. *)
Definition heading_of_dir (d : Z) : Z :=
  FanetPayload.heading
    (FanetPayload.mk FanetPayload.PTTracking
       (repeat 0 10 ++ [qRound (inject_Z d * 256 / 360) mod 256])).

(** A dispatcher as in the specification's activity-gating scenario:
    weather every 40 s, inactivity timeout 600 s, one station. *)
Definition station0 : AbstractWeatherStation.t :=
  AbstractWeatherStation.mk 1 (lit "Testberg") (Some 0) 90 80 150 215
    (Z.lor AbstractWeatherStation.WindSpeed AbstractWeatherStation.Temperature)
    (AbstractWeatherStation.mkConfig (Some (47.5, 10.25)%Q) 60) 60 0.

Definition dispatcher_on (radio : FanetRadio.t) (seen : AbstractWeatherStation.QDateTime)
  : FanetMessageDispatcher.t :=
  FanetMessageDispatcher.mk (FanetMessageDispatcher.mkConfig 40 0 600 3600)
    radio [station0] seen None None true [] [].

Definition dispatcher0 : FanetMessageDispatcher.t := dispatcher_on radio0 None.

Definition quiet_slots : list FanetMessageDispatcher.Slot :=
  [FanetMessageDispatcher.Timeout 1000;
   FanetMessageDispatcher.RadioStateChanged FanetRadio.RadioReady;
   FanetMessageDispatcher.Timeout 2000;
   FanetMessageDispatcher.FanetMessageReceived 0 (FanetPayload.namePayload (lit "x")) true 2500;
   FanetMessageDispatcher.Timeout 3000].

(** What a tick does while no node was ever seen and the inactivity
    timeout is set: the log line and [disableWeatherUpdates]. *)
Definition gated_tick : FanetMessageDispatcher.disp unit :=
  FanetMessageDispatcher.m_log FanetRadio.Info
    "No Fanet nodes seen within the last %1 minutes, disabling weather data broadcasting..." ;;
  FanetMessageDispatcher.disableWeatherUpdates.

(** The facts about the dispatcher that hold as long as no node is
    reported. *)
Record quiet (d0 d : FanetMessageDispatcher.t) : Prop := {
  quiet_config : FanetMessageDispatcher.m_config d = FanetMessageDispatcher.m_config d0;
  quiet_node : FanetMessageDispatcher.m_lastNodeSeen d = None;
  quiet_calls :
    FanetMessageDispatcher.sendData_calls d = FanetMessageDispatcher.sendData_calls d0
}.

(** A character that is neither blank nor one of the separators. *)
Definition plain (c : ascii) : Prop :=
  qchar_isSpace c = false /\ Ascii.eqb c ","%char = false /\
  Ascii.eqb ","%char c = false /\ Ascii.eqb ":"%char c = false.

(** The device part of [FanetAddress.toHex]. *)
Definition device_hex (d : Z) : QByteArray :=
  Qt.toHex [Z.shiftr (Z.land d 0xff00) 8; Z.land d 0x00ff].

End Scenario.

(** ** The framer, run over a stream and described by splitting *)

Module FramerSpec.

Import Qt FanetProtocolParser.

(** [next] called again and again until the device holds no byte: the
    results of the calls, in order. *)
Fixpoint drain (fuel : nat) (dev m_buffer : QByteArray) : list Result :=
  match fuel, dev with
  | S fuel', _ :: _ =>
      let res := next dev m_buffer [] in
      res :: drain fuel' (res_dev res) (res_buffer res)
  | _, _ => []
  end.

Definition run (stream : QByteArray) : list Result :=
  drain (length stream) stream [].

Definition opt_list {A} (o : option A) : list A :=
  match o with Some a => [a] | None => [] end.

(** The messages the calls returned, and all they logged. *)
Definition yielded (rs : list Result) : list AbstractFanetMessage.t :=
  flat_map (fun res => opt_list (res_msg res)) rs.
Definition logged (rs : list Result) : list LogEvent :=
  flat_map res_log rs.

(** The bodies handed to [parseMessage], read off the log. *)
Definition dispatched (l : list LogEvent) : list QByteArray :=
  flat_map (fun e => match e with DebugMsgReceived b => [b] | _ => [] end) l.

Definition is_start (c : ascii) : bool := code c =? StartDelimiter.
Definition is_end (c : ascii) : bool := code c =? EndDelimiter.

(** The pieces of a text between the bytes that satisfy [p]. *)
Fixpoint split_on (p : ascii -> bool) (s : QByteArray) : list QByteArray :=
  match s with
  | [] => [[]]
  | c :: t =>
      if p c then [] :: split_on p t
      else match split_on p t with
           | piece :: rest => (c :: piece) :: rest
           | [] => [[c]]
           end
  end.

(** The stream cut at the end delimiters: every segment but the last
    one was closed by an end delimiter. *)
Definition segments (stream : QByteArray) : list QByteArray :=
  split_on is_end stream.

(** The body of a closed segment: what follows its last start delimiter,
    or all of it when it has none. *)
Definition body_of (segment : QByteArray) : QByteArray :=
  last (split_on is_start segment) [].

Definition bodies (stream : QByteArray) : list QByteArray :=
  map body_of (removelast (segments stream)).

Definition messages (stream : QByteArray) : list AbstractFanetMessage.t :=
  flat_map (fun b => opt_list (fst (parseMessage b))) (bodies stream).

(** Cut short by a start delimiter, a piece goes unreported when it is
    empty or starts with the boot chatter. *)
Definition silent (piece : QByteArray) : bool :=
  isEmpty piece || startsWith piece MSG_INIT_IGNORE.

Definition warn_cut (piece : QByteArray) : list LogEvent :=
  if silent piece then [] else [WarnDiscardingIncomplete piece].

Definition dispatch_log (body : QByteArray) : list LogEvent :=
  DebugMsgReceived body :: snd (parseMessage body).

Section Outputs.

Context {E : Type}.
(** What a piece cut short by a start delimiter gives rise to, and
    what a body closed by an end delimiter gives rise to. *)
Variables on_cut on_end : QByteArray -> list E.

(** One pass over the bytes with the buffer at hand. *)
Fixpoint scan (s buf : QByteArray) : list E :=
  match s with
  | [] => []
  | c :: t =>
      if is_start c then on_cut buf ++ scan t []
      else if is_end c then on_end buf ++ scan t []
      else scan t (buf ++ [c])
  end.

(** The same by splitting: in every segment all pieces but the last
    are cut short; the last piece of a closed segment is its body. *)
Fixpoint cut_out (pieces : list QByteArray) : list E :=
  match pieces with
  | [] => []
  | piece :: rest =>
      match rest with
      | [] => []
      | _ :: _ => on_cut piece ++ cut_out rest
      end
  end.

Fixpoint segments_out (segs : list QByteArray) : list E :=
  match segs with
  | [] => []
  | seg :: rest =>
      cut_out (split_on is_start seg)
      ++ match rest with
         | [] => []
         | _ :: _ => on_end (body_of seg) ++ segments_out rest
         end
  end.

(** The same with a buffer that already holds the start of the
    first piece. *)
Definition with_buf (buf : QByteArray) (pieces : list QByteArray) : list QByteArray :=
  match pieces with
  | piece :: rest => (buf ++ piece) :: rest
  | [] => [buf]
  end.

Definition segments_out_from (buf : QByteArray) (segs : list QByteArray) : list E :=
  match segs with
  | [] => []
  | seg :: rest =>
      cut_out (with_buf buf (split_on is_start seg))
      ++ match rest with
         | [] => []
         | _ :: _ =>
             on_end (last (with_buf buf (split_on is_start seg)) [])
             ++ segments_out rest
         end
  end.

End Outputs.

Definition spec_log (stream : QByteArray) : list LogEvent :=
  segments_out warn_cut dispatch_log (segments stream).

(** The reading of the specification: a body counts only between a
    start delimiter and the next end delimiter. *)
Fixpoint framed (s : QByteArray) (open : option QByteArray) : list QByteArray :=
  match s with
  | [] => []
  | c :: t =>
      if is_start c then framed t (Some [])
      else if is_end c then
        match open with
        | Some body => body :: framed t None
        | None => framed t None
        end
      else framed t (option_map (fun body => body ++ [c]) open)
  end.

Definition framed_bodies (stream : QByteArray) : list QByteArray :=
  framed stream None.

End FramerSpec.

(** ** The bring-up stream under every way of cutting it into reads *)

Module Chunking.

Import Qt FanetRadio.

(** Equality of radio records is decidable. *)
Definition RadioState_eq_dec (a b : RadioState) : {a = b} + {a <> b}.
Proof. decide equality. Defined.

Definition GpioPin_eq_dec (a b : GpioPin) : {a = b} + {a <> b}.
Proof. decide equality. apply Z.eq_dec. Defined.

Definition GpioCall_eq_dec (a b : GpioCall) : {a = b} + {a <> b}.
Proof. decide equality; first [apply bool_dec | apply GpioPin_eq_dec]. Defined.

Definition RadioConfig_eq_dec (a b : RadioConfig) : {a = b} + {a <> b}.
Proof. decide equality; first [apply bool_dec | apply GpioPin_eq_dec | apply Z.eq_dec]. Defined.

Definition PayloadType_eq_dec (a b : FanetPayload.PayloadType) : {a = b} + {a <> b}.
Proof. decide equality. Defined.

Definition FanetPayload_eq_dec (a b : FanetPayload.t) : {a = b} + {a <> b}.
Proof.
decide equality; first [apply (list_eq_dec Z.eq_dec) | apply PayloadType_eq_dec].
Defined.

Definition Signal_eq_dec (a b : Signal) : {a = b} + {a <> b}.
Proof.
decide equality;
  first [apply bool_dec | apply FanetPayload_eq_dec | apply Z.eq_dec
        | apply RadioState_eq_dec].
Defined.

Definition LogEvent_eq_dec (a b : FanetProtocolParser.LogEvent) : {a = b} + {a <> b}.
Proof. decide equality; apply (list_eq_dec ascii_dec). Defined.

Definition LogLevel_eq_dec (a b : LogLevel) : {a = b} + {a <> b}.
Proof. decide equality. Defined.

Definition LogLine_eq_dec (a b : LogLine) : {a = b} + {a <> b}.
Proof.
decide equality; first [apply string_dec | apply LogLevel_eq_dec | apply LogEvent_eq_dec].
Defined.

Definition SerialPortError_eq_dec (a b : SerialPortError) : {a = b} + {a <> b}.
Proof. decide equality. Defined.

Definition t_eq_dec (a b : t) : {a = b} + {a <> b}.
Proof.
decide equality;
  first [ apply (list_eq_dec LogLine_eq_dec) | apply (list_eq_dec Signal_eq_dec)
        | apply (list_eq_dec ascii_dec)
        | apply (list_eq_dec (list_eq_dec ascii_dec))
        | apply (list_eq_dec GpioCall_eq_dec)
        | apply bool_dec | apply SerialPortError_eq_dec | apply RadioState_eq_dec
        | apply RadioConfig_eq_dec
        | decide equality; apply Z.eq_dec ].
Defined.

Definition t_eqb (a b : t) : bool := if t_eq_dec a b then true else false.

Definition stream := Scenario.bringup_stream.

(** The bytes [p, q) of the stream. *)
Definition slice (p q : nat) : QByteArray := firstn (q - p) (skipn p stream).

(** The radio after [init()] and the reset timer. *)
Definition started (gpio : bool) : t :=
execState (init ;; timerExpires) (FanetRadio Scenario.config_868_14 gpio).

(** Index of the first end delimiter of the stream. *)
Definition first_end : nat := 6.

(** The radio after [p] bytes of the stream.  [held = false]: all of
  them were read, as when they arrive one by one.  [held = true]: the
  read that took in the first end delimiter had more bytes at hand,
  which are still in the port. *)
Definition reached (gpio : bool) (p : nat) (held : bool) : t :=
if held
then execState (Scenario.feed (map (fun c => [c]) (slice 0 first_end)
                               ++ [slice first_end p])) (started gpio)
else execState (Scenario.feed (map (fun c => [c]) (slice 0 p))) (started gpio).

(** Whether a read that brings the bytes [p, q) leaves bytes in the port. *)
Definition holds_back (p q : nat) : bool :=
(p <=? first_end)%nat && (first_end + 2 <=? q)%nat.

Definition step_ok (gpio : bool) (from to : t) (p q : nat) : bool :=
t_eqb (execState (receive (slice p q)) from) to.

(** Every read [p, q), from either kind of state at [p], checked against
  the state at [q]. *)
Definition all_steps_ok (gpio : bool) : bool :=
let n := length stream in
let all := map (fun p => reached gpio p false) (seq 0 (S n)) in
let held := map (fun p => reached gpio p true) (seq 0 (S n)) in
forallb (fun p =>
  forallb (fun q =>
    let target := nth q (if holds_back p q then held else all) (started gpio) in
    step_ok gpio (nth p all (started gpio)) target p q
    && (if (first_end + 2 <=? p)%nat
        then step_ok gpio (nth p held (started gpio)) (nth q all (started gpio)) p q
        else true))
    (seq (S p) (n - p)))
  (seq 0 n).

(** Whether bytes are held back after the last of the reads [chunks],
  which start at byte [p]. *)
Fixpoint final_held (p : nat) (held : bool) (chunks : list QByteArray) : bool :=
match chunks with
| [] => held
| c :: rest => final_held (p + length c) (holds_back p (p + length c)) rest
end.

End Chunking.

(** ** fanetpayload.cpp: the getters, with the precondition of [at] *)

Module PayloadFields.

Import Qt FanetPayload.

(** [QByteArray::at(i)] asks for [0 <= i < size()]; [None] is an index
    outside the buffer. *)
Definition at_checked (d : list Z) (i : Z) : option Z :=
  if 0 <=? i then nth_error d (Z.to_nat i) else None.

(** [QGeoCoordinate(latitude, longitude)]: values out of range set
    nothing, the coordinate stays invalid. *)
Definition QGeoCoordinate_make (lat lon : Q) : QGeoCoordinate :=
  if coord_isValid (Some (lat, lon)) then Some (lat, lon) else None.

(** The [qint32] made of three bytes, little endian, with the sign of the
    third one extended. *)
Definition coord_int (b0 b1 b2 : Z) : Z :=
  let u := Z.lor (Z.lor (Z.lor b0 (Z.shiftl b1 8)) (Z.shiftl b2 16))
             (if bit_set b2 0x80 then 0xFF000000 else 0x00000000) in
  if 2 ^ 31 <=? u then u - 2 ^ 32 else u.

Definition position_at (d : list Z) (offset : Z) : option QGeoCoordinate :=
  b0 <- at_checked d (offset + 0) ;;
  b1 <- at_checked d (offset + 1) ;;
  b2 <- at_checked d (offset + 2) ;;
  b3 <- at_checked d (offset + 3) ;;
  b4 <- at_checked d (offset + 4) ;;
  b5 <- at_checked d (offset + 5) ;;
  let ilat := coord_int b0 b1 b2 in
  let ilon := coord_int b3 b4 b5 in
  let lat := fround (inject_Z ilat / 93206) in
  let lon := fround (inject_Z ilon / 46603) in
  ret (QGeoCoordinate_make lat lon).

Definition POS_SIZE : Z := 6.

Definition position (p : t) : option QGeoCoordinate :=
  match m_type p with
  | PTService =>
      h <- at_checked (m_data p) 0 ;;
      let header := Platform.char_to_int h in
      let offset := if testFlags header SHExtendedHeader then 2 else 1 in
      if dsize (m_data p) <? POS_SIZE + offset then ret None
      else position_at (m_data p) offset
  | PTThermal | PTTracking | PTGroundTracking => position_at (m_data p) 0
  | _ => ret None
  end.

(** [enum AircraftType] and [enum GroundTrackingType] by their values. *)
Definition ATOther : Z := 0x00.
Definition GTOther : Z := 0x00.

Definition aircraftType (p : t) : option Z :=
  match m_type p with
  | PTTracking =>
      b <- at_checked (m_data p) 7 ;;
      ret (Z.land (Z.shiftr (Platform.char_to_int b) 4) 0x07)
  | _ => ret ATOther
  end.

Definition groundTrackingType (p : t) : option Z :=
  match m_type p with
  | PTGroundTracking =>
      b <- at_checked (m_data p) 6 ;;
      ret (Z.shiftr (Z.land (Platform.char_to_int b) 0xF0) 4)
  | _ => ret GTOther
  end.

Definition onlineTracking (p : t) : option bool :=
  match m_type p with
  | PTTracking => b <- at_checked (m_data p) 7 ;; ret (bit_set b 0x80)
  | PTGroundTracking => b <- at_checked (m_data p) 6 ;; ret (bit_set b 0x01)
  | _ => ret false
  end.

(** The header the Service getters build: [at(0)] is read only when the
    type is Service. *)
Definition service_header (p : t) : option ServiceHeaderFlags :=
  if PayloadType_eqb (m_type p) PTService
  then h <- at_checked (m_data p) 0 ;; ret (Platform.char_to_int h)
  else ret 0.

Definition temperature (p : t) : option Z :=
  header <- service_header p ;;
  if testFlags header SHTemperature then
    let offset := if testFlag header SHExtendedHeader then 8 else 7 in
    b <- at_checked (m_data p) offset ;;
    ret (to_qint8 b * 5)
  else ret (TemperatureInvalid * 10).

Definition dir (p : t) : option Z :=
  header <- service_header p ;;
  if testFlags header SHWind then
    let offset := wind_offset header in
    b <- at_checked (m_data p) offset ;;
    ret (qRound (inject_Z ((Platform.char_to_int b * 360) mod 256) / 256))
  else ret (-1).

Definition wind (p : t) : option Z :=
  header <- service_header p ;;
  if testFlags header SHWind then
    let offset := wind_offset header in
    data <- at_checked (m_data p) (offset + 1) ;;
    ret (scaled_speed data)
  else ret (-1).

Definition gusts (p : t) : option Z :=
  header <- service_header p ;;
  if testFlags header SHWind then
    let offset := wind_offset header in
    data <- at_checked (m_data p) (offset + 2) ;;
    ret (scaled_speed data)
  else ret (-1).

Definition altitude (p : t) : option Z :=
  match m_type p with
  | PTTracking | PTThermal =>
      b7 <- at_checked (m_data p) 7 ;;
      let scale := if bit_set b7 0x08 then 4 else 1 in
      b6 <- at_checked (m_data p) 6 ;;
      let alt := Z.lor b6 (Z.shiftl (Z.land b7 0x07) 8) in
      ret (scale * alt)
  | _ => ret (-1)
  end.

Definition heading (p : t) : option Z :=
  match m_type p with
  | PTTracking | PTThermal =>
      data <- at_checked (m_data p) 10 ;;
      ret (qRound (inject_Z data * 360 / 256))
  | _ => ret (-1)
  end.

Definition speed (p : t) : option Z :=
  match m_type p with
  | PTTracking => data <- at_checked (m_data p) 8 ;; ret (scaled_speed data)
  | PTThermal => data <- at_checked (m_data p) 9 ;; ret (scaled_speed data)
  | _ => ret (-1)
  end.

(** The climb byte: bit 7 the scale, bits 0 to 6 a two's complement
    value in 0.1 m/s. *)
Definition climb_of (data : Z) : Z :=
  let negative := bit_set data 0x40 in
  let scale := if bit_set data 0x80 then 5 else 1 in
  let climb := to_qint8 (if negative then Z.lor data 0x80 else Z.land data 0x7F) in
  climb * scale.

Definition climb (p : t) : option Z :=
  match m_type p with
  | PTTracking => data <- at_checked (m_data p) 9 ;; ret (climb_of data)
  | PTThermal => data <- at_checked (m_data p) 8 ;; ret (climb_of data)
  | _ => ret (-1)
  end.

Definition quality (p : t) : option Z :=
  match m_type p with
  | PTThermal =>
      b <- at_checked (m_data p) 7 ;;
      ret (100 * Z.shiftr (Z.land b 0x70) 4 / 7)
  | _ => ret (-1)
  end.

Definition uptime (p : t) : option Z :=
  match m_type p with
  | PTHWInfo =>
      b0 <- at_checked (m_data p) 0 ;;
      if bit_set b0 0x10 then
        let index := (if bit_set b0 0x01 then 2 else 1)
                     + (if bit_set b0 0x40 then 3 else 0) in
        lo <- at_checked (m_data p) index ;;
        hi <- at_checked (m_data p) (index + 1) ;;
        ret (Z.lor lo (Z.shiftl hi 8))
      else ret (-1)
  | PTHWInfoOld =>
      if 5 <=? dsize (m_data p) then
        b4 <- at_checked (m_data p) 4 ;;
        b3 <- at_checked (m_data p) 3 ;;
        let t := Z.lor (Z.shiftl (Z.land b4 0xF0) 4) b3 in
        ret (Z.shiftr t 2)
      else ret (-1)
  | _ => ret (-1)
  end.

(** The device id [deviceType] looks up in [deviceFromId]. *)
Definition deviceType_id (p : t) : option Z :=
  match m_type p with
  | PTHWInfo =>
      b0 <- at_checked (m_data p) 0 ;;
      if bit_set b0 0x40
      then at_checked (m_data p) (if bit_set b0 0x01 then 2 else 1)
      else ret 0
  | PTHWInfoOld => at_checked (m_data p) 0
  | _ => ret 0
  end.

Definition firmwareBuild (p : t) : option QByteArray :=
  index <- match m_type p with
           | PTHWInfo =>
               b0 <- at_checked (m_data p) 0 ;;
               if bit_set b0 0x40
               then ret (if bit_set b0 0x01 then 3 else 2)
               else ret 0
           | PTHWInfoOld => ret 1
           | _ => ret 0
           end ;;
  if negb (index =? 0) then
    lo <- at_checked (m_data p) index ;;
    hi <- at_checked (m_data p) (index + 1) ;;
    let data := Z.lor lo (Z.shiftl hi 8) mod 65536 in
    let experimental := bit_set data 0x8000 in
    let day := Z.land data 0x001F in
    let mon := Z.shiftr (Z.land data 0x01E0) 5 in
    let year := Z.shiftr (Z.land data 0x7E00) 9 + 2019 in
    ret (number year 10 ++ lit "-" ++ number mon 10 ++ lit "-" ++ number day 10
         ++ (if experimental then lit " (experimental)" else []))
  else ret [].

(** The getters by name: whether the call stays inside the buffer. *)
Inductive Getter :=
| GPosition | GAircraftType | GGroundTrackingType | GOnlineTracking
| GTemperature | GDir | GWind | GGusts | GAltitude | GHeading | GSpeed
| GClimb | GQuality | GUptime | GDeviceType | GFirmwareBuild.

Definition isSome {A} (o : option A) : bool :=
  match o with Some _ => true | None => false end.

Definition in_bounds (g : Getter) (p : t) : bool :=
  match g with
  | GPosition => isSome (position p)
  | GAircraftType => isSome (aircraftType p)
  | GGroundTrackingType => isSome (groundTrackingType p)
  | GOnlineTracking => isSome (onlineTracking p)
  | GTemperature => isSome (temperature p)
  | GDir => isSome (dir p)
  | GWind => isSome (wind p)
  | GGusts => isSome (gusts p)
  | GAltitude => isSome (altitude p)
  | GHeading => isSome (heading p)
  | GSpeed => isSome (speed p)
  | GClimb => isSome (climb p)
  | GQuality => isSome (quality p)
  | GUptime => isSome (uptime p)
  | GDeviceType => isSome (deviceType_id p)
  | GFirmwareBuild => isSome (firmwareBuild p)
  end.

(** A byte buffer: every element is a byte. *)
Definition bytes (d : list Z) : Prop := Forall (fun b => 0 <= b < 256) d.

End PayloadFields.

(** ** Texts made of fields with a separator between them *)

Module Fields.

Import Qt.

(** The fields with the separator between them. *)
Fixpoint join (sep : ascii) (fields : list QByteArray) : QByteArray :=
  match fields with
  | [] => []
  | [f] => f
  | f :: rest => f ++ sep :: join sep rest
  end.

(** A text without the character [sep]. *)
Definition free_of (sep : ascii) (s : QByteArray) : Prop :=
  Forall (fun c => Ascii.eqb c sep = false) s.

(** The text of a field of a received frame: not empty, no comma. *)
Definition field (s : QByteArray) : Prop :=
  s <> [] /\ free_of Tags.FANET_DATA_SEP s.

(** The body of the FNF frame of an event: what follows the tag. *)
Definition event_body (e : ReceiveEvent.t) : QByteArray :=
  mid (ReceiveEvent.serialize e) FanetProtocolParser.MSG_SIZE_IDENTIFIER.

(** The decimal digit of [k]: what the number parsers need of it, no
    blank, no separator, no sign. *)
Definition decimal (c : ascii) (k : Z) : Prop :=
  digit_val c = Some k /\ Scenario.plain c /\ ascii_isspace c = false /\
  (code c =? 45) = false /\ (code c =? 43) = false.

(** The first token of an error reply and of a message reply. *)
Definition reply_tag (err : bool) : QByteArray :=
  if err then GenericReply.FANET_REPLY_ERR else GenericReply.FANET_REPLY_MSG.

End Fields.

(** ** The radio as its callers and the event loop drive it *)

Module RadioRuns.

Import Qt FanetRadio.

(** The public functions and slots, and the two events of the event
    loop. *)
Inductive Entry :=
| Init
| Deinit
| SendData (addr : FanetAddress.t) (data : FanetPayload.t)
| InjectMessage (data : QByteArray)
| TimerExpires
| Receive (bytes : QByteArray).

Definition enter (e : Entry) : radio unit :=
  match e with
  | Init => init
  | Deinit => deinit
  | SendData addr data => _ <- sendData addr data ;; ret tt
  | InjectMessage data => injectMessage data
  | TimerExpires => timerExpires
  | Receive bytes => receive bytes
  end.

Fixpoint run (entries : list Entry) : radio unit :=
  match entries with
  | [] => ret tt
  | e :: rest => enter e ;; run rest
  end.

(** The state the last [radioStateChanged] of a trace announced, [s]
    when it has none. *)
Fixpoint announced (sigs : list Signal) (s : RadioState) : RadioState :=
  match sigs with
  | [] => s
  | radioStateChanged s' :: rest => announced rest s'
  | messageReceived _ _ _ :: rest => announced rest s
  end.

(** An observer of the signals knows the state. *)
Definition tracked (r : t) : Prop :=
  announced (signals r) RadioDisabled = m_state r.

Definition delimiter (c : ascii) : bool :=
  (code c =? FanetProtocolParser.StartDelimiter)
  || (code c =? FanetProtocolParser.EndDelimiter).

(** A buffer that is one frame: the start delimiter, a body without
    delimiters, the end delimiter. *)
Definition one_frame (buf : QByteArray) : Prop :=
  exists body,
    buf = chr FanetProtocolParser.StartDelimiter :: body
          ++ [chr FanetProtocolParser.EndDelimiter] /\
    Forall (fun c => delimiter c = false) body.

Definition frames_only (r : t) : Prop := Forall one_frame (uart_tx r).

(** What the entries keep: the signals track the state, and whatever
    was handed to the port was whole frames. *)
Definition inv (r : t) : Prop := tracked r /\ frames_only r.

Definition preserves {A : Type} (m : radio A) : Prop :=
  forall r, inv r -> inv (execState m r).

(** Leaves the signals, the state and the written buffers alone. *)
Definition silent {A : Type} (m : radio A) : Prop :=
  forall r, signals (execState m r) = signals r /\
            m_state (execState m r) = m_state r /\
            uart_tx (execState m r) = uart_tx r.

End RadioRuns.

(** ** Messages the radio handles while it is Ready *)

Module ReadyTraffic.

Import Qt FanetRadio.

(** Received packets and replies to transmissions: the two kinds of
    message a radio sends on its own or in answer to [sendData]. *)
Definition traffic (msg : AbstractFanetMessage.t) : bool :=
  match AbstractFanetMessage.type msg with
  | FMTPktReceivedEvent | FMTFanetReply => true
  | _ => false
  end.

(** A reply to a transmission that reports an error. *)
Definition error_reply (msg : AbstractFanetMessage.t) : bool :=
  match AbstractFanetMessage.type msg, AbstractFanetMessage.as_GenericReply msg with
  | FMTFanetReply, Some reply =>
      match GenericReply.m_reply reply with
      | GenericReply.ReplyError => true
      | _ => false
      end
  | _, _ => false
  end.

Fixpoint handle_all (msgs : list AbstractFanetMessage.t) : radio unit :=
  match msgs with
  | [] => ret tt
  | msg :: rest => handleMessage msg ;; handle_all rest
  end.

End ReadyTraffic.

(** ** What the dispatcher makes of a station *)

Module Broadcasts.

Import Qt.

(** The Service payload [sendWeatherData] builds for a station. *)
Definition station_payload (station : AbstractWeatherStation.t) : FanetPayload.t :=
  FanetPayload.servicePayload
    (Z.lor FanetPayload.SHWind
       (if negb (Z.land (AbstractWeatherStation.availableData station)
                   AbstractWeatherStation.Temperature =? 0)
        then FanetPayload.SHTemperature else 0))
    (AbstractWeatherStation.position (AbstractWeatherStation.config station))
    (AbstractWeatherStation.temperature station)
    (AbstractWeatherStation.windDirection station)
    (AbstractWeatherStation.windSpeed station)
    (AbstractWeatherStation.windGusts station) 0 0.

(** Not more than [interval] seconds, as [secsTo] counts them, lie
    between the instant [last] and [now]. *)
Definition within (last : AbstractWeatherStation.QDateTime) (now interval : Z) : Prop :=
  exists t, last = Some t /\ now - t < (interval + 1) * 1000.

End Broadcasts.

(** ** gpio/gpio.cpp and [RadioConfig::parsePin] of config/radioconfig.cpp *)

Module Gpio.

Import Qt.

Inductive GpioPin :=
| None_
| PinUartCTS | PinUartRTS | PinUartDTR
| PinRpi03 | PinRpi05 | PinRpi07 | PinRpi08 | PinRpi10 | PinRpi11 | PinRpi12
| PinRpi13 | PinRpi15 | PinRpi16 | PinRpi18 | PinRpi19 | PinRpi21 | PinRpi22
| PinRpi23 | PinRpi24 | PinRpi26 | PinRpi29 | PinRpi31 | PinRpi32 | PinRpi33
| PinRpi35 | PinRpi36 | PinRpi37 | PinRpi38 | PinRpi40.

Definition all_pins : list GpioPin :=
  [None_; PinUartCTS; PinUartRTS; PinUartDTR;
   PinRpi03; PinRpi05; PinRpi07; PinRpi08; PinRpi10; PinRpi11; PinRpi12;
   PinRpi13; PinRpi15; PinRpi16; PinRpi18; PinRpi19; PinRpi21; PinRpi22;
   PinRpi23; PinRpi24; PinRpi26; PinRpi29; PinRpi31; PinRpi32; PinRpi33;
   PinRpi35; PinRpi36; PinRpi37; PinRpi38; PinRpi40].

Definition GpioPin_eq_dec (a b : GpioPin) : {a = b} + {a <> b}.
Proof. decide equality. Defined.

Definition GpioPin_eqb (a b : GpioPin) : bool :=
  if GpioPin_eq_dec a b then true else false.

Definition pinToString (pin : GpioPin) : QByteArray :=
  match pin with
  | PinUartCTS => lit "CTS"
  | PinUartRTS => lit "RTS"
  | PinUartDTR => lit "DTR"
  | PinRpi03 => lit "RpiJ8Pin03"
  | PinRpi05 => lit "RpiJ8Pin05"
  | PinRpi07 => lit "RpiJ8Pin07"
  | PinRpi08 => lit "RpiJ8Pin08"
  | PinRpi10 => lit "RpiJ8Pin10"
  | PinRpi11 => lit "RpiJ8Pin11"
  | PinRpi12 => lit "RpiJ8Pin12"
  | PinRpi13 => lit "RpiJ8Pin13"
  | PinRpi15 => lit "RpiJ8Pin15"
  | PinRpi16 => lit "RpiJ8Pin16"
  | PinRpi18 => lit "RpiJ8Pin18"
  | PinRpi19 => lit "RpiJ8Pin19"
  | PinRpi21 => lit "RpiJ8Pin21"
  | PinRpi22 => lit "RpiJ8Pin22"
  | PinRpi23 => lit "RpiJ8Pin23"
  | PinRpi24 => lit "RpiJ8Pin24"
  | PinRpi26 => lit "RpiJ8Pin26"
  | PinRpi29 => lit "RpiJ8Pin29"
  | PinRpi31 => lit "RpiJ8Pin31"
  | PinRpi32 => lit "RpiJ8Pin32"
  | PinRpi33 => lit "RpiJ8Pin33"
  | PinRpi35 => lit "RpiJ8Pin35"
  | PinRpi36 => lit "RpiJ8Pin36"
  | PinRpi37 => lit "RpiJ8Pin37"
  | PinRpi38 => lit "RpiJ8Pin38"
  | PinRpi40 => lit "RpiJ8Pin40"
  | None_ => lit "invalid pin"
  end.

(** [QChar::toLower] on a Latin-1 character. *)
Definition qchar_toLower (c : ascii) : ascii :=
  let n := code c in
  if ((65 <=? n) && (n <=? 90))
     || ((192 <=? n) && (n <=? 222) && negb (n =? 215))
  then chr (n + 32) else c.

Definition toLower (s : QByteArray) : QByteArray := map qchar_toLower s.

(** The [switch] of [stringToPin] over the pin number. *)
Definition pin_of_number (num : Z) : GpioPin :=
  if num =? 3 then PinRpi03 else if num =? 5 then PinRpi05
  else if num =? 7 then PinRpi07 else if num =? 8 then PinRpi08
  else if num =? 10 then PinRpi10 else if num =? 11 then PinRpi11
  else if num =? 12 then PinRpi12 else if num =? 13 then PinRpi13
  else if num =? 15 then PinRpi15 else if num =? 16 then PinRpi16
  else if num =? 18 then PinRpi18 else if num =? 19 then PinRpi19
  else if num =? 21 then PinRpi21 else if num =? 22 then PinRpi22
  else if num =? 23 then PinRpi23 else if num =? 24 then PinRpi24
  else if num =? 26 then PinRpi26 else if num =? 29 then PinRpi29
  else if num =? 31 then PinRpi31 else if num =? 32 then PinRpi32
  else if num =? 33 then PinRpi33 else if num =? 35 then PinRpi35
  else if num =? 36 then PinRpi36 else if num =? 37 then PinRpi37
  else if num =? 38 then PinRpi38 else if num =? 40 then PinRpi40
  else None_.

Definition stringToPin (pin : QByteArray) : GpioPin :=
  let rpiPinPrefix := lit "rpij8pin" in
  let lpin := qstring_trimmed (toLower pin) in
  if startsWith lpin rpiPinPrefix then
    let '(num, convOk) := toInt 10 (mid lpin (size rpiPinPrefix)) in
    if convOk then pin_of_number num else None_
  else if eqb lpin (lit "cts") then PinUartCTS
  else if eqb lpin (lit "rts") then PinUartRTS
  else if eqb lpin (lit "dtr") then PinUartDTR
  else None_.

(** [QString::remove(QChar)]. *)
Definition remove (c : ascii) (s : QByteArray) : QByteArray :=
  filter (fun x => negb (Ascii.eqb x c)) s.

(** [RadioConfig::parsePin]: the result, the pin and whether it is
    inverted. *)
Definition parsePin (str : QByteArray) : bool * GpioPin * bool :=
  let inverted := startsWith str ["!"%char] in
  let pin := stringToPin (remove "!"%char str) in
  (negb (GpioPin_eqb pin None_), pin, inverted).

(** The text a configuration gives for a pin. *)
Definition pin_text (pin : GpioPin) (inverted : bool) : QByteArray :=
  (if inverted then ["!"%char] else []) ++ pinToString pin.

Definition roundtrips (pin : GpioPin) : bool :=
  GpioPin_eqb (stringToPin (pinToString pin)) pin
  && GpioPin_eqb (stringToPin (toLower (pinToString pin))) pin
  && forallb (fun inverted =>
                match parsePin (pin_text pin inverted) with
                | (ok, pin', inverted') =>
                    Bool.eqb ok (negb (GpioPin_eqb pin None_))
                    && GpioPin_eqb pin' pin && Bool.eqb inverted' inverted
                end) [false; true].

End Gpio.

(** * Properties *)

(** ** The state monad *)

Section StateMonad.

Context {S : Type}.

Lemma run_bind {A B} (m : state S A) (k : A -> state S B) (s : S) :
  runState (bind m k) s = runState (k (evalState m s)) (execState m s).
Proof. unfold execState, evalState. cbn. destruct (runState m s). reflexivity. Qed.

Lemma exec_bind {A B} (m : state S A) (k : A -> state S B) (s : S) :
  execState (bind m k) s = execState (k (evalState m s)) (execState m s).
Proof. unfold execState at 1. rewrite run_bind. reflexivity. Qed.

Lemma eval_bind {A B} (m : state S A) (k : A -> state S B) (s : S) :
  evalState (bind m k) s = evalState (k (evalState m s)) (execState m s).
Proof. unfold evalState at 1. rewrite run_bind. reflexivity. Qed.

End StateMonad.

(** ** Arithmetic of the codec *)

Section Rounding.

Import Qt.

(** [qRound] of a non-negative quotient of integers, in integer terms. *)
Lemma qRound_quotient (n d : Z) :
  0 <= n -> 0 < d -> qRound (inject_Z n / inject_Z d) = (2 * n + d) / (2 * d).
Proof.
  intros Hn Hd. unfold qRound.
  destruct d as [|p|p]; try lia.
  assert (Hq : (inject_Z n / inject_Z (Z.pos p) == n # p)%Q).
  { unfold Qdiv, Qinv, inject_Z, Qmult, Qeq. cbn -[Z.mul Z.add]. lia. }
  assert (Hpos : Qle_bool 0 (inject_Z n / inject_Z (Z.pos p)) = true).
  { apply Qle_bool_iff. rewrite Hq. unfold Qle. cbn -[Z.mul Z.add]. lia. }
  rewrite Hpos.
  assert (Hs : (inject_Z n / inject_Z (Z.pos p) + (1 # 2) ==
                (2 * n + Z.pos p) # (2 * p))%Q).
  { rewrite Hq. unfold Qplus, Qeq. cbn -[Z.mul Z.add]. lia. }
  rewrite Hs. unfold Qfloor. reflexivity.
Qed.

Lemma qRound_tenth (v : Z) : 0 <= v -> qRound (inject_Z v / 10) = (v + 5) / 10.
Proof.
  intros Hv. change 10%Q with (inject_Z 10).
  rewrite qRound_quotient by lia.
  replace (2 * v + 10) with ((v + 5) * 2) by lia.
  replace (2 * 10) with (10 * 2) by lia.
  apply Z.div_mul_cancel_r; lia.
Qed.

(** A value below 128 has bit 7 clear and passes the 7-bit mask. *)
Lemma land_7bit (x : Z) : 0 <= x < 128 -> Z.land 0x7F x = x /\ Z.land x 0x80 = 0.
Proof.
  intros Hx.
  assert (H7 : Z.land x 0x7F = x).
  { change 0x7F with (Z.ones 7). rewrite Z.land_ones by lia.
    apply Z.mod_small. simpl. lia. }
  split.
  - rewrite Z.land_comm. exact H7.
  - rewrite <- H7, <- Z.land_assoc. change (Z.land 0x7F 0x80) with 0.
    apply Z.land_0_r.
Qed.

Lemma lor_bit7 (y : Z) : Z.land (Z.lor 0x80 y) 0x80 <> 0.
Proof.
  rewrite Z.land_lor_distr_l. change (Z.land 0x80 0x80) with 0x80.
  intros H. apply Z.lor_eq_0_iff in H. destruct H as [H _]. discriminate H.
Qed.

Lemma lor_bit7_range (y : Z) : 0 <= y < 256 -> 0 <= Z.lor 0x80 y < 256.
Proof.
  intros Hy. split.
  - apply Z.lor_nonneg. lia.
  - assert (H : Z.lor 0x80 y = Z.lor 0x80 y mod 2 ^ 8).
    { rewrite <- Z.land_ones by lia. rewrite Z.land_lor_distr_l.
      rewrite (Z.land_ones y) by lia. rewrite (Z.mod_small y) by (simpl; lia).
      reflexivity. }
    rewrite H. apply Z.mod_pos_bound. reflexivity.
Qed.

End Rounding.

(** ** The payload codec (fanetpayload.cpp) *)

Section PayloadCodec.

Import Qt FanetPayload.

(** The encoder writes the header and the position block first, whatever
    the header says: the wind triple of a Wind-only payload sits at
    bytes 7, 8 and 9. *)
Lemma servicePayload_wind_only pos temp dir wind gusts humidity pressure :
  exists b1 b2 b3 b4 b5 b6,
    data (servicePayload SHWind pos temp dir wind gusts humidity pressure) =
    [SHWind; b1; b2; b3; b4; b5; b6;
     qRound (inject_Z dir * 256 / 360) mod 256;
     speed_byte wind mod 256;
     speed_byte gusts mod 256].
Proof.
  unfold servicePayload, data. cbn -[qRound speed_byte Z.modulo Z.land Z.shiftr].
  repeat eexists.
Qed.

Lemma speed_byte_small (v : Z) :
  0 <= v <= 254 -> speed_byte v = Z.shiftr v 1 /\ 0 <= speed_byte v < 128.
Proof.
  intros Hv. unfold speed_byte.
  destruct (Z.ltb_spec 254 v); [lia|].
  assert (Hs : 0 <= Z.shiftr v 1 < 128).
  { rewrite Z.shiftr_div_pow2 by lia. change (2 ^ 1) with 2.
    split; [apply Z.div_pos; lia | apply Z.div_lt_upper_bound; lia]. }
  destruct (land_7bit _ Hs) as [H1 _]. rewrite H1. auto.
Qed.

Lemma speed_byte_large (v : Z) :
  254 < v ->
  speed_byte v = Z.lor 0x80 (((v + 5) / 10) mod 256) /\ 128 <= speed_byte v < 256.
Proof.
  intros Hv. unfold speed_byte.
  destruct (Z.ltb_spec 254 v); [|lia].
  rewrite qRound_tenth by lia.
  split; [reflexivity|].
  assert (Hm : 0 <= ((v + 5) / 10) mod 256 < 256) by (apply Z.mod_pos_bound; lia).
  pose proof (lor_bit7_range _ Hm) as Hr.
  split; [|lia].
  destruct (Z.lt_ge_cases (Z.lor 128 (((v + 5) / 10) mod 256)) 128) as [Hlt|]; [|lia].
  exfalso. apply (lor_bit7 (((v + 5) / 10) mod 256)).
  apply land_7bit. lia.
Qed.

(** The scale bit of a wind or gust byte: set iff the input exceeds 254. *)
Lemma speed_byte_scale (v : Z) :
  0 <= v -> (bit_set (speed_byte v mod 256) 0x80 = true <-> 254 < v).
Proof.
  intros Hv. unfold bit_set. split.
  - intros Hb. destruct (Z.lt_ge_cases 254 v) as [|Hle]; [assumption|].
    destruct (speed_byte_small v) as [_ Hr]; [lia|].
    rewrite Z.mod_small in Hb by lia.
    destruct (land_7bit _ Hr) as [_ H0]. rewrite H0 in Hb. discriminate Hb.
  - intros Hgt. destruct (speed_byte_large v Hgt) as [He Hr].
    rewrite Z.mod_small by lia. rewrite He.
    apply negb_true_iff, Z.eqb_neq, lor_bit7.
Qed.


(** C2 (as amended).  For non-negative wind and gust inputs in km/h x 10,
    the Service encoder with only the Wind flag sets the scale bit (x5)
    of the wind byte, byte 8, iff the input exceeds 254, and likewise
    for the gust byte, byte 9.  Under the x1 scale the byte is the input
    shifted right by one (units of 0.2 km/h); under the x5 scale it is
    0x80 or-ed with the input divided by ten, rounded, and cut to eight
    bits. *)
Theorem service_wind_scale_choice pos temp dir wind gusts humidity pressure :
  0 <= wind -> 0 <= gusts ->
  let p := servicePayload SHWind pos temp dir wind gusts humidity pressure in
  (bit_set (at_ (data p) 8) 0x80 = true <-> 254 < wind) /\
  (bit_set (at_ (data p) 9) 0x80 = true <-> 254 < gusts) /\
  at_ (data p) 8 =
    (if 254 <? wind then Z.lor 0x80 (((wind + 5) / 10) mod 256) else Z.shiftr wind 1) /\
  at_ (data p) 9 =
    (if 254 <? gusts then Z.lor 0x80 (((gusts + 5) / 10) mod 256) else Z.shiftr gusts 1).
Proof.
  intros Hw Hg p.
  destruct (servicePayload_wind_only pos temp dir wind gusts humidity pressure)
    as (b1 & b2 & b3 & b4 & b5 & b6 & Hd).
  subst p. rewrite Hd.
  change (at_ ?l 8) with (speed_byte wind mod 256).
  change (at_ ?l 9) with (speed_byte gusts mod 256).
  split; [|split; [|split]].
  - apply speed_byte_scale; assumption.
  - apply speed_byte_scale; assumption.
  - destruct (Z.ltb_spec 254 wind) as [H|H].
    + destruct (speed_byte_large wind H) as [He Hr].
      rewrite Z.mod_small by lia. exact He.
    + destruct (speed_byte_small wind) as [He Hr]; [lia|].
      rewrite Z.mod_small by lia. exact He.
  - destruct (Z.ltb_spec 254 gusts) as [H|H].
    + destruct (speed_byte_large gusts H) as [He Hr].
      rewrite Z.mod_small by lia. exact He.
    + destruct (speed_byte_small gusts) as [He Hr]; [lia|].
      rewrite Z.mod_small by lia. exact He.
Qed.

Lemma service_wind_scale_choice_witness :
  let p := servicePayload SHWind None 0 0 80 300 0 0 in
  (bit_set (at_ (data p) 8) 0x80 = true <-> 254 < 80) /\
  (bit_set (at_ (data p) 9) 0x80 = true <-> 254 < 300) /\
  at_ (data p) 8 = 40 /\
  at_ (data p) 9 = 158.
Proof.
  apply (service_wind_scale_choice None 0 0 80 300 0 0); lia.
Defined.

(** C2, counterexample.  An input of 300 (30.0 km/h) does not exceed
    1270, yet its byte carries the x5 scale bit. *)
Lemma service_wind_scale_not_1270 :
  ~ (bit_set (at_ (data (servicePayload SHWind None 0 0 300 300 0 0)) 8) 0x80 = true
     <-> 1270 < 300).
Proof.
  intros [H _]. assert (Hlt : 1270 < 300) by (apply H; vm_compute; reflexivity). lia.
Qed.


Lemma servicePayload_eta header pos temp dir wind gusts humidity pressure :
  servicePayload header pos temp dir wind gusts humidity pressure =
  mk PTService (data (servicePayload header pos temp dir wind gusts humidity pressure)).
Proof. reflexivity. Qed.

Lemma wind_of_wind_only b1 b2 b3 b4 b5 b6 d w g :
  FanetPayload.wind (mk PTService [SHWind; b1; b2; b3; b4; b5; b6; d; w; g]) =
  scaled_speed w.
Proof. reflexivity. Qed.

Lemma dir_of_wind_only b1 b2 b3 b4 b5 b6 d w g :
  FanetPayload.dir (mk PTService [SHWind; b1; b2; b3; b4; b5; b6; d; w; g]) =
  qRound (inject_Z ((Platform.char_to_int d * 360) mod 256) / 256).
Proof. reflexivity. Qed.

(** X9.  What the decoder makes of the encoder's bytes: it reads the 7-bit
    magnitude in units of 0.5 km/h, the encoder wrote it in units of
    0.2 km/h (x1) and 1 km/h (x5). *)
Lemma service_wind_decoded pos temp dir wind gusts humidity pressure :
  0 <= wind ->
  FanetPayload.wind (servicePayload SHWind pos temp dir wind gusts humidity pressure) =
  if 254 <? wind then 25 * (((wind + 5) / 10) mod 128) else 5 * (wind / 2).
Proof.
  intros Hw.
  destruct (servicePayload_wind_only pos temp dir wind gusts humidity pressure)
    as (b1 & b2 & b3 & b4 & b5 & b6 & Hd).
  rewrite (servicePayload_eta SHWind pos temp dir wind gusts humidity pressure), Hd.
  rewrite wind_of_wind_only. unfold scaled_speed.
  pose proof (speed_byte_scale wind Hw) as Hsc.
  destruct (Z.ltb_spec 254 wind) as [H|H].
  - rewrite (proj2 Hsc H).
    destruct (speed_byte_large wind H) as [He Hr].
    rewrite Z.mod_small by lia. rewrite He.
    rewrite Z.land_lor_distr_l. change (Z.land 0x80 0x7F) with 0.
    rewrite Z.lor_0_l. change 0x7F with (Z.ones 7).
    rewrite Z.land_ones by lia.
    change (2 ^ 7) with 128.
    rewrite Z.mod_mod_divide by (exists 2; reflexivity).
    lia.
  - destruct (bit_set (speed_byte wind mod 256) 0x80) eqn:Hb.
    + apply (proj1 (speed_byte_scale wind Hw)) in Hb. lia.
    + destruct (speed_byte_small wind) as [He Hr]; [lia|].
      rewrite Z.mod_small by lia.
      destruct (land_7bit _ Hr) as [H1 _]. rewrite Z.land_comm, H1, He.
      rewrite Z.shiftr_div_pow2 by lia. change (2 ^ 1) with 2. lia.
Qed.

Lemma service_wind_decoded_witness :
  FanetPayload.wind (servicePayload SHWind None 0 0 300 80 0 0) = 750 /\
  FanetPayload.wind (servicePayload SHWind None 0 0 80 80 0 0) = 200.
Proof.
  split.
  - apply (service_wind_decoded None 0 0 300 80 0 0). lia.
  - apply (service_wind_decoded None 0 0 80 80 0 0). lia.
Defined.

(** 8.0 km/h is encoded as 40 units of 0.2 km/h and read back as 40
    units of 0.5 km/h. *)
Example service_wind_roundtrip_80 :
  FanetPayload.wind (servicePayload SHWind None 0 0 80 150 0 0) = 200 /\
  FanetPayload.gusts (servicePayload SHWind None 0 0 80 150 0 0) = 375.
Proof. split; vm_compute; reflexivity. Qed.

(** *** Wind direction *)

(** The value [dir] rounds is a [quint8] divided by 256: the result is
    0 or 1 whatever the byte. *)
Lemma dir_range (p : t) : dir p = -1 \/ dir p = 0 \/ dir p = 1.
Proof.
  unfold dir. destruct (testFlags (service_header p) SHWind); [|left; reflexivity].
  right.
  set (x := (Platform.char_to_int (at_ (m_data p) (wind_offset (service_header p))) * 360)
            mod 256).
  assert (Hx : 0 <= x < 256) by (apply Z.mod_pos_bound; lia).
  change 256%Q with (inject_Z 256).
  rewrite qRound_quotient by lia.
  destruct (Z.lt_ge_cases x 128).
  - left. apply Z.div_small. lia.
  - right. symmetry. apply (Z.div_unique _ _ 1 (2 * x + 256 - 512)). lia. lia.
Qed.

(** So no direction from 3 degrees on comes back within one degree. *)
Lemma dir_off_by_more_than_one (p : t) (d : Z) :
  3 <= d -> 1 < Z.abs (dir p - d).
Proof.
  intros Hd. destruct (dir_range p) as [H | [H | H]]; rewrite H; lia.
Qed.

(** C3, at the failing input.  A direction of 90 degrees is encoded as
    byte 64; [dir] multiplies the byte by 360 before the cast to
    [quint8], which leaves 0, and returns 0 degrees. *)
Theorem service_dir_90_decodes_to_0 pos temp wind gusts humidity pressure :
  at_ (data (servicePayload SHWind pos temp 90 wind gusts humidity pressure)) 7 = 64 /\
  dir (servicePayload SHWind pos temp 90 wind gusts humidity pressure) = 0.
Proof.
  destruct (servicePayload_wind_only pos temp 90 wind gusts humidity pressure)
    as (b1 & b2 & b3 & b4 & b5 & b6 & Hd).
  rewrite (servicePayload_eta SHWind pos temp 90 wind gusts humidity pressure), Hd.
  split; [reflexivity|]. rewrite dir_of_wind_only. vm_compute. reflexivity.
Qed.

(** The decoding [heading] applies to the same kind of byte, with the
    cast before the multiplication, brings every whole direction back
    to within one degree. *)
Lemma heading_roundtrip (d : Z) :
  0 <= d < 360 -> Z.abs (Scenario.heading_of_dir d - d) <= 1.
Proof.
  intros Hd.
  assert (Hall : forallb (fun n => Z.abs (Scenario.heading_of_dir (Z.of_nat n) - Z.of_nat n) <=? 1)
                   (seq 0 360) = true) by (vm_compute; reflexivity).
  rewrite forallb_forall in Hall.
  specialize (Hall (Z.to_nat d)).
  rewrite Z2Nat.id in Hall by lia.
  apply Z.leb_le, Hall, in_seq. lia.
Qed.

(** *** Position block *)

(** C4 (as amended).  [servicePayload] writes the header byte and then
    always the six position bytes, whatever the header flags; the bytes
    are zero when the position is invalid.  No extended-header byte is
    written: after the position come only the sections of the
    Temperature, Wind, Humidity and Pressure flags. *)
Theorem servicePayload_position_always header pos temp dir wind gusts humidity pressure :
  exists b1 b2 b3 b4 b5 b6 rest,
    data (servicePayload header pos temp dir wind gusts humidity pressure) =
      header mod 256 :: b1 :: b2 :: b3 :: b4 :: b5 :: b6 :: rest /\
    (coord_isValid pos = false -> [b1; b2; b3; b4; b5; b6] = [0; 0; 0; 0; 0; 0]) /\
    dsize rest = (if testFlag header SHTemperature then 1 else 0)
                 + (if testFlag header SHWind then 3 else 0)
                 + (if testFlag header SHHumidity then 1 else 0)
                 + (if testFlag header SHPressure then 2 else 0).
Proof.
  unfold servicePayload, data.
  destruct (coord_isValid pos);
    destruct (testFlag header SHTemperature), (testFlag header SHWind),
      (testFlag header SHHumidity), (testFlag header SHPressure);
    cbn -[qRound speed_byte Z.modulo Z.land Z.shiftr Z.mul Z.sub];
    do 7 eexists; (split; [reflexivity | split; [intros Hv; try discriminate Hv; reflexivity | reflexivity]]).
Qed.

(** C4, counterexample.  With only the InternetGateway bit set the
    payload is not the header byte alone: seven bytes are written. *)
Lemma servicePayload_gateway_only_has_position :
  data (servicePayload SHInternetGateway None 0 0 0 0 0 0) <> [0x80] /\
  data (servicePayload SHInternetGateway None 0 0 0 0 0 0) = [0x80; 0; 0; 0; 0; 0; 0].
Proof. split; [discriminate | reflexivity]. Qed.

(** *** Size checks of [fromReceivedData] *)

Lemma fromReceivedData_thermal (d : list Z) :
  fst (fromReceivedData (Some PTThermal) d) = mk PTThermal d.
Proof. reflexivity. Qed.

(** The Tracking branch, next to it in the source, does reject. *)
Lemma fromReceivedData_tracking_short (d : list Z) :
  dsize d < 11 -> fst (fromReceivedData (Some PTTracking) d) = mk PTInvalid d.
Proof.
  intros H. unfold fromReceivedData, PAYLOAD_SIZE_TRACKING_MIN.
  destruct (Z.ltb_spec (dsize d) 11); [reflexivity | lia].
Qed.

(** C5, at the failing input.  An empty buffer decoded as Thermal gives
    a payload of type Thermal that passes [isValid]; only the warning
    is issued. *)
Theorem thermal_short_payload_accepted :
  fromReceivedData (Some PTThermal) [] = (mk PTThermal [], Some WarnThermalSize) /\
  isValid (fst (fromReceivedData (Some PTThermal) [])) = true.
Proof. split; reflexivity. Qed.

(** The third scenario of the specification, byte for byte. *)
Example service_encode_scenario :
  data (servicePayload (Z.lor SHWind SHTemperature) (Some (47.5, 10.25)%Q)
          215 90 80 150 0 0)
  = [0x60; 0x15; 0x8E; 0x43; 0xF1; 0x49; 0x07; 0x2B; 0x40; 0x28; 0x4B] /\
  qRound (47.5 * 93206) = 4427285 /\
  qRound (10.25 * 46603) = 477681.
Proof. repeat split. Qed.

Lemma temperature_of_temperature_only b1 b2 b3 b4 b5 b6 tb :
  temperature (mk PTService [SHTemperature; b1; b2; b3; b4; b5; b6; tb]) = to_qint8 tb * 5.
Proof. reflexivity. Qed.

(** X8.  Temperatures that fit the signed byte come back in steps of 0.5
    degrees, at most 0.2 degrees off. *)
Lemma service_temperature_roundtrip pos temp dir wind gusts humidity pressure :
  -642 <= temp <= 637 ->
  let out := temperature
               (servicePayload SHTemperature pos temp dir wind gusts humidity pressure) in
  Z.abs (out - temp) <= 2 /\ out mod 5 = 0.
Proof.
  intros Ht out.
  assert (Hout : out = to_qint8 (qRound (inject_Z temp / 5) mod 256) * 5).
  { subst out. rewrite servicePayload_eta.
    unfold servicePayload, data. cbn -[qRound Z.modulo Z.land Z.shiftr to_qint8 temperature].
    apply temperature_of_temperature_only. }
  assert (Hall : forallb (fun n =>
                    let t := Z.of_nat n - 642 in
                    let o := to_qint8 (qRound (inject_Z t / 5) mod 256) * 5 in
                    (Z.abs (o - t) <=? 2) && (o mod 5 =? 0))
                   (seq 0 1280) = true) by (vm_compute; reflexivity).
  rewrite forallb_forall in Hall.
  specialize (Hall (Z.to_nat (temp + 642))).
  cbv zeta in Hall.
  replace (Z.of_nat (Z.to_nat (temp + 642)) - 642) with temp in Hall by lia.
  rewrite <- Hout in Hall.
  assert (Hin : In (Z.to_nat (temp + 642)) (seq 0 1280)) by (apply in_seq; lia).
  apply Hall in Hin. apply andb_true_iff in Hin. destruct Hin as [H1 H2].
  split; [apply Z.leb_le, H1 | apply Z.eqb_eq, H2].
Qed.

Lemma service_temperature_roundtrip_witness :
  Z.abs (temperature (servicePayload SHTemperature None 213 0 0 0 0 0) - 213) <= 2 /\
  temperature (servicePayload SHTemperature None 213 0 0 0 0 0) mod 5 = 0.
Proof.
  apply (service_temperature_roundtrip None 213 0 0 0 0 0). lia.
Defined.

End PayloadCodec.

(** ** The radio state machine (fanetradio.cpp) *)

Section Radio.

Import Qt FanetRadio.

#[local] Arguments RadioState_eqb : simpl never.

Lemma RadioState_eqb_eq (a b : RadioState) : RadioState_eqb a b = true <-> a = b.
Proof.
  split.
  - destruct a, b; intros H; try reflexivity; discriminate H.
  - intros ->. destruct b; reflexivity.
Qed.

Lemma RadioState_eqb_neq (a b : RadioState) : RadioState_eqb a b = false <-> a <> b.
Proof.
  rewrite <- RadioState_eqb_eq. destruct (RadioState_eqb a b); split; congruence.
Qed.

(** C6.  [sendData] with an invalid address, or in a state other than
    Ready, returns false, hands nothing to the serial port and leaves
    the radio state alone; it emits no signal, does not touch the pins
    or the timer, and only adds a warning to the log. *)
Theorem sendData_rejected (addr : FanetAddress.t) (data : FanetPayload.t) (r : t) :
  FanetAddress.isValid addr = false \/ m_state r <> RadioReady ->
  evalState (sendData addr data) r = false /\
  uart_tx (execState (sendData addr data) r) = uart_tx r /\
  m_state (execState (sendData addr data) r) = m_state r /\
  signals (execState (sendData addr data) r) = signals r /\
  gpio_calls (execState (sendData addr data) r) = gpio_calls r /\
  m_timer (execState (sendData addr data) r) = m_timer r /\
  uart_isOpen (execState (sendData addr data) r) = uart_isOpen r.
Proof.
  intros H. unfold sendData, evalState, execState.
  destruct (FanetAddress.isValid addr) eqn:Ha; cbn.
  - destruct H as [H|H]; [discriminate H|].
    apply RadioState_eqb_neq in H. rewrite H. cbn. repeat split.
  - repeat split.
Qed.

Lemma sendData_rejected_witness :
  evalState (sendData FanetAddress.default FanetPayload.ackPayload) Scenario.radio0 = false /\
  uart_tx (execState (sendData FanetAddress.default FanetPayload.ackPayload) Scenario.radio0) = [] /\
  m_state (execState (sendData FanetAddress.default FanetPayload.ackPayload) Scenario.radio0)
    = RadioDisabled.
Proof.
  destruct (sendData_rejected FanetAddress.default FanetPayload.ackPayload Scenario.radio0)
    as (H1 & H2 & H3 & _).
  - right. discriminate.
  - exact (conj H1 (conj H2 H3)).
Defined.

(** C10.  [handleRegionReply] with a reply of sub-kind Ok, in a state
    other than Initializing, leaves the radio state as it is, writes
    nothing to the serial port (no Enable command) and emits no signal.
    With a message that is no GenericReply, or a reply that is not Ok,
    the radio state is Error afterwards, whatever it was before. *)
Theorem handleRegionReply_outside_init (msg : AbstractFanetMessage.t) (r : t) :
  (forall reply,
      AbstractFanetMessage.as_GenericReply msg = Some reply ->
      GenericReply.m_reply reply = GenericReply.ReplyOk ->
      m_state r <> RadioInitializing ->
      m_state (execState (handleRegionReply msg) r) = m_state r /\
      uart_tx (execState (handleRegionReply msg) r) = uart_tx r /\
      signals (execState (handleRegionReply msg) r) = signals r) /\
  ((AbstractFanetMessage.as_GenericReply msg = None \/
    exists reply, AbstractFanetMessage.as_GenericReply msg = Some reply /\
                  GenericReply.m_reply reply <> GenericReply.ReplyOk) ->
   m_state (execState (handleRegionReply msg) r) = RadioError).
Proof.
  assert (Hfail : forall r0 : t,
             m_state (execState (m_log Error "Failed to set radio region/enabled: %1 - %2" ;;
                                 setState RadioError) r0) = RadioError).
  { intros [cfg st gp gc op er rx tx tm bf sg lg]. unfold setState, execState. cbn.
    destruct (RadioState_eqb RadioError st) eqn:He; cbn.
    - apply RadioState_eqb_eq in He. symmetry. exact He.
    - destruct gp; reflexivity. }
  split.
  - intros reply Hc Hok Hst.
    unfold handleRegionReply, execState. cbn. rewrite Hc, Hok. cbn.
    apply RadioState_eqb_neq in Hst. rewrite Hst. cbn. repeat split.
  - intros H. unfold handleRegionReply.
    destruct H as [Hn | (reply & Hc & Hne)].
    + unfold execState. cbn. rewrite Hn. apply Hfail.
    + unfold execState. cbn. rewrite Hc.
      destruct (GenericReply.m_reply reply) eqn:Hr; try congruence; apply Hfail.
Qed.

Lemma handleRegionReply_outside_init_witness :
  m_state (execState (handleRegionReply Scenario.region_ok) Scenario.radio0) = RadioDisabled /\
  uart_tx (execState (handleRegionReply Scenario.region_ok) Scenario.radio0) = [] /\
  m_state (execState (handleRegionReply Scenario.region_err) Scenario.radio0) = RadioError.
Proof.
  destruct (handleRegionReply_outside_init Scenario.region_ok Scenario.radio0) as [H1 _].
  destruct (handleRegionReply_outside_init Scenario.region_err Scenario.radio0) as [_ H2].
  destruct (H1 (GenericReply.make FMTRegionReply (lit " OK")) eq_refl eq_refl) as (Ha & Hb & _).
  - discriminate.
  - refine (conj Ha (conj Hb (H2 _))).
    right. exists (GenericReply.make FMTRegionReply (lit " ERR,12,fail")).
    split; [reflexivity | discriminate].
Defined.


(** X17.  The other side of the guards: in Ready, with a valid address and
    a port that takes the bytes, [sendData] writes the one FNT frame
    and returns true. *)
Lemma sendData_ready (addr : FanetAddress.t) (data : FanetPayload.t) (r : t) :
  FanetAddress.isValid addr = true ->
  m_state r = RadioReady ->
  uart_isOpen r = true ->
  uart_error r = NoError ->
  evalState (sendData addr data) r = true /\
  uart_tx (execState (sendData addr data) r)
    = uart_tx r ++ [["#"%char]
                    ++ TransmitCommand.serialize (TransmitCommand.mk addr data)
                    ++ [LF]] /\
  m_state (execState (sendData addr data) r) = RadioReady.
Proof.
  destruct r as [cfg st gp gc op er rx tx tm bf sg lg]. cbn.
  intros Ha -> -> ->. unfold sendData, evalState, execState. rewrite Ha.
  destruct gp; cbn -[Z.eqb size RadioState_eqb];
    change (RadioState_eqb RadioReady RadioReady) with true;
    cbn -[Z.eqb size]; rewrite Z.eqb_refl; cbn; repeat split.
Qed.

Lemma sendData_ready_witness :
  let r := execState (Scenario.bringup Scenario.bringup_frames) Scenario.radio0 in
  let addr := FanetAddress.mk 0x11 0x45AA in
  evalState (sendData addr FanetPayload.ackPayload) r = true /\
  uart_tx (execState (sendData addr FanetPayload.ackPayload) r)
    = uart_tx r ++ [["#"%char]
                    ++ TransmitCommand.serialize
                         (TransmitCommand.mk addr FanetPayload.ackPayload)
                    ++ [LF]] /\
  m_state (execState (sendData addr FanetPayload.ackPayload) r) = RadioReady.
Proof.
  apply (sendData_ready (FanetAddress.mk 0x11 0x45AA) FanetPayload.ackPayload
           (execState (Scenario.bringup Scenario.bringup_frames) Scenario.radio0));
    reflexivity.
Defined.

(** X18.  A write the port does not take: the timer is stopped and the radio
    goes to Error. *)
Lemma sendData_write_fails (addr : FanetAddress.t) (data : FanetPayload.t) (r : t) :
  FanetAddress.isValid addr = true ->
  m_state r = RadioReady ->
  uart_error r <> NoError ->
  evalState (sendData addr data) r = false /\
  uart_tx (execState (sendData addr data) r) = uart_tx r /\
  m_timer (execState (sendData addr data) r) = None /\
  m_state (execState (sendData addr data) r) = RadioError /\
  signals (execState (sendData addr data) r) = signals r ++ [radioStateChanged RadioError].
Proof.
  destruct r as [cfg st gp gc op er rx tx tm bf sg lg]. cbn.
  intros Ha -> He. unfold sendData, evalState, execState. rewrite Ha. cbn.
  destruct gp, op, er; try congruence; cbn; repeat split.
Qed.

Lemma sendData_write_fails_witness :
  let r := mk Scenario.config_868_14 RadioReady true [] true OtherError [] []
              (Some FANET_COM_TIMEOUT_MSEC) [] [] [] in
  let addr := FanetAddress.mk 0x11 0x45AA in
  evalState (sendData addr FanetPayload.ackPayload) r = false /\
  uart_tx (execState (sendData addr FanetPayload.ackPayload) r) = [] /\
  m_timer (execState (sendData addr FanetPayload.ackPayload) r) = None /\
  m_state (execState (sendData addr FanetPayload.ackPayload) r) = RadioError /\
  signals (execState (sendData addr FanetPayload.ackPayload) r)
  = [radioStateChanged RadioError].
Proof.
  apply (sendData_write_fails (FanetAddress.mk 0x11 0x45AA) FanetPayload.ackPayload
           (mk Scenario.config_868_14 RadioReady true [] true OtherError [] []
               (Some FANET_COM_TIMEOUT_MSEC) [] [] [])).
  - reflexivity.
  - reflexivity.
  - discriminate.
Defined.

(** X19.  The transition of step 5 of the bring-up: Ok in Initializing sends
    Enable, arms the 3 s timer and goes to Ready. *)
Lemma handleRegionReply_initializing (msg : AbstractFanetMessage.t)
    (reply : GenericReply.t) (r : t) :
  AbstractFanetMessage.as_GenericReply msg = Some reply ->
  GenericReply.m_reply reply = GenericReply.ReplyOk ->
  m_state r = RadioInitializing ->
  uart_isOpen r = true ->
  uart_error r = NoError ->
  uart_tx (execState (handleRegionReply msg) r) = uart_tx r ++ [Scenario.frame "DGP 1"] /\
  m_timer (execState (handleRegionReply msg) r) = Some FANET_COM_TIMEOUT_MSEC /\
  m_state (execState (handleRegionReply msg) r) = RadioReady /\
  signals (execState (handleRegionReply msg) r) = signals r ++ [radioStateChanged RadioReady].
Proof.
  destruct r as [cfg st gp gc op er rx tx tm bf sg lg]. cbn.
  intros Hc Hok -> -> ->. unfold handleRegionReply, execState. cbn.
  rewrite Hc, Hok. cbn. destruct gp; cbn; repeat split.
Qed.

Lemma handleRegionReply_initializing_witness :
  let r := mk Scenario.config_868_14 RadioInitializing true [] true NoError [] []
              (Some FANET_INIT_TIMEOUT_MSEC) [] [] [] in
  uart_tx (execState (handleRegionReply Scenario.region_ok) r) = [Scenario.frame "DGP 1"] /\
  m_timer (execState (handleRegionReply Scenario.region_ok) r) = Some FANET_COM_TIMEOUT_MSEC /\
  m_state (execState (handleRegionReply Scenario.region_ok) r) = RadioReady /\
  signals (execState (handleRegionReply Scenario.region_ok) r) = [radioStateChanged RadioReady].
Proof.
  apply (handleRegionReply_initializing Scenario.region_ok
           (GenericReply.make FMTRegionReply (lit " OK"))
           (mk Scenario.config_868_14 RadioInitializing true [] true NoError [] []
               (Some FANET_INIT_TIMEOUT_MSEC) [] [] []));
    reflexivity.
Defined.

(** The second scenario of the specification: another firmware id ends
    in WrongFw, and neither DGL nor DGP is written. *)
Example wrong_firmware (gpio : bool) :
  let r := execState
             (Scenario.bringup
                [Scenario.frame "CCCCC"; Scenario.frame "FNR MSG,1,initialized";
                 Scenario.frame "DGV build-202001010000"; Scenario.frame "DGR OK";
                 Scenario.frame "FNR OK"])
             (FanetRadio Scenario.config_868_14 gpio) in
  m_state r = RadioWrongFw /\
  uart_tx r = [Scenario.frame "DGV"] /\
  signals r = [radioStateChanged RadioResetting; radioStateChanged RadioInitializing;
               radioStateChanged RadioWrongFw].
Proof. destruct gpio; vm_compute; repeat split. Qed.

(** *** Framing: what the handlers leave untouched *)

Definition keeps {X A : Type} (f : t -> X) (m : radio A) : Prop :=
  forall r, f (execState m r) = f r.

Lemma keeps_bind {X A B} (f : t -> X) (m : radio A) (k : A -> radio B) :
  keeps f m -> (forall a, keeps f (k a)) -> keeps f (bind m k).
Proof. intros Hm Hk r. rewrite exec_bind, Hk, Hm. reflexivity. Qed.

Lemma keeps_ret {X A} (f : t -> X) (a : A) : keeps f (ret a).
Proof. intros r. reflexivity. Qed.

Lemma keeps_get {X} (f : t -> X) : keeps f get.
Proof. intros r. reflexivity. Qed.

Lemma keeps_rx_m_log l s : keeps uart_rx (m_log l s).
Proof. intros r. reflexivity. Qed.

Lemma keeps_rx_gpio c : keeps uart_rx (gpio c).
Proof. intros r. unfold gpio, execState. cbn. destruct (m_gpio r); reflexivity. Qed.

Lemma keeps_rx_emit s : keeps uart_rx (emit s).
Proof. intros r. reflexivity. Qed.

Lemma keeps_rx_timer_start ms : keeps uart_rx (timer_start ms).
Proof. intros r. reflexivity. Qed.

Lemma keeps_rx_timer_stop : keeps uart_rx timer_stop.
Proof. intros r. reflexivity. Qed.

Lemma keeps_rx_uart_write buf : keeps uart_rx (uart_write buf).
Proof.
  intros r. unfold uart_write, execState. cbn.
  destruct (uart_isOpen r); [destruct (uart_error r)|]; reflexivity.
Qed.

Lemma keeps_rx_set_state s : keeps uart_rx (modify (set_m_state s)).
Proof. intros r. reflexivity. Qed.

Ltac keeps_prim :=
  lazymatch goal with
  | |- keeps _ (bind _ _) => apply keeps_bind; [| intros ?]
  | |- keeps _ (ret _) => apply keeps_ret
  | |- keeps _ get => apply keeps_get
  | |- keeps _ (m_log _ _) => apply keeps_rx_m_log
  | |- keeps _ (gpio _) => apply keeps_rx_gpio
  | |- keeps _ (emit _) => apply keeps_rx_emit
  | |- keeps _ (timer_start _) => apply keeps_rx_timer_start
  | |- keeps _ timer_stop => apply keeps_rx_timer_stop
  | |- keeps _ (uart_write _) => apply keeps_rx_uart_write
  | |- keeps _ (modify (set_m_state _)) => apply keeps_rx_set_state
  | |- keeps _ (if ?b then _ else _) => destruct b
  | |- keeps _ (match ?x with _ => _ end) => destruct x
  end.

Lemma keeps_rx_setState s : keeps uart_rx (setState s).
Proof. unfold setState. cbv zeta. repeat keeps_prim. Qed.

Lemma keeps_rx_sendMessage msg : keeps uart_rx (sendMessage msg).
Proof.
  unfold sendMessage. cbv zeta.
  repeat first [apply keeps_rx_setState | keeps_prim].
Qed.

Ltac keeps_rx :=
  cbv zeta;
  repeat first [apply keeps_rx_setState | apply keeps_rx_sendMessage | keeps_prim].

Lemma keeps_rx_handleMessage msg : keeps uart_rx (handleMessage msg).
Proof.
  unfold handleMessage, handleFanetPktRecv, onRadioInitialized, handleFanetReply,
    handleRegionReply, handleVersionReply.
  keeps_rx.
Qed.

(** *** [onReadyRead] terminates: the fuel is enough *)

Lemma next_consumes dev buf log m :
  FanetProtocolParser.res_msg (FanetProtocolParser.next dev buf log) = Some m ->
  (length (FanetProtocolParser.res_dev (FanetProtocolParser.next dev buf log))
   < length dev)%nat.
Proof.
  revert buf log. induction dev as [|c dev IH]; intros buf log H; cbn in *.
  - discriminate H.
  - destruct (code c =? FanetProtocolParser.StartDelimiter).
    + apply IH in H. lia.
    + destruct (code c =? FanetProtocolParser.EndDelimiter).
      * destruct (FanetProtocolParser.parseMessage buf). cbn. lia.
      * apply IH in H. lia.
Qed.

Lemma parser_next_consumes r m :
  evalState parser_next r = Some m ->
  (length (uart_rx (execState parser_next r)) < length (uart_rx r))%nat.
Proof.
  unfold parser_next, evalState, execState. cbn.
  destruct (uart_isOpen r); cbn; [|discriminate].
  apply next_consumes.
Qed.

Lemma onReadyRead_loop_fuel (n m : nat) (r : t) :
  (length (uart_rx r) < n)%nat -> (length (uart_rx r) < m)%nat ->
  runState (onReadyRead_loop n) r = runState (onReadyRead_loop m) r.
Proof.
  revert m r. induction n as [|n IH]; intros m r Hn Hm; [lia|].
  destruct m as [|m]; [lia|].
  cbn [onReadyRead_loop]. rewrite !run_bind.
  destruct (evalState parser_next r) as [msg|] eqn:Hp; [|reflexivity].
  apply parser_next_consumes in Hp.
  rewrite !run_bind.
  apply IH;
    match goal with
    | |- (length (uart_rx ?X) < _)%nat =>
        assert (Hrx : uart_rx X = uart_rx (execState parser_next r))
          by (destruct (AbstractFanetMessage.isValid msg);
              [apply keeps_rx_handleMessage | reflexivity]);
        rewrite Hrx; lia
    end.
Qed.

(** [onReadyRead] with any larger fuel computes the same: the loop
    always ends on a null pointer from [next], never on the fuel. *)
Lemma onReadyRead_total (n : nat) (r : t) :
  (length (uart_rx r) < n)%nat ->
  runState (onReadyRead_loop n) r = runState onReadyRead r.
Proof.
  intros Hn. unfold onReadyRead. rewrite run_bind.
  change (evalState get r) with r. change (execState get r) with r.
  apply onReadyRead_loop_fuel; lia.
Qed.


(** *** Bring-up *)

(** C1, at the failing input.  With the whole stream readable when
    [readyRead] is signalled, [next] returns the null pointer of
    [parseMessage] for the body CCCCC and the loop of [onReadyRead]
    ends: the four frames behind it stay unread, nothing is written,
    and the radio waits in Initializing with the 10 s timer armed. *)
Theorem bringup_single_read_stalls (gpio : bool) :
  let r := execState (Scenario.bringup [Scenario.bringup_stream])
             (FanetRadio Scenario.config_868_14 gpio) in
  signals r = [radioStateChanged RadioResetting; radioStateChanged RadioInitializing] /\
  uart_tx r = [] /\
  m_state r = RadioInitializing /\
  uart_rx r = concat (tl Scenario.bringup_frames) /\
  m_timer r = Some FANET_INIT_TIMEOUT_MSEC.
Proof. destruct gpio; vm_compute; repeat split. Qed.

(** No further byte arrives, so the timer fires: InitTimeout. *)
Lemma bringup_single_read_times_out (gpio : bool) :
  let r := execState (Scenario.bringup [Scenario.bringup_stream] ;; timerExpires)
             (FanetRadio Scenario.config_868_14 gpio) in
  signals r = [radioStateChanged RadioResetting; radioStateChanged RadioInitializing;
               radioStateChanged RadioInitTimeout] /\
  uart_tx r = [].
Proof. destruct gpio; vm_compute; repeat split. Qed.

(** The same stream, each frame readable on its own: the sequence and
    the frames the specification expects. *)
Lemma bringup_frame_by_frame (gpio : bool) :
  let r := execState (Scenario.bringup Scenario.bringup_frames)
             (FanetRadio Scenario.config_868_14 gpio) in
  signals r = [radioStateChanged RadioResetting; radioStateChanged RadioInitializing;
               radioStateChanged RadioReady] /\
  uart_tx r = [Scenario.frame "DGV"; Scenario.frame "DGL 868,14"; Scenario.frame "DGP 1"] /\
  m_state r = RadioReady /\
  uart_rx r = [].
Proof. destruct gpio; vm_compute; repeat split. Qed.

(** And byte by byte. *)
Lemma bringup_byte_by_byte (gpio : bool) :
  let r := execState (Scenario.bringup (map (fun c => [c]) Scenario.bringup_stream))
             (FanetRadio Scenario.config_868_14 gpio) in
  signals r = [radioStateChanged RadioResetting; radioStateChanged RadioInitializing;
               radioStateChanged RadioReady] /\
  uart_tx r = [Scenario.frame "DGV"; Scenario.frame "DGL 868,14"; Scenario.frame "DGP 1"] /\
  m_state r = RadioReady /\
  uart_rx r = [].
Proof. destruct gpio; vm_compute; repeat split. Qed.

End Radio.

Section BringupChunking.

Import Qt FanetRadio Chunking.

#[local] Opaque stream.

Lemma t_eqb_eq (a b : t) : t_eqb a b = true -> a = b.
Proof. unfold t_eqb. destruct (t_eq_dec a b); [auto | discriminate]. Qed.

Lemma nth_reached gpio held (p n : nat) (d : t) :
  (p < n)%nat ->
  nth p (map (fun p => reached gpio p held) (seq 0 n)) d = reached gpio p held.
Proof.
  intros Hp.
  rewrite (nth_indep _ d (reached gpio 0 held)) by (rewrite length_map, length_seq; exact Hp).
  rewrite (map_nth (fun p => reached gpio p held)), seq_nth by exact Hp.
  reflexivity.
Qed.

Lemma all_steps_checked (gpio : bool) : all_steps_ok gpio = true.
Proof. destruct gpio; vm_compute; reflexivity. Qed.

(** One read of the bytes [p, q), from either state at [p]. *)
Lemma receive_reached (gpio : bool) (p q : nat) :
  (p < q <= length stream)%nat ->
  execState (receive (slice p q)) (reached gpio p false) = reached gpio q (holds_back p q) /\
  ((first_end + 2 <= p)%nat ->
   execState (receive (slice p q)) (reached gpio p true) = reached gpio q false).
Proof.
  intros Hpq. pose proof (all_steps_checked gpio) as H.
  unfold all_steps_ok in H. cbv zeta in H.
  rewrite forallb_forall in H. specialize (H p).
  rewrite forallb_forall in H.
  assert (Hp : In p (seq 0 (length stream))) by (apply in_seq; lia).
  assert (Hq : In q (seq (S p) (length stream - p))) by (apply in_seq; lia).
  specialize (H Hp q Hq).
  apply andb_true_iff in H. destruct H as [H1 H2].
  unfold step_ok in H1, H2.
  rewrite !nth_reached in H1 by lia.
  split.
  - apply t_eqb_eq in H1. rewrite H1.
    destruct (holds_back p q); rewrite nth_reached by lia; reflexivity.
  - intros H8. destruct (Nat.leb_spec (first_end + 2) p) as [_|Hlt]; [|lia].
    rewrite !nth_reached in H2 by lia. apply t_eqb_eq in H2. exact H2.
Qed.

Lemma holds_back_late (p q : nat) : (first_end + 2 <= p)%nat -> holds_back p q = false.
Proof.
  intros H. unfold holds_back. destruct (Nat.leb_spec p first_end); [lia | reflexivity].
Qed.

Lemma feed_reached (gpio : bool) (chunks : list QByteArray) :
  forall (p : nat) (held : bool),
    Forall (fun c => c <> []) chunks ->
    concat chunks = skipn p stream ->
    (held = true -> (first_end + 2 <= p)%nat) ->
    (p <= length stream)%nat ->
    execState (Scenario.feed chunks) (reached gpio p held)
    = reached gpio (length stream) (final_held p held chunks).
Proof.
  induction chunks as [|c rest IH]; intros p held Hne Hcat Hheld Hp.
  - cbn [concat] in Hcat. symmetry in Hcat.
    assert (Hlen : length (skipn p stream) = 0%nat) by (rewrite Hcat; reflexivity).
    rewrite length_skipn in Hlen.
    assert (p = length stream) by lia. subst p. reflexivity.
  - inversion Hne as [|? ? Hc Hrest]; subst.
    cbn [concat] in Hcat.
    assert (Hlens : (length c + length (concat rest) = length stream - p)%nat).
    { rewrite <- length_app, Hcat. apply length_skipn. }
    assert (Hcpos : (0 < length c)%nat) by (destruct c; [congruence | cbn; lia]).
    assert (Hslice : c = slice p (p + length c)).
    { unfold slice. rewrite <- Hcat.
      replace (p + length c - p)%nat with (length c + 0)%nat by lia.
      rewrite firstn_app_2. cbn. rewrite app_nil_r. reflexivity. }
    assert (Hrestcat : concat rest = skipn (p + length c) stream).
    { rewrite Nat.add_comm, <- skipn_skipn, <- Hcat.
      rewrite skipn_app, skipn_all, Nat.sub_diag. reflexivity. }
    cbn [Scenario.feed final_held]. rewrite exec_bind.
    destruct (receive_reached gpio p (p + length c)) as [Hall Hhd]; [lia|].
    assert (Hstep : execState (receive c) (reached gpio p held)
                    = reached gpio (p + length c) (holds_back p (p + length c))).
    { rewrite Hslice at 1. destruct held.
      - rewrite Hhd by auto. rewrite holds_back_late by auto. reflexivity.
      - exact Hall. }
    rewrite Hstep. apply IH; [exact Hrest | exact Hrestcat | | lia].
    unfold holds_back. intros Hb. apply andb_true_iff in Hb. destruct Hb as [_ Hb].
    apply Nat.leb_le in Hb. exact Hb.
Qed.

Lemma final_held_last (chunks : list QByteArray) :
  forall (p : nat) (held : bool),
    chunks <> [] ->
    final_held p held chunks
    = holds_back (p + length (concat (removelast chunks))) (p + length (concat chunks)).
Proof.
  induction chunks as [|c rest IH]; intros p held Hne; [congruence|].
  cbn [final_held]. destruct rest as [|c' rest'].
  - cbn. rewrite app_nil_r, Nat.add_0_r. reflexivity.
  - rewrite IH by discriminate.
    change (removelast (c :: c' :: rest')) with (c :: removelast (c' :: rest')).
    cbn [concat]. rewrite !length_app. f_equal; lia.
Qed.

(** However the bring-up stream is cut into non-empty reads: the radio
    gets to Ready and writes the three commands iff some read follows
    the one that took in the first end delimiter; if that read is the
    last one, the rest of the stream stays in the port. *)
Theorem bringup_any_chunking (gpio : bool) (chunks : list QByteArray) :
  concat chunks = Scenario.bringup_stream ->
  Forall (fun c => c <> []) chunks ->
  let r := execState (Scenario.bringup chunks) (FanetRadio Scenario.config_868_14 gpio) in
  if (length (concat (removelast chunks)) <=? first_end)%nat
  then signals r = [radioStateChanged RadioResetting; radioStateChanged RadioInitializing] /\
       uart_tx r = [] /\ m_state r = RadioInitializing
  else signals r = [radioStateChanged RadioResetting; radioStateChanged RadioInitializing;
                    radioStateChanged RadioReady] /\
       uart_tx r = [Scenario.frame "DGV"; Scenario.frame "DGL 868,14";
                    Scenario.frame "DGP 1"] /\
       m_state r = RadioReady.
Proof.
  intros Hcat Hne r.
  assert (Hr : r = reached gpio (length stream) (final_held 0 false chunks)).
  { subst r. unfold Scenario.bringup. rewrite !exec_bind.
    rewrite <- (feed_reached gpio chunks 0 false Hne Hcat); [|discriminate | lia].
    unfold reached, started. cbn [slice Nat.sub firstn map Scenario.feed].
    rewrite !exec_bind. reflexivity. }
  assert (Hch : chunks <> []).
  { intros ->. discriminate Hcat. }
  rewrite (final_held_last chunks 0 false Hch) in Hr.
  rewrite Hcat in Hr. cbn [Nat.add] in Hr.
  unfold holds_back in Hr.
  change (first_end + 2 <=? length Scenario.bringup_stream)%nat with true in Hr.
  rewrite andb_true_r in Hr. rewrite Hr.
  destruct (length (concat (removelast chunks)) <=? first_end)%nat;
    destruct gpio; vm_compute; repeat split.
Qed.

End BringupChunking.


(** ** The dispatcher (fanetmessagedispatcher.cpp) *)

Section Dispatcher.

Import Qt FanetMessageDispatcher Scenario.

Lemma onTimeout_gated (now : Z) (d : t) :
  0 < inactivityTimeout (m_config d) -> m_lastNodeSeen d = None ->
  runState (onTimeout now) d = runState gated_tick d.
Proof.
  intros Hi Hn. unfold onTimeout. rewrite run_bind.
  change (evalState get d) with d. change (execState get d) with d.
  rewrite Hn. cbn [elapsed].
  destruct (Z.ltb_spec 0 (inactivityTimeout (m_config d))); [|lia].
  reflexivity.
Qed.

Lemma quiet_gated_tick d0 d : quiet d0 d -> quiet d0 (execState gated_tick d).
Proof. intros [Hc Hn Hs]. split; assumption. Qed.

Lemma quiet_disable d0 d : quiet d0 d -> quiet d0 (execState disableWeatherUpdates d).
Proof. intros [Hc Hn Hs]. split; assumption. Qed.

Lemma quiet_enable d0 d : quiet d0 d -> quiet d0 (execState enabledWeatherUpdates d).
Proof. intros [Hc Hn Hs]. split; assumption. Qed.

Lemma quiet_on_radio {A} (op : FanetRadio.radio A) d0 d :
  quiet d0 d -> quiet d0 (execState (on_radio op) d).
Proof.
  intros [Hc Hn Hs]. unfold on_radio, execState. cbn.
  destruct (runState op (m_radio d)). split; assumption.
Qed.

Lemma quiet_invoke (s : Slot) d0 d :
  0 < inactivityTimeout (m_config d0) ->
  reports_node s = false -> quiet d0 d -> quiet d0 (execState (invoke s) d).
Proof.
  intros Hi Hs Hq. destruct s as [now | state | addr payload broadcast now]; cbn [invoke].
  - unfold execState. rewrite onTimeout_gated.
    + apply quiet_gated_tick. exact Hq.
    + rewrite (quiet_config _ _ Hq). exact Hi.
    + exact (quiet_node _ _ Hq).
  - destruct state; cbn [onRadioStateChanged];
      try exact Hq;
      try (destruct Hq as [Hc Hn Hsd]; split; assumption).
    + rewrite !exec_bind. apply quiet_enable.
      change (evalState get d) with d. change (execState get d) with d.
      destruct (negb supportsAddressChange && (1 <? size_list (m_stations d)));
        [destruct Hq as [Hc Hn Hsd]; split; assumption | exact Hq].
    + rewrite !exec_bind. apply quiet_on_radio.
      destruct Hq as [Hc Hn Hsd]; split; assumption.
    + rewrite !exec_bind. apply quiet_on_radio.
      destruct Hq as [Hc Hn Hsd]; split; assumption.
  - cbn in Hs. unfold onFanetMessageReceived.
    destruct (FanetPayload.type payload); try discriminate Hs; exact Hq.
Qed.

Lemma quiet_run (slots : list Slot) d0 d :
  0 < inactivityTimeout (m_config d0) ->
  existsb reports_node slots = false -> quiet d0 d -> quiet d0 (execState (run slots) d).
Proof.
  intros Hi. revert d. induction slots as [|s slots IH]; intros d Hs Hq.
  - exact Hq.
  - cbn [existsb] in Hs. apply orb_false_iff in Hs. destruct Hs as [Hs1 Hs2].
    cbn [run]. rewrite exec_bind. apply IH; [exact Hs2|].
    apply quiet_invoke; assumption.
Qed.

(** After [setUpdateInterval(0)] on every station no station updates. *)
Lemma map_setUpdateInterval_0 (stations : list AbstractWeatherStation.t) :
  Forall (fun s => AbstractWeatherStation.m_updateIntervalSecs s = 0)
    (map (AbstractWeatherStation.setUpdateInterval 0) stations).
Proof.
  induction stations as [|s rest IH]; [constructor|].
  cbn [map]. constructor; [|exact IH].
  unfold AbstractWeatherStation.setUpdateInterval.
  destruct (Z.eqb_spec 0 (AbstractWeatherStation.m_updateIntervalSecs s)) as [E|E];
    cbn; [symmetry; exact E | reflexivity].
Qed.

(** What the inactivity branch leaves behind. *)
Lemma gated_tick_effects (d : t) :
  let d' := execState gated_tick d in
  m_timer d' = false /\
  Forall (fun s => AbstractWeatherStation.m_updateIntervalSecs s = 0) (m_stations d') /\
  sendData_calls d' = sendData_calls d /\
  m_radio d' = m_radio d /\
  m_lastNameUpdate d' = m_lastNameUpdate d /\
  m_lastWeatherUpdate d' = m_lastWeatherUpdate d.
Proof.
  destruct d as [cfg radio stations seen lw ln tm calls lg]. cbn.
  repeat split. apply map_setUpdateInterval_0.
Qed.

(** C7.  With a positive inactivity timeout and [m_lastNodeSeen] unset,
    whatever slots of the dispatcher run (ticks at any times, radio
    state changes, received packets other than Tracking and
    GroundTracking), [sendData] is never called, and every tick from
    the state reached is the inactivity branch alone: it logs, disables
    the updates and returns, whatever the two transmit intervals are.
    Disabled means: the timer of the tick is stopped and the update
    interval of every station is 0; returned before a broadcast means:
    no call of [sendData], the radio untouched, and neither the time of
    the last name broadcast nor that of the last weather broadcast
    set. *)
Theorem no_transmit_without_node (slots : list Slot) (d : t) :
  0 < inactivityTimeout (m_config d) ->
  m_lastNodeSeen d = None ->
  existsb reports_node slots = false ->
  sendData_calls (execState (run slots) d) = sendData_calls d /\
  forall now,
    let reached := execState (run slots) d in
    let d' := execState (onTimeout now) reached in
    runState (onTimeout now) reached = runState gated_tick reached /\
    m_timer d' = false /\
    Forall (fun s => AbstractWeatherStation.m_updateIntervalSecs s = 0) (m_stations d') /\
    sendData_calls d' = sendData_calls d /\
    m_radio d' = m_radio reached /\
    m_lastNameUpdate d' = m_lastNameUpdate reached /\
    m_lastWeatherUpdate d' = m_lastWeatherUpdate reached.
Proof.
  intros Hi Hn Hs.
  assert (Hq : quiet d (execState (run slots) d)).
  { apply quiet_run; [exact Hi | exact Hs | split; [reflexivity | exact Hn | reflexivity]]. }
  split.
  - exact (quiet_calls _ _ Hq).
  - intros now. cbv zeta.
    assert (Hg : runState (onTimeout now) (execState (run slots) d)
                 = runState gated_tick (execState (run slots) d)).
    { apply onTimeout_gated.
      - rewrite (quiet_config _ _ Hq). exact Hi.
      - exact (quiet_node _ _ Hq). }
    split; [exact Hg|].
    destruct (gated_tick_effects (execState (run slots) d))
      as (E1 & E2 & E3 & E4 & E5 & E6).
    rewrite (quiet_calls _ _ Hq) in E3.
    assert (Hx : execState (onTimeout now) (execState (run slots) d)
                 = execState gated_tick (execState (run slots) d))
      by (unfold execState at 1 3; rewrite Hg; reflexivity).
    rewrite Hx. repeat split; assumption.
Qed.

Lemma no_transmit_without_node_witness :
  let reached := execState (run quiet_slots) dispatcher0 in
  let d' := execState (onTimeout 4000) reached in
  sendData_calls reached = [] /\
  runState (onTimeout 4000) reached = runState gated_tick reached /\
  m_timer d' = false /\
  Forall (fun s => AbstractWeatherStation.m_updateIntervalSecs s = 0) (m_stations d') /\
  sendData_calls d' = [] /\
  m_radio d' = m_radio reached /\
  m_lastNameUpdate d' = m_lastNameUpdate reached /\
  m_lastWeatherUpdate d' = m_lastWeatherUpdate reached.
Proof.
  destruct (no_transmit_without_node quiet_slots dispatcher0) as [H1 H2].
  - reflexivity.
  - reflexivity.
  - reflexivity.
  - exact (conj H1 (H2 4000)).
Defined.

(** The gate is what holds the tick back: with a node seen a second
    ago and the radio Ready, the same tick sends the Service payload
    of the station. *)
Example tick_after_node_transmits :
  let radio := execState (bringup bringup_frames) radio0 in
  let d := execState (onTimeout 5000) (dispatcher_on radio (Some 4000)) in
  sendData_calls d
    = [(FanetAddress.default,
        FanetPayload.servicePayload
          (Z.lor FanetPayload.SHWind FanetPayload.SHTemperature)
          (Some (47.5, 10.25)%Q) 215 90 80 150 0 0)] /\
  FanetRadio.uart_tx (m_radio d)
    = FanetRadio.uart_tx radio
      ++ [frame "FNT 4,00,0000,0,0,b,60158e43f149072b40284b"].
Proof. split; vm_compute; reflexivity. Qed.

End Dispatcher.

(** ** The framer (fanetprotocolparser.cpp) *)

Section Framer.

Import Qt FanetProtocolParser FramerSpec.

Lemma end_not_start (c : ascii) : is_end c = true -> is_start c = false.
Proof.
  unfold is_end, is_start, EndDelimiter, StartDelimiter. intros H.
  apply Z.eqb_eq in H. rewrite H. reflexivity.
Qed.

(** *** [next] against the one-pass view *)

Lemma next_progress dev buf log :
  dev <> [] -> (length (res_dev (next dev buf log)) < length dev)%nat.
Proof.
  revert buf log. induction dev as [|c dev IH]; intros buf log Hne; [congruence|].
  cbn [next length].
  assert (Hrec : forall b l, (length (res_dev (next dev b l)) <= length dev)%nat).
  { intros b l. destruct dev as [|d dev']; [cbn; lia|].
    apply Nat.lt_le_incl, IH. discriminate. }
  destruct (code c =? StartDelimiter).
  - specialize (Hrec [] (if negb (isEmpty buf) && negb (startsWith buf MSG_INIT_IGNORE)
                         then log ++ [WarnDiscardingIncomplete buf] else log)). lia.
  - destruct (code c =? EndDelimiter).
    + destruct (parseMessage buf). cbn. lia.
    + specialize (Hrec (buf ++ [c]) log). lia.
Qed.

Lemma next_log dev buf log :
  res_log (next dev buf log)
  ++ scan warn_cut dispatch_log (res_dev (next dev buf log)) (res_buffer (next dev buf log))
  = log ++ scan warn_cut dispatch_log dev buf.
Proof.
  revert buf log. induction dev as [|c dev IH]; intros buf log; cbn [next scan].
  - reflexivity.
  - unfold is_start, is_end.
    destruct (code c =? StartDelimiter).
    + rewrite IH. unfold warn_cut, silent.
      destruct (isEmpty buf); cbn [negb andb orb]; [reflexivity|].
      destruct (startsWith buf MSG_INIT_IGNORE); cbn [negb];
        [reflexivity | rewrite <- app_assoc; reflexivity].
    + destruct (code c =? EndDelimiter).
      * unfold dispatch_log. destruct (parseMessage buf) as [msg plog]. cbn.
        rewrite <- !app_assoc. reflexivity.
      * apply IH.
Qed.

Lemma next_msgs dev buf log :
  opt_list (res_msg (next dev buf log))
  ++ scan (fun _ => []) (fun b => opt_list (fst (parseMessage b)))
       (res_dev (next dev buf log)) (res_buffer (next dev buf log))
  = scan (fun _ => []) (fun b => opt_list (fst (parseMessage b))) dev buf.
Proof.
  revert buf log. induction dev as [|c dev IH]; intros buf log; cbn [next scan].
  - reflexivity.
  - unfold is_start, is_end.
    destruct (code c =? StartDelimiter).
    + rewrite IH. reflexivity.
    + destruct (code c =? EndDelimiter).
      * destruct (parseMessage buf) as [msg plog]. reflexivity.
      * apply IH.
Qed.

Lemma drain_scan (fuel : nat) (dev buf : QByteArray) :
  (length dev <= fuel)%nat ->
  logged (drain fuel dev buf) = scan warn_cut dispatch_log dev buf /\
  yielded (drain fuel dev buf)
  = scan (fun _ => []) (fun b => opt_list (fst (parseMessage b))) dev buf.
Proof.
  revert dev buf. induction fuel as [|fuel IH]; intros dev buf Hlen.
  - destruct dev; [split; reflexivity | cbn in Hlen; lia].
  - destruct dev as [|c dev]; [split; reflexivity|].
    cbn [drain].
    set (res := next (c :: dev) buf []).
    assert (Hp : (length (res_dev res) <= fuel)%nat).
    { pose proof (next_progress (c :: dev) buf []) as H.
      fold res in H. cbn [length] in Hlen, H.
      assert (c :: dev <> []) by discriminate. specialize (H H0). lia. }
    destruct (IH (res_dev res) (res_buffer res) Hp) as [Hl Hy].
    unfold logged, yielded in *. cbn [flat_map]. rewrite Hl, Hy. subst res. split.
    + rewrite next_log. reflexivity.
    + apply next_msgs.
Qed.


(** *** The one-pass view against the splitting *)

Lemma split_on_cons (p : ascii -> bool) (s : QByteArray) :
  exists piece rest, split_on p s = piece :: rest.
Proof.
  induction s as [|c s IH]; cbn.
  - eauto.
  - destruct (p c); [eauto|]. destruct IH as (piece & rest & ->). eauto.
Qed.

Section Outputs.

Context {E : Type} (on_cut on_end : QByteArray -> list E).

Lemma segments_out_from_nil (segs : list QByteArray) :
  segments_out_from on_cut on_end [] segs = segments_out on_cut on_end segs.
Proof.
  destruct segs as [|seg rest]; [reflexivity|].
  cbn [segments_out_from segments_out]. unfold body_of.
  destruct (split_on_cons is_start seg) as (piece & ps & ->). reflexivity.
Qed.

Lemma scan_segments_from (s buf : QByteArray) :
  scan on_cut on_end s buf = segments_out_from on_cut on_end buf (segments s).
Proof.
  unfold segments. revert buf. induction s as [|c s IH]; intros buf.
  - reflexivity.
  - cbn [scan split_on].
    destruct (split_on_cons is_end s) as (l0 & ls & Hs).
    destruct (is_start c) eqn:Hst.
    + assert (Hend : is_end c = false).
      { destruct (is_end c) eqn:He; [|reflexivity].
        apply end_not_start in He. congruence. }
      rewrite Hend, IH, Hs. cbn [segments_out_from split_on]. rewrite Hst.
      destruct (split_on_cons is_start l0) as (p0 & ps & ->).
      cbn [with_buf cut_out last app]. rewrite app_nil_r, <- app_assoc. reflexivity.
    + destruct (is_end c) eqn:Hen.
      * rewrite IH, Hs, segments_out_from_nil.
        cbn [segments_out_from split_on with_buf cut_out last app].
        rewrite app_nil_r. reflexivity.
      * rewrite IH, Hs. cbn [segments_out_from split_on]. rewrite Hst.
        destruct (split_on_cons is_start l0) as (p0 & ps & ->).
        cbn [with_buf]. rewrite <- app_assoc. reflexivity.
Qed.

Lemma scan_segments (s : QByteArray) :
  scan on_cut on_end s [] = segments_out on_cut on_end (segments s).
Proof. rewrite scan_segments_from. apply segments_out_from_nil. Qed.

End Outputs.

Lemma cut_out_nothing {E} (pieces : list QByteArray) :
  cut_out (E := E) (fun _ => []) pieces = [].
Proof.
  induction pieces as [|p ps IH]; [reflexivity|].
  cbn [cut_out]. destruct ps; [reflexivity | exact IH].
Qed.

Lemma segments_out_bodies {E} (on_end : QByteArray -> list E) (segs : list QByteArray) :
  segments_out (fun _ => []) on_end segs = flat_map on_end (map body_of (removelast segs)).
Proof.
  induction segs as [|seg rest IH]; [reflexivity|].
  cbn [segments_out]. rewrite cut_out_nothing.
  destruct rest as [|seg' rest']; [reflexivity|].
  rewrite IH. reflexivity.
Qed.

Lemma dispatched_app (l1 l2 : list LogEvent) :
  dispatched (l1 ++ l2) = dispatched l1 ++ dispatched l2.
Proof. apply flat_map_app. Qed.

Lemma dispatched_cut_out (pieces : list QByteArray) :
  dispatched (cut_out warn_cut pieces) = [].
Proof.
  induction pieces as [|p ps IH]; [reflexivity|].
  cbn [cut_out]. destruct ps as [|q ps']; [reflexivity|].
  rewrite dispatched_app, IH. unfold warn_cut. destruct (silent p); reflexivity.
Qed.

Lemma dispatched_dispatch_log (body : QByteArray) :
  dispatched (dispatch_log body) = [body].
Proof.
  unfold dispatch_log, parseMessage.
  repeat match goal with
         | |- context [if ?b then _ else _] => destruct b
         end; reflexivity.
Qed.

Lemma dispatched_spec_log (segs : list QByteArray) :
  dispatched (segments_out warn_cut dispatch_log segs) = map body_of (removelast segs).
Proof.
  induction segs as [|seg rest IH]; [reflexivity|].
  cbn [segments_out]. rewrite dispatched_app, dispatched_cut_out.
  destruct rest as [|seg' rest']; [reflexivity|].
  rewrite dispatched_app, dispatched_dispatch_log, IH. reflexivity.
Qed.

(** C8 (as amended).  Run over any stream, the parser logs what the
    splitting describes: every end delimiter closes a segment and hands
    over, as body, the bytes since the last start delimiter of the
    segment or, when it has none, the whole segment; every piece cut
    short by a start delimiter is dropped, with a warning unless it is
    empty or starts with CCCCCC.  The messages returned are those that
    [parseMessage] makes of these bodies, in order. *)
Theorem framer_yields_segment_bodies (stream : QByteArray) :
  logged (run stream) = spec_log stream /\
  dispatched (logged (run stream)) = bodies stream /\
  yielded (run stream) = messages stream.
Proof.
  destruct (drain_scan (length stream) stream [] (Nat.le_refl _)) as [Hl Hy].
  unfold run. rewrite Hl, Hy. unfold spec_log, bodies, messages.
  rewrite !scan_segments. split; [reflexivity|]. split.
  - apply dispatched_spec_log.
  - apply segments_out_bodies.
Qed.

(** C8, counterexample.  A body that no start delimiter opened is
    handed over and parsed all the same. *)
Lemma framer_dispatches_unopened_body :
  let stream := lit "DGR OK" ++ [LF] in
  dispatched (logged (run stream)) = [lit "DGR OK"] /\
  yielded (run stream) = [Scenario.region_ok] /\
  framed_bodies stream = [] /\
  dispatched (logged (run stream)) <> framed_bodies stream.
Proof. repeat split. discriminate. Qed.

End Framer.

(** ** Replies (genericreply.cpp, transmitreply.cpp) *)

Section Replies.

Import Qt Scenario.

Lemma GenericReply_make_ack (type : FanetMessageType) (data first : QByteArray)
    (rest : list QByteArray) (nack : bool) :
  GenericReply.tokens data = first :: rest ->
  first = (if nack then lit "NACK" else lit "ACK") ->
  GenericReply.make type data
  = GenericReply.mk type data GenericReply.REPLY_CODE_INVALID
      (if nack then GenericReply.ReplyNack else GenericReply.ReplyAck) [].
Proof.
  intros Ht Hf. unfold GenericReply.make. rewrite Ht. subst first.
  destruct nack; reflexivity.
Qed.

Lemma TransmitReply_make_ack (data first : QByteArray) (rest : list QByteArray)
    (nack : bool) :
  GenericReply.tokens data = first :: rest ->
  first = (if nack then lit "NACK" else lit "ACK") ->
  TransmitReply.make data
  = TransmitReply.mk
      (GenericReply.mk FMTFanetReply data GenericReply.REPLY_CODE_INVALID
         (if nack then GenericReply.ReplyNack else GenericReply.ReplyAck) [])
      (FanetAddress.parse (mid data (indexOf data Tags.FANET_DATA_SEP + 1))).
Proof.
  intros Ht Hf. unfold TransmitReply.make.
  rewrite (GenericReply_make_ack FMTFanetReply data first rest nack Ht Hf).
  destruct nack; reflexivity.
Qed.

(** C9 (as amended).  A reply body whose first token is ACK (or NACK)
    makes a [GenericReply] of sub-kind Ack (Nack) with the code and the
    text left at their defaults: the tokens behind the first are not
    looked at and the object holds no address.  A [TransmitReply], the
    object made for an FNR frame, has the same sub-kind and in addition
    the address read from the bytes behind the first comma of the
    body. *)
Theorem ack_reply_parsing (type : FanetMessageType) (data first : QByteArray)
    (rest : list QByteArray) (nack : bool) :
  GenericReply.tokens data = first :: rest ->
  first = (if nack then lit "NACK" else lit "ACK") ->
  let kind := if nack then GenericReply.ReplyNack else GenericReply.ReplyAck in
  GenericReply.make type data
    = GenericReply.mk type data GenericReply.REPLY_CODE_INVALID kind [] /\
  TransmitReply.make data
    = TransmitReply.mk
        (GenericReply.mk FMTFanetReply data GenericReply.REPLY_CODE_INVALID kind [])
        (FanetAddress.parse (mid data (indexOf data Tags.FANET_DATA_SEP + 1))).
Proof.
  intros Ht Hf kind. subst kind. split.
  - apply (GenericReply_make_ack type data first rest nack Ht Hf).
  - apply (TransmitReply_make_ack data first rest nack Ht Hf).
Qed.

Lemma ack_reply_parsing_witness :
  GenericReply.make FMTRegionReply (lit " ACK,11,45AA")
    = GenericReply.mk FMTRegionReply (lit " ACK,11,45AA") (-1) GenericReply.ReplyAck [] /\
  TransmitReply.m_addr (TransmitReply.make (lit " ACK,11,45AA"))
    = FanetAddress.mk 0x11 0x45AA.
Proof.
  destruct (ack_reply_parsing FMTRegionReply (lit " ACK,11,45AA") (lit "ACK")
              [lit "11"; lit "45AA"] false eq_refl eq_refl) as [Hg Ht].
  split; [exact Hg|]. rewrite Ht. reflexivity.
Defined.

(** C9, counterexample.  The body of a DGR frame with ACK and an
    address is parsed into a [GenericReply]: sub-kind Ack, and no
    address anywhere in the message. *)
Lemma region_ack_carries_no_address :
  fst (FanetProtocolParser.parseMessage (lit "DGR ACK,11,45AA"))
    = Some (AbstractFanetMessage.GenericReply
              (GenericReply.mk FMTRegionReply (lit " ACK,11,45AA") (-1)
                 GenericReply.ReplyAck [])) /\
  reply_address (fst (FanetProtocolParser.parseMessage (lit "DGR ACK,11,45AA")))
    <> Some (FanetAddress.mk 0x11 0x45AA).
Proof. split; [reflexivity | discriminate]. Qed.

(** In an FNR frame the address is read behind the first comma of the
    body, which is not always behind the first token: an empty token
    in front moves it. *)
Example transmit_ack_leading_comma :
  GenericReply.tokens (lit " ,ACK,11,45AA") = [lit "ACK"; lit "11"; lit "45AA"] /\
  TransmitReply.m_addr (TransmitReply.make (lit " ,ACK,11,45AA"))
    = FanetAddress.mk 0xff 0xffff.
Proof. split; reflexivity. Qed.

(** *** The text form of addresses *)

Lemma digit_char_plain (k : Z) : 0 <= k < 16 -> plain (digit_char k).
Proof.
  intros Hk.
  assert (H : In k (map Z.of_nat (seq 0 16))).
  { apply in_map_iff. exists (Z.to_nat k). split; [lia | apply in_seq; lia]. }
  cbn in H.
  repeat (destruct H as [H|H]; [subst k; repeat split|]); contradiction.
Qed.

Lemma toHex_byte (b : Z) :
  exists h1 h2, Qt.toHex [b] = [h1; h2] /\ plain h1 /\ plain h2.
Proof.
  unfold Qt.toHex. cbn [flat_map app]. do 2 eexists. split; [reflexivity|].
  split; apply digit_char_plain.
  - assert (0 <= b mod 256 < 256) by (apply Z.mod_pos_bound; lia).
    split; [apply Z.div_pos; lia | apply Z.div_lt_upper_bound; lia].
  - apply Z.mod_pos_bound; lia.
Qed.

Lemma toUShort16_manufacturer (m : Z) :
  0 <= m < 256 -> toUShort16 (Qt.toHex [m]) = (m, true).
Proof.
  intros Hm.
  assert (Hall : forallb (fun n =>
                    let '(v, ok) := toUShort16 (Qt.toHex [Z.of_nat n]) in
                    (v =? Z.of_nat n) && ok) (seq 0 256) = true)
    by (vm_compute; reflexivity).
  rewrite forallb_forall in Hall. specialize (Hall (Z.to_nat m)).
  rewrite Z2Nat.id in Hall by lia.
  destruct (toUShort16 (Qt.toHex [m])) as [v ok].
  assert (Hin : In (Z.to_nat m) (seq 0 256)) by (apply in_seq; lia).
  apply Hall in Hin. apply andb_true_iff in Hin. destruct Hin as [H1 H2].
  apply Z.eqb_eq in H1. subst. reflexivity.
Qed.

Lemma toUShort16_device (d : Z) :
  0 <= d < 65536 -> toUShort16 (device_hex d) = (d, true).
Proof.
  intros Hd.
  assert (Hall : forallb (fun hi => forallb (fun lo =>
                    let n := Z.of_nat hi * 256 + Z.of_nat lo in
                    let '(v, ok) := toUShort16 (device_hex n) in
                    (v =? n) && ok) (seq 0 256)) (seq 0 256) = true)
    by (vm_compute; reflexivity).
  rewrite forallb_forall in Hall. specialize (Hall (Z.to_nat (d / 256))).
  rewrite forallb_forall in Hall.
  assert (Hdiv : 0 <= d / 256 < 256).
  { split; [apply Z.div_pos; lia | apply Z.div_lt_upper_bound; lia]. }
  assert (Hmod : 0 <= d mod 256 < 256) by (apply Z.mod_pos_bound; lia).
  assert (Hhi : In (Z.to_nat (d / 256)) (seq 0 256)) by (apply in_seq; lia).
  assert (Hlo : In (Z.to_nat (d mod 256)) (seq 0 256)) by (apply in_seq; lia).
  specialize (Hall Hhi _ Hlo). cbv zeta in Hall.
  rewrite !Z2Nat.id in Hall by lia.
  replace (d / 256 * 256 + d mod 256) with d in Hall
    by (rewrite (Z.div_mod d 256) at 1; lia).
  destruct (toUShort16 (device_hex d)) as [v ok].
  apply andb_true_iff in Hall. destruct Hall as [H1 H2].
  apply Z.eqb_eq in H1. subst. reflexivity.
Qed.

Lemma device_hex_chars (d : Z) :
  exists d1 d2 d3 d4,
    device_hex d = [d1; d2; d3; d4] /\ plain d1 /\ plain d2 /\ plain d3 /\ plain d4.
Proof.
  unfold device_hex.
  destruct (toHex_byte (Z.shiftr (Z.land d 0xff00) 8)) as (d1 & d2 & H1 & P1 & P2).
  destruct (toHex_byte (Z.land d 0x00ff)) as (d3 & d4 & H2 & P3 & P4).
  exists d1, d2, d3, d4.
  change (Qt.toHex [Z.shiftr (Z.land d 0xff00) 8; Z.land d 0x00ff])
    with (Qt.toHex [Z.shiftr (Z.land d 0xff00) 8] ++ Qt.toHex [Z.land d 0x00ff]).
  rewrite H1, H2. auto.
Qed.

(** The text form of an address is read back as the address, with
    either separator. *)
Lemma address_text_roundtrip (m d : Z) (colon : bool) :
  0 <= m < 256 -> 0 <= d < 65536 ->
  FanetAddress.fromData
    (FanetAddress.toHex (FanetAddress.mk m d) (if colon then ":"%char else ","%char))
  = (FanetAddress.mk m d, false).
Proof.
  intros Hm Hd. unfold FanetAddress.toHex.
  cbn [FanetAddress.m_manufacturerId FanetAddress.m_deviceId].
  fold (device_hex d).
  pose proof (toUShort16_manufacturer m Hm) as Em.
  pose proof (toUShort16_device d Hd) as Ed.
  destruct (toHex_byte m) as (h1 & h2 & Hh & (_ & _ & C1 & K1) & (_ & _ & C2 & K2)).
  destruct (device_hex_chars d)
    as (d1 & d2 & d3 & d4 & Hx & (_ & _ & C3 & K3) & (_ & _ & C4 & K4)
        & (_ & _ & C5 & K5) & (_ & _ & C6 & K6)).
  rewrite Hh in *. rewrite Hx in *.
  unfold FanetAddress.fromData, indexOf.
  destruct colon; cbn [app indexOf_from];
    rewrite ?C1, ?C2, ?C3, ?C4, ?C5, ?C6, ?K1, ?K2, ?K3, ?K4, ?K5, ?K6;
    cbn -[toUShort16];
    change (Pos.to_nat 2) with 2%nat; change (Pos.to_nat 3) with 3%nat;
    cbn [firstn skipn]; rewrite Em, Ed;
    rewrite Z.land_ones with (n := 8) by lia;
    rewrite Z.mod_small by (simpl; lia); reflexivity.
Qed.

(** X20.  An FNR body [ACK,mm,dddd] gives a reply of sub-kind Ack that
    carries the address written in it. *)
Lemma transmit_ack_address (m d : Z) :
  0 <= m < 256 -> 0 <= d < 65536 ->
  let r := TransmitReply.make
             (lit " ACK," ++ FanetAddress.toHex (FanetAddress.mk m d) ","%char) in
  GenericReply.m_reply (TransmitReply.base r) = GenericReply.ReplyAck /\
  TransmitReply.m_addr r = FanetAddress.mk m d.
Proof.
  intros Hm Hd.
  pose proof (address_text_roundtrip m d false Hm Hd) as Hrt.
  cbv iota in Hrt. unfold FanetAddress.toHex in *.
  cbn [FanetAddress.m_manufacturerId FanetAddress.m_deviceId] in *.
  fold (device_hex d) in *.
  destruct (toHex_byte m) as (h1 & h2 & Hh & (S1 & A1 & C1 & K1) & (S2 & A2 & C2 & K2)).
  destruct (device_hex_chars d)
    as (d1 & d2 & d3 & d4 & Hx & (S3 & A3 & C3 & K3) & (S4 & A4 & C4 & K4)
        & (S5 & A5 & C5 & K5) & (S6 & A6 & C6 & K6)).
  rewrite Hh in *. rewrite Hx in *.
  assert (Htok : GenericReply.tokens
                   (lit " ACK," ++ [h1; h2] ++ [","%char] ++ [d1; d2; d3; d4])
                 = [lit "ACK"; [h1; h2]; [d1; d2; d3; d4]]).
  { unfold GenericReply.tokens, qstring_trimmed, trim.
    cbn [lit list_ascii_of_string app dropWhile].
    change (qchar_isSpace " ") with true. change (qchar_isSpace "A") with false.
    cbv iota. cbn [rev app dropWhile]. rewrite S6. cbn [rev app].
    unfold split_skip_empty, Tags.FANET_DATA_SEP. cbn [split_acc].
    change (Ascii.eqb "A" ",") with false. change (Ascii.eqb "C" ",") with false.
    change (Ascii.eqb "K" ",") with false. change (Ascii.eqb "," ",") with true.
    cbv iota. cbn [split_acc].
    rewrite A1, A2. cbn [split_acc]. change (Ascii.eqb "," ",") with true. cbv iota.
    cbn [split_acc]. rewrite A3, A4, A5, A6. cbn [split_acc rev app].
    reflexivity. }
  cbv zeta.
  rewrite (TransmitReply_make_ack _ _ _ false Htok eq_refl).
  cbn [TransmitReply.base TransmitReply.m_addr GenericReply.m_reply].
  split; [reflexivity|].
  unfold FanetAddress.parse.
  change (mid (lit " ACK," ++ [h1; h2] ++ [","%char] ++ [d1; d2; d3; d4])
            (indexOf (lit " ACK," ++ [h1; h2] ++ [","%char] ++ [d1; d2; d3; d4])
               Tags.FANET_DATA_SEP + 1))
    with ([h1; h2] ++ [","%char] ++ [d1; d2; d3; d4]).
  rewrite Hrt. reflexivity.
Qed.

Lemma transmit_ack_address_witness :
  let r := TransmitReply.make (lit " ACK,11,45aa") in
  GenericReply.m_reply (TransmitReply.base r) = GenericReply.ReplyAck /\
  TransmitReply.m_addr r = FanetAddress.mk 0x11 0x45AA.
Proof.
  apply (transmit_ack_address 0x11 0x45AA); lia.
Defined.

End Replies.

(** ** Addresses (fanetaddress.cpp) *)

Section AddressMore.
Import Qt.

Lemma lor_shiftl_16 (m d : Z) :
  0 <= m -> 0 <= d < 65536 -> Z.lor (Z.shiftl m 16) d = m * 65536 + d.
Proof.
  intros Hm Hd.
  rewrite Z.shiftl_mul_pow2 by lia. change (2 ^ 16) with 65536.
  rewrite <- Z.lxor_lor.
  - symmetry. apply Z.add_nocarry_lxor.
    apply Z.bits_inj'. intros n Hn. rewrite Z.land_spec, Z.bits_0.
    destruct (Z.lt_ge_cases n 16).
    + replace (m * 65536) with (m * 2 ^ 16) by reflexivity.
      rewrite Z.mul_pow2_bits_low by lia. reflexivity.
    + rewrite (Z.bits_above_log2 d n); [apply andb_false_r | lia |].
      destruct (Z.eq_dec d 0) as [->|]; [simpl; lia|].
      apply Z.log2_lt_pow2; [lia|].
      apply Z.lt_le_trans with (2 ^ 16); [simpl; lia|]. apply Z.pow_le_mono_r; lia.
  - apply Z.bits_inj'. intros n Hn. rewrite Z.land_spec, Z.bits_0.
    destruct (Z.lt_ge_cases n 16).
    + replace (m * 65536) with (m * 2 ^ 16) by reflexivity.
      rewrite Z.mul_pow2_bits_low by lia. reflexivity.
    + rewrite (Z.bits_above_log2 d n); [apply andb_false_r | lia |].
      destruct (Z.eq_dec d 0) as [->|]; [simpl; lia|].
      apply Z.log2_lt_pow2; [lia|].
      apply Z.lt_le_trans with (2 ^ 16); [simpl; lia|]. apply Z.pow_le_mono_r; lia.
Qed.

Lemma toUInt32_value (m d : Z) :
  0 <= m < 256 -> 0 <= d < 65536 ->
  FanetAddress.toUInt32 (FanetAddress.mk m d) = m * 65536 + d.
Proof.
  intros Hm Hd. unfold FanetAddress.toUInt32. cbn [FanetAddress.m_manufacturerId FanetAddress.m_deviceId].
  rewrite (Z.mod_small (Z.shiftl m 16)).
  - apply lor_shiftl_16; lia.
  - rewrite Z.shiftl_mul_pow2 by lia. change (2 ^ 16) with 65536. change (2 ^ 32) with 4294967296. lia.
Qed.

(** X1.  The 32-bit number of an address, manufacturer * 65536 +
    device, fits 24 bits and gives the address back. *)
Theorem address_uint32_roundtrip (m d : Z) :
  0 <= m < 256 -> 0 <= d < 65536 ->
  0 <= FanetAddress.toUInt32 (FanetAddress.mk m d) < 2 ^ 24 /\
  FanetAddress.fromUInt32 (FanetAddress.toUInt32 (FanetAddress.mk m d)) = FanetAddress.mk m d.
Proof.
  intros Hm Hd. rewrite toUInt32_value by assumption. split; [change (2 ^ 24) with 16777216; lia|].
  unfold FanetAddress.fromUInt32.
  change 0x0000ffff with (Z.ones 16). rewrite Z.land_ones by lia.
  change (2 ^ 16) with 65536.
  assert (E1 : (m * 65536 + d) mod 65536 = d).
  { rewrite Z.add_comm, Z.mod_add by lia. apply Z.mod_small. lia. }
  rewrite E1, (Z.mod_small d) by lia.
  assert (E2 : Z.shiftr (Z.land (m * 65536 + d) 0x00ff0000) 16 = m).
  { rewrite Z.shiftr_land. change (Z.shiftr 0x00ff0000 16) with (Z.ones 8).
    rewrite Z.land_ones by lia. rewrite Z.shiftr_div_pow2 by lia.
    change (2 ^ 16) with 65536. change (2 ^ 8) with 256.
    replace ((m * 65536 + d) / 65536) with m.
    - apply Z.mod_small. lia.
    - apply (Z.div_unique _ _ m d); lia. }
  rewrite E2, Z.mod_small by lia. reflexivity.
Qed.

Lemma digit_val_nonneg (c : ascii) (d : Z) : digit_val c = Some d -> 0 <= d.
Proof.
  unfold digit_val.
  destruct ((48 <=? code c) && (code c <=? 57)) eqn:H1.
  - apply andb_true_iff in H1. destruct H1 as [H1 _]. apply Z.leb_le in H1.
    intros H. injection H as <-. lia.
  - destruct ((97 <=? code c) && (code c <=? 122)) eqn:H2.
    + apply andb_true_iff in H2. destruct H2 as [H2 _]. apply Z.leb_le in H2.
      intros H. injection H as <-. lia.
    + destruct ((65 <=? code c) && (code c <=? 90)) eqn:H3; [|discriminate].
      apply andb_true_iff in H3. destruct H3 as [H3 _]. apply Z.leb_le in H3.
      intros H. injection H as <-. lia.
Qed.

Lemma digits_value_nonneg (base : Z) (s : QByteArray) :
  0 <= base -> forall acc v, 0 <= acc -> digits_value base s acc = Some v -> 0 <= v.
Proof.
  intros Hb. induction s as [|c s IH]; intros acc v Hacc H; cbn in H.
  - injection H as <-. exact Hacc.
  - destruct (digit_val c) as [d|] eqn:Hd; [|discriminate].
    apply digit_val_nonneg in Hd.
    destruct (d <? base); [|discriminate].
    apply IH in H; [exact H | nia].
Qed.

Lemma toUShort16_range (s : QByteArray) : 0 <= fst (toUShort16 s) < 65536.
Proof.
  unfold toUShort16.
  destruct (parse_integer 16 false s) as [v|] eqn:Hp; [|cbn; lia].
  destruct (Z.leb_spec v 65535); [|cbn; lia]. cbn.
  split; [|lia].
  unfold parse_integer in Hp.
  destruct (trimmed s) as [|c t]; [discriminate|].
  assert (Hbody : forall u, match (if 16 =? 16 then strip_0x u else u) with
                            | [] => None
                            | _ :: _ => option_map (Z.mul 1)
                                          (digits_value 16 (if 16 =? 16 then strip_0x u else u) 0)
                            end = Some v -> 0 <= v).
  { intros u Hu. destruct (if 16 =? 16 then strip_0x u else u) as [|x y] eqn:E; [discriminate|].
    destruct (digits_value 16 (x :: y) 0) as [w|] eqn:Hw; [|discriminate].
    apply digits_value_nonneg in Hw; [|lia|lia]. cbn in Hu. injection Hu as <-.
    destruct w; lia. }
  destruct (code c =? 45); [discriminate|].
  destruct (code c =? 43); apply Hbody in Hp; exact Hp.
Qed.

(** X2.  Whatever the text, the ids of the address read from it fit their
    8 and 16 bits; and unless the later of the first comma and the
    first colon sits at index 1 or 2 with a character behind it, the
    address is the invalid one and nothing is logged. *)
Theorem fromData_separator_rule (data : QByteArray) :
  let sep := Z.max (indexOf data ","%char) (indexOf data ":"%char) in
  let a := FanetAddress.parse data in
  (0 <= FanetAddress.m_manufacturerId a < 256 /\
   0 <= FanetAddress.m_deviceId a < 65536) /\
  (~ (0 < sep < 3 /\ sep + 1 < size data) ->
   FanetAddress.fromData data = (FanetAddress.mk 0xff 0xffff, false) /\
   FanetAddress.isValid a = false).
Proof.
  cbv zeta. unfold FanetAddress.parse, FanetAddress.fromData.
  set (sep := Z.max (indexOf data ","%char) (indexOf data ":"%char)).
  destruct ((0 <? sep) && (sep <? 3) && (sep + 1 <? size data)) eqn:Hc.
  - apply andb_true_iff in Hc. destruct Hc as [Hc H3].
    apply andb_true_iff in Hc. destruct Hc as [H1 H2].
    apply Z.ltb_lt in H1, H2, H3.
    pose proof (toUShort16_range (mid_len data 0 sep)) as Rm.
    pose proof (toUShort16_range (mid data (sep + 1))) as Rd.
    destruct (toUShort16 (mid_len data 0 sep)) as [m ok1].
    destruct (toUShort16 (mid data (sep + 1))) as [d ok2].
    cbn [fst snd FanetAddress.m_manufacturerId FanetAddress.m_deviceId] in *.
    split; [|intros Hn; exfalso; apply Hn; lia].
    split; [|exact Rd].
    change 0xff with (Z.ones 8). rewrite Z.land_ones by lia.
    apply Z.mod_pos_bound. reflexivity.
  - cbn [fst snd FanetAddress.m_manufacturerId FanetAddress.m_deviceId].
    unfold FanetAddress.MANUFACUTER_ID_INVALID, FanetAddress.DEVICE_ID_INVALID.
    split; [lia|]. intros _. split; reflexivity.
Qed.

Lemma fromData_separator_rule_witness :
  FanetAddress.fromData (lit "1145aa") = (FanetAddress.mk 0xff 0xffff, false) /\
  FanetAddress.fromData (lit "114,5aa") = (FanetAddress.mk 0xff 0xffff, false).
Proof.
  split.
  - apply (fromData_separator_rule (lit "1145aa")). cbn. lia.
  - apply (fromData_separator_rule (lit "114,5aa")). cbn. lia.
Defined.

(** X3.  The text form of an address has seven characters and is read
    back as the address, without a warning, with either separator. *)
Theorem address_text_form_roundtrip (m d : Z) (colon : bool) :
  0 <= m < 256 -> 0 <= d < 65536 ->
  let text := FanetAddress.toHex (FanetAddress.mk m d) (if colon then ":"%char else ","%char) in
  size text = 7 /\
  FanetAddress.fromData text = (FanetAddress.mk m d, false).
Proof.
  intros Hm Hd text. split.
  - subst text. unfold FanetAddress.toHex, size.
    cbn [FanetAddress.m_manufacturerId FanetAddress.m_deviceId Qt.toHex flat_map app length].
    reflexivity.
  - apply address_text_roundtrip; assumption.
Qed.

Lemma address_text_form_roundtrip_witness :
  size (FanetAddress.toHex (FanetAddress.mk 0x11 0x45AA) ","%char) = 7 /\
  FanetAddress.fromData (FanetAddress.toHex (FanetAddress.mk 0x11 0x45AA) ","%char)
  = (FanetAddress.mk 0x11 0x45AA, false).
Proof. apply (address_text_form_roundtrip 0x11 0x45AA false); lia. Defined.

Lemma address_uint32_roundtrip_witness :
  0 <= FanetAddress.toUInt32 (FanetAddress.mk 0x11 0x45AA) < 2 ^ 24 /\
  FanetAddress.fromUInt32 (FanetAddress.toUInt32 (FanetAddress.mk 0x11 0x45AA))
  = FanetAddress.mk 0x11 0x45AA.
Proof. apply (address_uint32_roundtrip 0x11 0x45AA); lia. Defined.

End AddressMore.

(** ** The getters of the payload (fanetpayload.cpp) *)

Section PayloadGetters.

Import Qt FanetPayload.

#[local] Arguments PayloadFields.at_checked : simpl never.
#[local] Arguments scaled_speed : simpl never.
#[local] Arguments PayloadFields.climb_of : simpl never.
#[local] Arguments qRound : simpl never.

Lemma byte_cases (P : Z -> bool) :
  forallb (fun n => P (Z.of_nat n)) (seq 0 256) = true ->
  forall b, 0 <= b < 256 -> P b = true.
Proof.
  intros Hall b Hb. rewrite forallb_forall in Hall.
  specialize (Hall (Z.to_nat b)). rewrite Z2Nat.id in Hall by lia.
  apply Hall, in_seq. lia.
Qed.

Lemma byte_pair_cases (P : Z -> Z -> bool) :
  forallb (fun n => forallb (fun m => P (Z.of_nat n) (Z.of_nat m)) (seq 0 256)) (seq 0 256) = true ->
  forall a b, 0 <= a < 256 -> 0 <= b < 256 -> P a b = true.
Proof.
  intros Hall a b Ha Hb. rewrite forallb_forall in Hall.
  specialize (Hall (Z.to_nat a)). rewrite forallb_forall in Hall.
  assert (Hia : In (Z.to_nat a) (seq 0 256)) by (apply in_seq; lia).
  specialize (Hall Hia (Z.to_nat b)). rewrite !Z2Nat.id in Hall by lia.
  apply Hall, in_seq. lia.
Qed.

Lemma at_checked_some (d : list Z) (i : Z) :
  0 <= i < dsize d -> exists b, PayloadFields.at_checked d i = Some b.
Proof.
  intros Hi. unfold PayloadFields.at_checked, dsize in *.
  destruct (Z.leb_spec 0 i); [|lia].
  destruct (nth_error d (Z.to_nat i)) as [b|] eqn:E; [eauto|].
  apply nth_error_None in E. lia.
Qed.

Lemma at_checked_byte (d : list Z) (i b : Z) :
  PayloadFields.bytes d -> PayloadFields.at_checked d i = Some b -> 0 <= b < 256.
Proof.
  intros Hd H. unfold PayloadFields.at_checked in H.
  destruct (0 <=? i); [|discriminate].
  apply nth_error_In in H. unfold PayloadFields.bytes in Hd.
  rewrite Forall_forall in Hd. apply Hd, H.
Qed.

(** Read inside the buffer, [at] gives what the unchecked model reads. *)
Lemma at_checked_at (d : list Z) (i b : Z) :
  PayloadFields.at_checked d i = Some b -> at_ d i = b.
Proof.
  unfold PayloadFields.at_checked, at_. destruct (0 <=? i); [|discriminate].
  intros H. apply nth_error_nth. exact H.
Qed.

Lemma scaled_speed_range (b : Z) : 0 <= b < 256 -> 0 <= scaled_speed b <= 3175.
Proof.
  intros Hb.
  pose proof (byte_cases (fun b => (0 <=? scaled_speed b) && (scaled_speed b <=? 3175))
                ltac:(vm_compute; reflexivity) b Hb) as H.
  apply andb_true_iff in H. destruct H as [H1 H2].
  apply Z.leb_le in H1, H2. lia.
Qed.

Lemma climb_of_range (b : Z) :
  0 <= b < 256 ->
  -320 <= PayloadFields.climb_of b <= 315 /\
  PayloadFields.climb_of b
  = (if 128 <=? b then 5 else 1) * ((b + 64) mod 128 - 64).
Proof.
  intros Hb.
  pose proof (byte_cases
                (fun b => (-320 <=? PayloadFields.climb_of b)
                          && (PayloadFields.climb_of b <=? 315)
                          && (PayloadFields.climb_of b
                              =? (if 128 <=? b then 5 else 1) * ((b + 64) mod 128 - 64)))
                ltac:(vm_compute; reflexivity) b Hb) as H.
  apply andb_true_iff in H. destruct H as [H H3].
  apply andb_true_iff in H. destruct H as [H1 H2].
  apply Z.leb_le in H1, H2. apply Z.eqb_eq in H3. lia.
Qed.

Lemma heading_byte_range (b : Z) :
  0 <= b < 256 -> 0 <= qRound (inject_Z b * 360 / 256) <= 359.
Proof.
  intros Hb.
  pose proof (byte_cases (fun b => (0 <=? qRound (inject_Z b * 360 / 256))
                                   && (qRound (inject_Z b * 360 / 256) <=? 359))
                ltac:(vm_compute; reflexivity) b Hb) as H.
  apply andb_true_iff in H. destruct H as [H1 H2].
  apply Z.leb_le in H1, H2. lia.
Qed.

Lemma altitude_bytes_range (b6 b7 : Z) :
  0 <= b6 < 256 -> 0 <= b7 < 256 ->
  0 <= (if bit_set b7 0x08 then 4 else 1) * Z.lor b6 (Z.shiftl (Z.land b7 0x07) 8) <= 8188.
Proof.
  intros H6 H7.
  pose proof (byte_pair_cases
                (fun b6 b7 =>
                   let v := (if bit_set b7 0x08 then 4 else 1)
                            * Z.lor b6 (Z.shiftl (Z.land b7 0x07) 8) in
                   (0 <=? v) && (v <=? 8188))
                ltac:(vm_compute; reflexivity) b6 b7 H6 H7) as H.
  cbv zeta in H. apply andb_true_iff in H. destruct H as [H1 H2].
  apply Z.leb_le in H1, H2. lia.
Qed.

Lemma quality_byte_range (b : Z) :
  0 <= b < 256 -> 0 <= 100 * Z.shiftr (Z.land b 0x70) 4 / 7 <= 100.
Proof.
  intros Hb.
  pose proof (byte_cases (fun b => (0 <=? 100 * Z.shiftr (Z.land b 0x70) 4 / 7)
                                   && (100 * Z.shiftr (Z.land b 0x70) 4 / 7 <=? 100))
                ltac:(vm_compute; reflexivity) b Hb) as H.
  apply andb_true_iff in H. destruct H as [H1 H2].
  apply Z.leb_le in H1, H2. lia.
Qed.

Ltac some_inv :=
  repeat match goal with
         | H : match ?o with Some _ => _ | None => None end = Some _ |- _ =>
             let b := fresh "b" in let E := fresh "E" in
             destruct o as [b|] eqn:E; [|discriminate H]
         | H : Some _ = Some _ |- _ => injection H as H
         end.

(** X4.  Speed, altitude, heading, climb and thermal quality stay within
    the ranges of their encodings, whatever the bytes: at most 317.5
    km/h, 8188 m, 359 degrees, between -32.0 and +31.5 m/s, at most 100
    percent.  On the other payload types they are -1. *)
Theorem tracking_fields_ranges (p : t) :
  PayloadFields.bytes (m_data p) ->
  let flying := match m_type p with PTTracking | PTThermal => true | _ => false end in
  (forall v, PayloadFields.speed p = Some v ->
             if flying then 0 <= v <= 3175 else v = -1) /\
  (forall v, PayloadFields.altitude p = Some v ->
             if flying then 0 <= v <= 8188 else v = -1) /\
  (forall v, PayloadFields.heading p = Some v ->
             if flying then 0 <= v <= 359 else v = -1) /\
  (forall v, PayloadFields.climb p = Some v ->
             if flying then -320 <= v <= 315 else v = -1) /\
  (forall v, PayloadFields.quality p = Some v ->
             match m_type p with PTThermal => 0 <= v <= 100 | _ => v = -1 end).
Proof.
  intros Hd flying. subst flying.
  unfold PayloadFields.speed, PayloadFields.altitude, PayloadFields.heading,
    PayloadFields.climb, PayloadFields.quality.
  repeat split; intros v H; destruct (m_type p); cbn in H; some_inv; subst;
    try reflexivity;
    repeat match goal with
           | E : PayloadFields.at_checked _ _ = Some _ |- _ =>
               apply (at_checked_byte _ _ _ Hd) in E
           end;
    first [ apply scaled_speed_range; assumption
          | apply altitude_bytes_range; assumption
          | apply heading_byte_range; assumption
          | apply climb_of_range; assumption
          | apply quality_byte_range; assumption ].
Qed.

Lemma tracking_fields_ranges_witness :
  let p := mk PTTracking [0x01; 0x02; 0x03; 0x04; 0x05; 0x06; 0xE8; 0x13; 0x8C; 0x45; 0x40] in
  (forall v, PayloadFields.speed p = Some v -> 0 <= v <= 3175) /\
  (forall v, PayloadFields.altitude p = Some v -> 0 <= v <= 8188) /\
  (forall v, PayloadFields.heading p = Some v -> 0 <= v <= 359) /\
  (forall v, PayloadFields.climb p = Some v -> -320 <= v <= 315) /\
  (forall v, PayloadFields.quality p = Some v -> v = -1).
Proof.
  apply (tracking_fields_ranges
           (mk PTTracking [0x01; 0x02; 0x03; 0x04; 0x05; 0x06; 0xE8; 0x13; 0x8C; 0x45; 0x40])).
  unfold PayloadFields.bytes. cbn [m_data].
  repeat (apply Forall_cons; [lia|]). apply Forall_nil.
Defined.

#[local] Arguments at_ : simpl never.
#[local] Arguments testFlag : simpl never.
#[local] Arguments testFlags : simpl never.
#[local] Arguments Platform.char_to_int : simpl never.
#[local] Arguments bit_set : simpl never.
#[local] Arguments to_qint8 : simpl never.

Lemma service_header_checked (p : t) (h : Z) :
  PayloadFields.service_header p = Some h -> service_header p = h.
Proof.
  unfold PayloadFields.service_header, service_header.
  destruct (PayloadType_eqb (m_type p) PTService); cbn [bind ret Monad_option].
  - intros H. some_inv. apply at_checked_at in E. subst. reflexivity.
  - intros H. injection H as <-. reflexivity.
Qed.

(** Where a getter reads inside the buffer, its value is the one of the
    getter of the codec above. *)
Lemma checked_getters_agree (p : t) :
  (forall v, PayloadFields.temperature p = Some v -> temperature p = v) /\
  (forall v, PayloadFields.dir p = Some v -> dir p = v) /\
  (forall v, PayloadFields.wind p = Some v -> wind p = v) /\
  (forall v, PayloadFields.gusts p = Some v -> gusts p = v) /\
  (forall v, PayloadFields.altitude p = Some v -> altitude p = v) /\
  (forall v, PayloadFields.heading p = Some v -> heading p = v) /\
  (forall v, PayloadFields.speed p = Some v -> speed p = v).
Proof.
  unfold PayloadFields.temperature, PayloadFields.dir, PayloadFields.wind,
    PayloadFields.gusts, temperature, dir, wind, gusts.
  repeat split; intros v H;
    try (destruct (PayloadFields.service_header p) as [h|] eqn:Hh;
         cbn [bind ret Monad_option] in H; [|discriminate H];
         apply service_header_checked in Hh; rewrite Hh; cbv zeta;
         destruct (testFlags h _); cbn [bind ret Monad_option] in H;
         some_inv; subst;
         repeat match goal with
                | E : PayloadFields.at_checked _ _ = Some _ |- _ =>
                    apply at_checked_at in E; rewrite E
                end; reflexivity);
    unfold PayloadFields.altitude, PayloadFields.heading, PayloadFields.speed,
      altitude, heading, speed in *;
    destruct (m_type p); cbn [bind ret Monad_option] in H; some_inv; subst;
    repeat match goal with
           | E : PayloadFields.at_checked _ _ = Some _ |- _ =>
               apply at_checked_at in E; rewrite E
           end; reflexivity.
Qed.

End PayloadGetters.

Section PayloadBounds.

Import Qt FanetPayload.

#[local] Arguments PayloadFields.at_checked : simpl never.
#[local] Arguments scaled_speed : simpl never.
#[local] Arguments PayloadFields.climb_of : simpl never.
#[local] Arguments qRound : simpl never.
#[local] Arguments testFlag : simpl never.
#[local] Arguments testFlags : simpl never.
#[local] Arguments Platform.char_to_int : simpl never.
#[local] Arguments bit_set : simpl never.
#[local] Arguments number : simpl never.

Lemma testFlags_testFlag (h f : Z) : f <> 0 -> testFlags h f = testFlag h f.
Proof.
  intros Hf. unfold testFlags, testFlag.
  destruct (Z.eqb_spec f 0); [contradiction|]. cbn. rewrite andb_true_r. reflexivity.
Qed.

(** A header with the Temperature or the Wind bit asks for the position
    block. *)
Lemma data_flag_asks_position (h f : Z) :
  f = SHTemperature \/ f = SHWind ->
  testFlag h f = true ->
  negb (Z.land h (Z.lnot (Z.lor (Z.lor SHExtendedHeader SHInternetGateway)
                                SHSupportRemoteConfig)) =? 0) = true.
Proof.
  intros Hf Ht. unfold testFlag in Ht. apply andb_true_iff in Ht. destruct Ht as [Ht _].
  apply Z.eqb_eq in Ht. apply negb_true_iff, Z.eqb_neq. intros H0.
  destruct Hf as [-> | ->].
  - assert (Hb : Z.testbit (Z.land h SHTemperature) 6 = true) by (rewrite Ht; reflexivity).
    rewrite Z.land_spec in Hb. apply andb_true_iff in Hb. destruct Hb as [Hb _].
    assert (Hc : Z.testbit 0 6 = true); [|discriminate Hc].
    rewrite <- H0, Z.land_spec, Hb. reflexivity.
  - assert (Hb : Z.testbit (Z.land h SHWind) 5 = true) by (rewrite Ht; reflexivity).
    rewrite Z.land_spec in Hb. apply andb_true_iff in Hb. destruct Hb as [Hb _].
    assert (Hc : Z.testbit 0 5 = true); [|discriminate Hc].
    rewrite <- H0, Z.land_spec, Hb. reflexivity.
Qed.

Lemma at_checked_cons0 (h : Z) (d : list Z) : PayloadFields.at_checked (h :: d) 0 = Some h.
Proof. reflexivity. Qed.

(** Reading the index [i] of a buffer that is long enough. *)
Ltac read_inside :=
  repeat match goal with
         | |- context [PayloadFields.at_checked ?d ?i] =>
             let b := fresh "b" in let E := fresh "E" in
             destruct (at_checked_some d i) as [b E];
             [ unfold dsize in *; cbn [length] in *; lia
             | rewrite E; cbn [bind ret Monad_option PayloadFields.isSome] ]
         end.

Lemma in_bounds_sized (g : PayloadFields.Getter) (ty : PayloadType) (d : list Z) :
  match ty with
  | PTTracking | PTThermal => 11 <= dsize d
  | PTGroundTracking => 7 <= dsize d
  | PTHWInfoOld => 3 <= dsize d
  | PTName | PTMessage => True
  | _ => False
  end ->
  PayloadFields.in_bounds g (mk ty d) = true.
Proof.
  intros Hs.
  destruct ty; try contradiction;
    destruct g;
    cbn [PayloadFields.in_bounds PayloadFields.position PayloadFields.aircraftType
         PayloadFields.groundTrackingType PayloadFields.onlineTracking
         PayloadFields.temperature PayloadFields.dir PayloadFields.wind
         PayloadFields.gusts PayloadFields.altitude PayloadFields.heading
         PayloadFields.speed PayloadFields.climb PayloadFields.quality
         PayloadFields.uptime PayloadFields.deviceType_id PayloadFields.firmwareBuild
         PayloadFields.service_header PayloadFields.position_at
         m_type m_data PayloadType_eqb PayloadType_code Z.eqb Pos.eqb
         bind ret Monad_option PayloadFields.isSome];
    try reflexivity;
    try (change (testFlags 0 SHTemperature) with false);
    try (change (testFlags 0 SHWind) with false);
    cbv iota;
    try reflexivity;
    try (destruct (Z.leb_spec 5 (dsize d)));
    read_inside; try reflexivity.
Qed.

Ltac unfold_getters :=
  cbn [PayloadFields.in_bounds PayloadFields.position PayloadFields.aircraftType
       PayloadFields.groundTrackingType PayloadFields.onlineTracking
       PayloadFields.temperature PayloadFields.dir PayloadFields.wind
       PayloadFields.gusts PayloadFields.altitude PayloadFields.heading
       PayloadFields.speed PayloadFields.climb PayloadFields.quality
       PayloadFields.uptime PayloadFields.deviceType_id PayloadFields.firmwareBuild
       PayloadFields.service_header PayloadFields.position_at
       m_type m_data PayloadType_eqb PayloadType_code Z.eqb Pos.eqb
       bind ret Monad_option PayloadFields.isSome].

Lemma in_bounds_hwinfo (g : PayloadFields.Getter) (h : Z) (d : list Z) :
  1 + (if bit_set h 0x40 then 3 else 0) + (if bit_set h 0x20 then 3 else 0)
    + (if bit_set h 0x10 then 2 else 0) + (if bit_set h 0x08 then 4 else 0)
    + (if bit_set h 0x01 then 1 else 0) <= dsize (h :: d) ->
  PayloadFields.in_bounds g (mk PTHWInfo (h :: d)) = true.
Proof.
  intros Hs.
  destruct g; unfold_getters; try reflexivity;
    try (change (testFlags 0 SHTemperature) with false);
    try (change (testFlags 0 SHWind) with false);
    cbv iota; try reflexivity;
    rewrite ?at_checked_cons0; unfold_getters;
    destruct (bit_set h 0x40), (bit_set h 0x20), (bit_set h 0x10),
      (bit_set h 0x08), (bit_set h 0x01);
    unfold_getters; cbn [negb Z.eqb]; try reflexivity;
    read_inside; reflexivity.
Qed.

Lemma in_bounds_service (g : PayloadFields.Getter) (h : Z) (d : list Z) :
  let header := Platform.char_to_int h in
  1 + (if negb (Z.land header
                  (Z.lnot (Z.lor (Z.lor SHExtendedHeader SHInternetGateway)
                                 SHSupportRemoteConfig)) =? 0)
       then 6 else 0)
    + (if testFlag header SHExtendedHeader then 1 else 0)
    + (if testFlag header SHTemperature then 1 else 0)
    + (if testFlag header SHWind then 3 else 0)
    + (if testFlag header SHHumidity then 1 else 0)
    + (if testFlag header SHPressure then 2 else 0)
    + (if testFlag header SHStateOfCharge then 1 else 0) <= dsize (h :: d) ->
  PayloadFields.in_bounds g (mk PTService (h :: d)) = true.
Proof.
  intros header Hs.
  pose proof (data_flag_asks_position header SHTemperature (or_introl eq_refl)) as HT.
  pose proof (data_flag_asks_position header SHWind (or_intror eq_refl)) as HW.
  destruct g; unfold_getters; try reflexivity;
    rewrite ?at_checked_cons0; unfold_getters; fold header;
    rewrite ?testFlags_testFlag by discriminate;
    unfold wind_offset.
  - (* position *)
    destruct (testFlag header SHExtendedHeader);
      match goal with
      | |- context [dsize ?l <? ?n] => destruct (Z.ltb_spec (dsize l) n)
      end; try reflexivity; unfold PayloadFields.POS_SIZE in *; read_inside; reflexivity.
  - destruct (testFlag header SHTemperature); [|reflexivity].
    rewrite HT in Hs by reflexivity.
    destruct (testFlag header SHExtendedHeader), (testFlag header SHWind),
      (testFlag header SHHumidity), (testFlag header SHPressure),
      (testFlag header SHStateOfCharge); read_inside; reflexivity.
  - destruct (testFlag header SHWind); [|reflexivity].
    rewrite HW in Hs by reflexivity.
    destruct (testFlag header SHExtendedHeader), (testFlag header SHTemperature),
      (testFlag header SHHumidity), (testFlag header SHPressure),
      (testFlag header SHStateOfCharge); read_inside; reflexivity.
  - destruct (testFlag header SHWind); [|reflexivity].
    rewrite HW in Hs by reflexivity.
    destruct (testFlag header SHExtendedHeader), (testFlag header SHTemperature),
      (testFlag header SHHumidity), (testFlag header SHPressure),
      (testFlag header SHStateOfCharge); read_inside; reflexivity.
  - destruct (testFlag header SHWind); [|reflexivity].
    rewrite HW in Hs by reflexivity.
    destruct (testFlag header SHExtendedHeader), (testFlag header SHTemperature),
      (testFlag header SHHumidity), (testFlag header SHPressure),
      (testFlag header SHStateOfCharge); read_inside; reflexivity.
Qed.

(** X5.  Every getter stays inside the buffer of a payload that
    [fromReceivedData] accepted, for Thermal provided the buffer has
    the eleven bytes the size check warns about. *)
Theorem accepted_payload_reads_in_bounds (ty : option PayloadType) (d : list Z)
    (g : PayloadFields.Getter) :
  isValid (fst (fromReceivedData ty d)) = true ->
  (m_type (fst (fromReceivedData ty d)) = PTThermal -> 11 <= dsize d) ->
  PayloadFields.in_bounds g (fst (fromReceivedData ty d)) = true.
Proof.
  destruct ty as [ty|]; [|discriminate].
  destruct ty; try discriminate; unfold fromReceivedData;
    unfold PAYLOAD_SIZE_GROUNDTRACKING, PAYLOAD_SIZE_TRACKING_MIN,
      PAYLOAD_SIZE_HWINFO_OLD_MIN, PAYLOAD_SIZE_THERMAL.
  - (* Tracking *)
    destruct (Z.ltb_spec (dsize d) 11); [discriminate|]. intros _ _.
    apply in_bounds_sized. assumption.
  - intros _ _. apply in_bounds_sized. exact I.
  - intros _ _. apply in_bounds_sized. exact I.
  - (* Service *)
    destruct d as [|h d].
    + discriminate.
    + cbn [isEmpty at_ nth Z.to_nat].
      match goal with
      | |- context [dsize ?l <? ?n] => destruct (Z.ltb_spec (dsize l) n)
      end; [discriminate|]. intros _ _.
      apply in_bounds_service. assumption.
  - (* GroundTracking *)
    destruct (Z.eqb_spec (dsize d) 7); [|discriminate]. intros _ _.
    apply in_bounds_sized. lia.
  - (* HWInfoOld *)
    destruct (Z.ltb_spec (dsize d) 3); [discriminate|]. intros _ _.
    apply in_bounds_sized. assumption.
  - (* Thermal *)
    intros _ Hs. apply in_bounds_sized. apply Hs. reflexivity.
  - (* HWInfo *)
    destruct d as [|h d].
    + discriminate.
    + cbn [isEmpty at_ nth Z.to_nat negb andb].
      destruct (bit_set h 0x80); [discriminate|].
      match goal with
      | |- context [dsize ?l <? ?n] => destruct (Z.ltb_spec (dsize l) n)
      end; [discriminate|]. intros _ _.
      apply in_bounds_hwinfo. assumption.
Qed.

Lemma accepted_payload_reads_in_bounds_witness :
  PayloadFields.in_bounds PayloadFields.GWind
    (fst (fromReceivedData (Some PTService)
            [0x60; 0x15; 0x8E; 0x43; 0xF1; 0x49; 0x07; 0x2B; 0x40; 0x28; 0x4B])) = true.
Proof.
  apply (accepted_payload_reads_in_bounds (Some PTService)
           [0x60; 0x15; 0x8E; 0x43; 0xF1; 0x49; 0x07; 0x2B; 0x40; 0x28; 0x4B]
           PayloadFields.GWind).
  - reflexivity.
  - discriminate.
Defined.

End PayloadBounds.

(** ** Rounding to double (fanetpayload.cpp) *)

Section Doubles.

Import Qt FanetPayload.

Lemma floor_bounds (q : Q) :
  (inject_Z (Qfloor q) <= q)%Q /\ (q < inject_Z (Qfloor q) + 1)%Q.
Proof.
  split; [apply Qfloor_le|].
  pose proof (Qlt_floor q) as H. rewrite inject_Z_plus in H. exact H.
Qed.

Lemma ceiling_bounds (q : Q) :
  (q <= inject_Z (Qceiling q))%Q /\ (inject_Z (Qceiling q) - 1 < q)%Q.
Proof.
  split; [apply Qle_ceiling|].
  pose proof (Qceiling_lt q) as H. unfold Z.sub in H. rewrite inject_Z_plus in H.
  change (inject_Z (Z.opp 1)) with (-1)%Q in H.
  set (c := inject_Z (Qceiling q)) in *. lra.
Qed.

Lemma round_even_cases (q : Q) :
  round_even q = Qfloor q \/ round_even q = Qfloor q + 1.
Proof.
  unfold round_even. destruct (_ ?= _)%Q; [destruct (Z.even _)| |]; auto.
Qed.

(** [round_even] is within a half of its argument. *)
Lemma round_even_near (q : Q) :
  (inject_Z (round_even q) - (1 # 2) <= q)%Q /\
  (q <= inject_Z (round_even q) + (1 # 2))%Q.
Proof.
  destruct (floor_bounds q) as [F1 F2]. unfold round_even.
  destruct (Qcompare_spec (q - inject_Z (Qfloor q)) (1 # 2)) as [E|E|E].
  - destruct (Z.even (Qfloor q)); rewrite ?inject_Z_plus;
      set (f := inject_Z (Qfloor q)) in *; change (inject_Z 1) with 1%Q; split; lra.
  - set (f := inject_Z (Qfloor q)) in *. split; lra.
  - rewrite inject_Z_plus. set (f := inject_Z (Qfloor q)) in *.
    change (inject_Z 1) with 1%Q. split; lra.
Qed.

(** It does not cross an integer. *)
Lemma round_even_le (q : Q) (n : Z) : (q <= inject_Z n)%Q -> round_even q <= n.
Proof.
  intros H. destruct (floor_bounds q) as [F1 F2].
  assert (Hf : Qfloor q <= n).
  { rewrite <- (Qfloor_Z n). apply Qfloor_resp_le. exact H. }
  unfold round_even.
  destruct (Qcompare_spec (q - inject_Z (Qfloor q)) (1 # 2)) as [E|E|E];
    [destruct (Z.even (Qfloor q)) | | ]; try exact Hf;
    (destruct (Z.eq_dec (Qfloor q) n) as [Heq|Hne]; [|lia];
     rewrite Heq in *; set (f := inject_Z n) in *; lra).
Qed.

Lemma round_even_ge (q : Q) (n : Z) : (inject_Z n <= q)%Q -> n <= round_even q.
Proof.
  intros H.
  assert (Hf : n <= Qfloor q).
  { rewrite <- (Qfloor_Z n). apply Qfloor_resp_le. exact H. }
  destruct (round_even_cases q) as [-> | ->]; lia.
Qed.

Lemma pow2_pos (e : Z) : (0 < pow2 e)%Q.
Proof. apply Qpower_0_lt. reflexivity. Qed.

Lemma pow2_add (a b : Z) : (pow2 (a + b) == pow2 a * pow2 b)%Q.
Proof. apply Qpower_plus. discriminate. Qed.

Lemma pow2_Z (n : Z) : 0 <= n -> (pow2 n == inject_Z (2 ^ n))%Q.
Proof. intros Hn. unfold pow2. rewrite Zpower_Qpower by exact Hn. reflexivity. Qed.

(** [pow2 j] is a multiple of [pow2 e] for [e <= j]. *)
Lemma pow2_multiple (e j : Z) :
  e <= j -> (pow2 j == inject_Z (2 ^ (j - e)) * pow2 e)%Q.
Proof.
  intros H. rewrite <- pow2_Z by lia. rewrite <- pow2_add.
  replace (j - e + e) with j by lia. reflexivity.
Qed.

(** Below [2 ^ (j + 53)] the unit in the last place is at most [2 ^ j]. *)
Lemma ulp_exponent_le (q : Q) (j : Z) :
  -1074 <= j -> (Qabs q < pow2 (j + 53))%Q -> ulp_exponent q <= j.
Proof.
  intros Hj Hq. unfold ulp_exponent. apply Z.max_lub; [|exact Hj].
  set (n := Qfloor (Qabs q * pow2 1074)).
  assert (Hn0 : 0 <= n).
  { subst n. rewrite <- (Qfloor_Z 0). apply Qfloor_resp_le.
    apply Qmult_le_0_compat; [apply Qabs_nonneg | apply Qlt_le_weak, pow2_pos]. }
  destruct (Z.eq_dec n 0) as [->|Hn]; [cbn; lia|].
  assert (Hlt : n < 2 ^ (j + 1127)).
  { rewrite Zlt_Qlt. rewrite <- pow2_Z by lia.
    apply Qle_lt_trans with (Qabs q * pow2 1074)%Q; [apply Qfloor_le|].
    replace (j + 1127) with (j + 53 + 1074) by lia. rewrite pow2_add.
    apply Qmult_lt_compat_r; [apply pow2_pos | exact Hq]. }
  apply Z.log2_lt_pow2 in Hlt; lia.
Qed.

Lemma fround_scaled (q : Q) :
  (q == q / pow2 (ulp_exponent q) * pow2 (ulp_exponent q))%Q.
Proof.
  field. intros H. pose proof (pow2_pos (ulp_exponent q)) as P. rewrite H in P.
  discriminate P.
Qed.

(** Rounding does not cross a double: a multiple of the unit in the
    last place. *)
Lemma fround_le (q : Q) (k j : Z) :
  ulp_exponent q <= j ->
  (q <= inject_Z k * pow2 j)%Q -> (fround q <= inject_Z k * pow2 j)%Q.
Proof.
  intros He Hq. unfold fround. cbv zeta.
  set (e := ulp_exponent q) in *.
  pose proof (pow2_pos e) as P.
  rewrite (pow2_multiple e j He) in *. rewrite Qmult_assoc in *.
  rewrite <- inject_Z_mult in *.
  apply Qmult_le_compat_r; [|apply Qlt_le_weak, P].
  rewrite <- Zle_Qle. apply round_even_le.
  apply Qle_shift_div_r; assumption.
Qed.

Lemma fround_ge (q : Q) (k j : Z) :
  ulp_exponent q <= j ->
  (inject_Z k * pow2 j <= q)%Q -> (inject_Z k * pow2 j <= fround q)%Q.
Proof.
  intros He Hq. unfold fround. cbv zeta.
  set (e := ulp_exponent q) in *.
  pose proof (pow2_pos e) as P.
  rewrite (pow2_multiple e j He) in *. rewrite Qmult_assoc in *.
  rewrite <- inject_Z_mult in *.
  apply Qmult_le_compat_r; [|apply Qlt_le_weak, P].
  rewrite <- Zle_Qle. apply round_even_ge.
  apply Qle_shift_div_l; assumption.
Qed.

(** And it is off by half a unit in the last place at most. *)
Lemma fround_error (q : Q) (j : Z) :
  ulp_exponent q <= j ->
  (Qabs (fround q - q) <= pow2 j * (1 # 2))%Q.
Proof.
  intros He.
  pose proof (fround_scaled q) as Hs. unfold fround. cbv zeta.
  set (e := ulp_exponent q) in *.
  pose proof (pow2_pos e) as P.
  destruct (round_even_near (q / pow2 e)) as [N1 N2].
  assert (Hje : (pow2 e <= pow2 j)%Q).
  { rewrite (pow2_multiple e j He).
    assert (H1 : (1 <= inject_Z (2 ^ (j - e)))%Q).
    { change 1%Q with (inject_Z 1). rewrite <- Zle_Qle.
      pose proof (Z.pow_pos_nonneg 2 (j - e)). lia. }
    set (c := inject_Z (2 ^ (j - e))) in *. nra. }
  set (y := (q / pow2 e)%Q) in *. set (m := inject_Z (round_even y)) in *.
  set (p := pow2 e) in *. set (pj := pow2 j) in *.
  apply Qabs_Qle_condition. rewrite Hs. split; nra.
Qed.

(** Both for a value between two doubles [-c] and [c] below
    [2 ^ (j + 53)]. *)
Lemma fround_within (q : Q) (k j : Z) :
  -1074 <= j ->
  (inject_Z k * pow2 j < pow2 (j + 53))%Q ->
  (- (inject_Z k * pow2 j) <= q)%Q -> (q <= inject_Z k * pow2 j)%Q ->
  (- (inject_Z k * pow2 j) <= fround q)%Q /\ (fround q <= inject_Z k * pow2 j)%Q /\
  (Qabs (fround q - q) <= pow2 j * (1 # 2))%Q.
Proof.
  intros Hj Hk Hlo Hhi.
  assert (He : ulp_exponent q <= j).
  { apply ulp_exponent_le; [exact Hj|].
    apply Qle_lt_trans with (inject_Z k * pow2 j)%Q; [|exact Hk].
    apply Qabs_Qle_condition. split; assumption. }
  split; [|split].
  - assert (E : (- (inject_Z k * pow2 j) == inject_Z (- k) * pow2 j)%Q)
      by (rewrite inject_Z_opp; ring).
    rewrite E in *. apply fround_ge; assumption.
  - apply fround_le; assumption.
  - apply fround_error; exact He.
Qed.

End Doubles.


Section PayloadPosition.

Import Qt FanetPayload.

#[local] Arguments PayloadFields.at_checked : simpl never.
#[local] Arguments qRound : simpl never.
#[local] Arguments testFlag : simpl never.
#[local] Arguments testFlags : simpl never.
#[local] Arguments Platform.char_to_int : simpl never.
#[local] Arguments bit_set : simpl never.
#[local] Arguments PayloadFields.coord_int : simpl never.
#[local] Arguments speed_byte : simpl never.
#[local] Arguments fround : simpl never.
#[local] Arguments pow2 : simpl never.
#[local] Arguments qRound_double : simpl never.

Lemma lor_shiftl_add (a b n : Z) :
  0 <= n -> 0 <= a < 2 ^ n -> Z.lor a (Z.shiftl b n) = a + b * 2 ^ n.
Proof.
  intros Hn Ha.
  assert (Hdisj : Z.land a (Z.shiftl b n) = 0).
  { apply Z.bits_inj'. intros k Hk. rewrite Z.land_spec, Z.bits_0.
    destruct (Z.lt_ge_cases k n).
    - rewrite Z.shiftl_spec_low by lia. apply andb_false_r.
    - destruct (Z.eq_dec a 0) as [->|]; [rewrite Z.bits_0; reflexivity|].
      rewrite (Z.bits_above_log2 a k); [reflexivity | lia |].
      apply Z.lt_le_trans with n; [|lia]. apply Z.log2_lt_pow2; lia. }
  rewrite <- Z.lxor_lor by exact Hdisj.
  rewrite <- Z.add_nocarry_lxor by exact Hdisj.
  rewrite Z.shiftl_mul_pow2 by lia. reflexivity.
Qed.

Lemma bit7_set (b : Z) : 0 <= b < 256 -> bit_set b 0x80 = (128 <=? b).
Proof.
  intros Hb.
  pose proof (byte_cases (fun b => Bool.eqb (bit_set b 0x80) (128 <=? b))
                ltac:(vm_compute; reflexivity) b Hb) as H.
  apply Bool.eqb_prop in H. exact H.
Qed.

(** The three bytes the encoder writes for a scaled coordinate. *)
Lemma coord_bytes (x : Z) :
  Z.land x 0x000000FF = x mod 256 /\
  Z.shiftr (Z.land x 0x0000FF00) 8 = (x / 256) mod 256 /\
  Z.shiftr (Z.land x 0x00FF0000) 16 = (x / 65536) mod 256.
Proof.
  split; [|split].
  - change 0x000000FF with (Z.ones 8). rewrite Z.land_ones by lia. reflexivity.
  - rewrite Z.shiftr_land. change (Z.shiftr 0x0000FF00 8) with (Z.ones 8).
    rewrite Z.land_ones, Z.shiftr_div_pow2 by lia. reflexivity.
  - rewrite Z.shiftr_land. change (Z.shiftr 0x00FF0000 16) with (Z.ones 8).
    rewrite Z.land_ones, Z.shiftr_div_pow2 by lia. reflexivity.
Qed.

(** A value of 24 bits, two's complement, comes back from its bytes. *)
Lemma coord_int_roundtrip (x : Z) :
  - 2 ^ 23 <= x < 2 ^ 23 ->
  PayloadFields.coord_int (x mod 256) ((x / 256) mod 256) ((x / 65536) mod 256) = x.
Proof.
  intros Hx. change (2 ^ 23) with 8388608 in Hx.
  assert (H0 : 0 <= x mod 256 < 256) by (apply Z.mod_pos_bound; lia).
  assert (H1 : 0 <= (x / 256) mod 256 < 256) by (apply Z.mod_pos_bound; lia).
  assert (H2 : 0 <= (x / 65536) mod 256 < 256) by (apply Z.mod_pos_bound; lia).
  set (b0 := x mod 256) in *. set (b1 := (x / 256) mod 256) in *.
  set (b2 := (x / 65536) mod 256) in *.
  assert (Hy : x mod 16777216 = b0 + b1 * 256 + b2 * 65536).
  { subst b0 b1 b2.
    pose proof (Z.div_mod x 256 ltac:(lia)) as E0.
    pose proof (Z.div_mod (x / 256) 256 ltac:(lia)) as E1.
    assert (E2 : x / 65536 = x / 256 / 256) by (rewrite Z.div_div by lia; reflexivity).
    pose proof (Z.div_mod (x / 65536) 256 ltac:(lia)) as E3.
    assert (E4 : x / 65536 / 256 = x / 16777216) by (rewrite Z.div_div by lia; reflexivity).
    pose proof (Z.div_mod x 16777216 ltac:(lia)) as E5.
    lia. }
  unfold PayloadFields.coord_int. rewrite bit7_set by assumption.
  rewrite (lor_shiftl_add b0 b1 8) by (change (2 ^ 8) with 256; lia).
  rewrite (lor_shiftl_add (b0 + b1 * 2 ^ 8) b2 16)
    by (change (2 ^ 8) with 256; change (2 ^ 16) with 65536; lia).
  change (2 ^ 8) with 256. change (2 ^ 16) with 65536.
  change (2 ^ 31) with 2147483648. change (2 ^ 32) with 4294967296.
  rewrite <- Hy.
  assert (Hm : 0 <= x mod 16777216 < 16777216) by (apply Z.mod_pos_bound; lia).
  destruct (Z.leb_spec 128 b2) as [Hneg|Hpos].
  - change 0xFF000000 with (Z.shiftl 0xFF 24).
    rewrite (lor_shiftl_add _ 0xFF 24) by (change (2 ^ 24) with 16777216; lia).
    change (2 ^ 24) with 16777216.
    assert (Hxneg : x < 0).
    { destruct (Z.lt_ge_cases x 0); [assumption|].
      rewrite Z.mod_small in Hy by lia. lia. }
    assert (Hxm : x mod 16777216 = x + 16777216).
    { symmetry. apply (Z.mod_unique x 16777216 (-1)); lia. }
    rewrite Hxm. destruct (Z.leb_spec 2147483648 (x + 16777216 + 255 * 16777216)); lia.
  - rewrite Z.lor_0_r.
    assert (Hxpos : 0 <= x).
    { destruct (Z.lt_ge_cases x 0) as [Hn|]; [|assumption].
      assert (Hxm : x mod 16777216 = x + 16777216)
        by (symmetry; apply (Z.mod_unique x 16777216 (-1)); lia).
      lia. }
    rewrite Z.mod_small by lia. destruct (Z.leb_spec 2147483648 x); lia.
Qed.

Lemma coord_isValid_iff (lat lon : Q) :
  coord_isValid (Some (lat, lon)) = true <->
  (-90 <= lat)%Q /\ (lat <= 90)%Q /\ (-180 <= lon)%Q /\ (lon <= 180)%Q.
Proof.
  unfold coord_isValid. rewrite !andb_true_iff, !Qle_bool_iff. tauto.
Qed.

Lemma scaled_in_range (a : Z) (k : Q) (n : Q) :
  (0 < k)%Q -> (k * n == 8388540)%Q -> -8388540 <= a <= 8388540 ->
  (- n <= inject_Z a / k)%Q /\ (inject_Z a / k <= n)%Q.
Proof.
  intros Hk Hn [H1 H2]. rewrite Zle_Qle in H1, H2.
  change (inject_Z (-8388540)) with (-8388540)%Q in H1.
  change (inject_Z 8388540) with 8388540%Q in H2.
  set (x := inject_Z a) in *.
  split.
  - apply Qle_shift_div_l; [exact Hk|]. nra.
  - apply Qle_shift_div_r; [exact Hk|]. nra.
Qed.

Lemma scale_top : (inject_Z (8388540 * 2 ^ 29) * pow2 (-29) == 8388540)%Q.
Proof. reflexivity. Qed.

Lemma scale_top_half :
  (inject_Z (16777081 * 2 ^ 28) * pow2 (-29) == 8388540 + (1 # 2))%Q.
Proof. reflexivity. Qed.

Lemma scale_ulp : (pow2 (-29) * (1 # 2) == 1 # 1073741824)%Q.
Proof. reflexivity. Qed.

(** A product of at most 8388540 in absolute value, rounded to double and
    then by [qRound]: the integer fits 24 bits and is at most a half
    and two rounding errors off. *)
Lemma scaled_coordinate (x : Q) :
  (-8388540 <= x)%Q -> (x <= 8388540)%Q ->
  -8388540 <= qRound_double (fround x) <= 8388540 /\
  (Qabs (inject_Z (qRound_double (fround x)) - x) <= (1 # 2) + (1 # 536870912))%Q.
Proof.
  intros Hlo Hhi.
  pose proof scale_top as E1. pose proof scale_top_half as E2.
  pose proof scale_ulp as E3.
  destruct (fround_within x (8388540 * 2 ^ 29) (-29)) as (D1 & D2 & D3);
    [lia | reflexivity | rewrite E1; exact Hlo | rewrite E1; exact Hhi |].
  rewrite E1 in D1, D2. rewrite E3 in D3. clear E1.
  apply Qabs_Qle_condition in D3. destruct D3 as [D3 D4].
  set (d := fround x) in *.
  unfold qRound_double. destruct (Qle_bool 0 d) eqn:Hs.
  - apply Qle_bool_iff in Hs.
    destruct (fround_within (d + (1 # 2)) (16777081 * 2 ^ 28) (-29)) as (Y1 & Y2 & Y3);
      [lia | reflexivity | rewrite E2; clear E2 E3; lra
       | rewrite E2; clear E2 E3; lra |].
    rewrite E2 in Y2. rewrite E3 in Y3. clear E2 E3 Y1.
    apply Qabs_Qle_condition in Y3. destruct Y3 as [Y3 Y4].
    set (y := fround (d + (1 # 2))) in *.
    destruct (floor_bounds y) as [F1 F2].
    assert (B1 : Qfloor y <= 8388540).
    { apply Qfloor_resp_le in Y2.
      change (Qfloor (8388540 + (1 # 2))) with 8388540 in Y2. exact Y2. }
    assert (B2 : 0 <= Qfloor y).
    { rewrite <- (Qfloor_Z 0). apply Qfloor_resp_le. change (inject_Z 0) with 0%Q. lra. }
    split; [lia|].
    set (f := inject_Z (Qfloor y)) in *.
    apply Qabs_Qle_condition. split; lra.
  - assert (Hneg : (d < 0)%Q).
    { destruct (Qlt_le_dec d 0) as [|Hge]; [assumption|].
      apply Qle_bool_iff in Hge. congruence. }
    destruct (fround_within (d - (1 # 2)) (16777081 * 2 ^ 28) (-29)) as (Y1 & Y2 & Y3);
      [lia | reflexivity | rewrite E2; clear E2 E3; lra
       | rewrite E2; clear E2 E3; lra |].
    rewrite E2 in Y1. rewrite E3 in Y3. clear E2 E3 Y2.
    apply Qabs_Qle_condition in Y3. destruct Y3 as [Y3 Y4].
    set (y := fround (d - (1 # 2))) in *.
    destruct (ceiling_bounds y) as [F1 F2].
    assert (B1 : -8388540 <= Qceiling y).
    { apply Qceiling_resp_le in Y1.
      change (Qceiling (- (8388540 + (1 # 2)))) with (-8388540) in Y1. exact Y1. }
    assert (B2 : Qceiling y <= 0).
    { rewrite <- (Qceiling_Z 0). apply Qceiling_resp_le. change (inject_Z 0) with 0%Q. lra. }
    split; [lia|].
    set (f := inject_Z (Qceiling y)) in *.
    apply Qabs_Qle_condition. split; lra.
Qed.
(** What [position] makes of a stored integer: a coordinate within the
    range, a rounding error from the quotient. *)
Lemma decoded_coordinate (a : Z) (s lim : Q) (c j : Z) :
  (0 < s)%Q -> (s * lim == 8388540)%Q -> -1074 <= j ->
  (inject_Z c * pow2 j == lim)%Q -> (lim < pow2 (j + 53))%Q ->
  -8388540 <= a <= 8388540 ->
  (- lim <= fround (inject_Z a / s))%Q /\ (fround (inject_Z a / s) <= lim)%Q /\
  (Qabs (fround (inject_Z a / s) - inject_Z a / s) <= pow2 j * (1 # 2))%Q.
Proof.
  intros Hs Hlim Hj Hc Hp Ha.
  destruct (scaled_in_range a s lim Hs Hlim Ha) as [V1 V2].
  rewrite <- Hc in V1, V2, Hp. rewrite <- Hc.
  apply fround_within; assumption.
Qed.

(** X6.  When the header announces no extended header, the position of a
    Service payload made by [servicePayload] from a valid coordinate is
    read back from the right bytes: the integers the encoder rounded
    the scaled coordinates to survive the 24 bits and the sign
    extension, and the quotients [position] makes of them are valid
    coordinates.  With the roundings of the double arithmetic on the
    way, latitude and longitude come back to within half a unit of
    their scales and 10^-13 degrees. *)
Theorem service_position_roundtrip (header : Z) (lat lon : Q)
    (temp dir wind gusts humidity pressure : Z) :
  0 <= header < 256 ->
  testFlag header SHExtendedHeader = false ->
  coord_isValid (Some (lat, lon)) = true ->
  let p := servicePayload header (Some (lat, lon)) temp dir wind gusts humidity pressure in
  let ilat := qRound_double (fround (lat * 93206)) in
  let ilon := qRound_double (fround (lon * 46603)) in
  let lat' := fround (inject_Z ilat / 93206) in
  let lon' := fround (inject_Z ilon / 46603) in
  PayloadFields.position p = Some (Some (lat', lon')) /\
  (Qabs (lat' - lat) <= (1 # 186412) + (1 # 10000000000000))%Q /\
  (Qabs (lon' - lon) <= (1 # 93206) + (1 # 10000000000000))%Q.
Proof.
  intros Hh Hext Hpos p ilat ilon lat' lon'.
  pose proof (proj1 (coord_isValid_iff lat lon) Hpos) as (L1 & L2 & L3 & L4).
  destruct (scaled_coordinate (lat * 93206)) as [Blat Nlat]; [lra | lra |].
  destruct (scaled_coordinate (lon * 46603)) as [Blon Nlon]; [lra | lra |].
  fold ilat in Blat, Nlat. fold ilon in Blon, Nlon.
  destruct (decoded_coordinate ilat 93206 90 (90 * 2 ^ 46) (-46))
    as (V1 & V2 & V3); [reflexivity | reflexivity | lia | reflexivity | reflexivity
                        | exact Blat |].
  destruct (decoded_coordinate ilon 46603 180 (180 * 2 ^ 45) (-45))
    as (W1 & W2 & W3); [reflexivity | reflexivity | lia | reflexivity | reflexivity
                        | exact Blon |].
  fold lat' in V1, V2, V3. fold lon' in W1, W2, W3.
  split; [|split].
  - subst p. unfold servicePayload. rewrite Hpos.
    cbn [latitude longitude]. fold ilat ilon.
    destruct (coord_bytes ilat) as (A0 & A1 & A2).
    destruct (coord_bytes ilon) as (B0 & B1 & B2).
    rewrite A0, A1, A2, B0, B1, B2.
    assert (Hshape : forall rest,
               PayloadFields.position
                 (mk PTService
                    ([header mod 256]
                     ++ [ilat mod 256; (ilat / 256) mod 256; (ilat / 65536) mod 256;
                         ilon mod 256; (ilon / 256) mod 256; (ilon / 65536) mod 256]
                     ++ rest))
               = Some (Some (lat', lon'))).
    { intros rest. unfold PayloadFields.position. cbn [m_type m_data app].
      rewrite at_checked_cons0. cbn [bind ret Monad_option].
      rewrite Z.mod_small by lia.
      assert (Hx : testFlags (Platform.char_to_int header) SHExtendedHeader = false).
      { rewrite <- Hext. revert Hh. clear. intros Hh.
        pose proof (byte_cases
                      (fun h => Bool.eqb (testFlags (Platform.char_to_int h) SHExtendedHeader)
                                         (testFlag h SHExtendedHeader))
                      ltac:(vm_compute; reflexivity) header Hh) as H.
        apply Bool.eqb_prop in H. exact H. }
      rewrite Hx.
      assert (Hsz : (dsize (header :: ilat mod 256 :: (ilat / 256) mod 256
                           :: (ilat / 65536) mod 256 :: ilon mod 256
                           :: (ilon / 256) mod 256 :: (ilon / 65536) mod 256 :: rest)
                    <? PayloadFields.POS_SIZE + 1) = false).
      { apply Z.ltb_ge. unfold dsize, PayloadFields.POS_SIZE. cbn [length]. lia. }
      rewrite Hsz.
      unfold PayloadFields.position_at.
      change (PayloadFields.at_checked (header :: ?a :: ?l) (1 + 0)) with (Some a).
      cbn [bind ret Monad_option].
      change (PayloadFields.at_checked (header :: ?a :: ?b :: ?l) (1 + 1)) with (Some b).
      cbn [bind ret Monad_option].
      change (PayloadFields.at_checked (header :: ?a :: ?b :: ?c :: ?l) (1 + 2)) with (Some c).
      cbn [bind ret Monad_option].
      change (PayloadFields.at_checked (header :: ?a :: ?b :: ?c :: ?d :: ?l) (1 + 3)) with (Some d).
      cbn [bind ret Monad_option].
      change (PayloadFields.at_checked (header :: ?a :: ?b :: ?c :: ?d :: ?e :: ?l) (1 + 4))
        with (Some e).
      cbn [bind ret Monad_option].
      change (PayloadFields.at_checked (header :: ?a :: ?b :: ?c :: ?d :: ?e :: ?f :: ?l) (1 + 5))
        with (Some f).
      cbn [bind ret Monad_option]. cbv zeta.
      rewrite !coord_int_roundtrip by (change (2 ^ 23) with 8388608; lia).
      fold lat' lon'. unfold PayloadFields.QGeoCoordinate_make.
      assert (Hv : coord_isValid (Some (lat', lon')) = true)
        by (apply coord_isValid_iff; auto).
      rewrite Hv. reflexivity. }
    destruct (testFlag header SHTemperature), (testFlag header SHWind),
      (testFlag header SHHumidity), (testFlag header SHPressure);
      rewrite <- ?app_assoc; try apply Hshape.
  - clear V1 V2 W1 W2 W3 Nlon.
    assert (E : (pow2 (-46) * (1 # 2) == 1 # 140737488355328)%Q) by reflexivity.
    rewrite E in V3. clear E.
    apply Qabs_Qle_condition in V3, Nlat. destruct V3 as [V3 V4], Nlat as [N1 N2].
    unfold Qdiv in V3, V4. change (/ 93206)%Q with (1 # 93206)%Q in V3, V4.
    set (r := inject_Z ilat) in *. clearbody r. clearbody lat'.
    apply Qabs_Qle_condition. split; lra.
  - clear V1 V2 V3 W1 W2 Nlat.
    assert (E : (pow2 (-45) * (1 # 2) == 1 # 70368744177664)%Q) by reflexivity.
    rewrite E in W3. clear E.
    apply Qabs_Qle_condition in W3, Nlon. destruct W3 as [W3 W4], Nlon as [N1 N2].
    unfold Qdiv in W3, W4. change (/ 46603)%Q with (1 # 46603)%Q in W3, W4.
    set (r := inject_Z ilon) in *. clearbody r. clearbody lon'.
    apply Qabs_Qle_condition. split; lra.
Qed.

(** At 47.5 and 10.25 degrees the products are exact; at the latitude
    1147981586452395 / 2^52 the product, not a double, rounds to
    23758.5 and 23759 is stored. *)
Lemma service_position_roundtrip_witness :
  PayloadFields.position
    (servicePayload (Z.lor SHWind SHTemperature) (Some (47.5, 10.25)%Q) 215 90 80 150 0 0)
  = Some (Some (fround (inject_Z 4427285 / 93206), fround (inject_Z 477681 / 46603))) /\
  PayloadFields.position
    (servicePayload SHWind
       (Some ((1147981586452395 # 4503599627370496)%Q, 10.25%Q)) 0 90 80 150 0 0)
  = Some (Some (fround (inject_Z 23759 / 93206), fround (inject_Z 477681 / 46603))).
Proof.
  split.
  - apply (service_position_roundtrip (Z.lor SHWind SHTemperature) 47.5%Q 10.25%Q
             215 90 80 150 0 0); [cbn; lia | reflexivity | reflexivity].
  - apply (service_position_roundtrip SHWind
             (1147981586452395 # 4503599627370496)%Q 10.25%Q
             0 90 80 150 0 0);
      [split; [apply Z.leb_le | apply Z.ltb_lt]; reflexivity | reflexivity | reflexivity].
Defined.

End PayloadPosition.

Section PayloadAcceptance.

Import Qt FanetPayload.

#[local] Arguments qRound : simpl never.
#[local] Arguments testFlag : simpl never.
#[local] Arguments testFlags : simpl never.
#[local] Arguments Platform.char_to_int : simpl never.
#[local] Arguments speed_byte : simpl never.

(** The size [fromReceivedData] expects of a Service payload with the
    header byte [h], and the size [servicePayload] writes. *)
Lemma service_expected_size (h : Z) (rest : list Z) :
  fromReceivedData (Some PTService) (h :: rest)
  = let header := Platform.char_to_int h in
    let expectedSize :=
      1 + (if negb (Z.land header
                      (Z.lnot (Z.lor (Z.lor SHExtendedHeader SHInternetGateway)
                                     SHSupportRemoteConfig)) =? 0)
           then 6 else 0)
        + (if testFlag header SHExtendedHeader then 1 else 0)
        + (if testFlag header SHTemperature then 1 else 0)
        + (if testFlag header SHWind then 3 else 0)
        + (if testFlag header SHHumidity then 1 else 0)
        + (if testFlag header SHPressure then 2 else 0)
        + (if testFlag header SHStateOfCharge then 1 else 0) in
    if dsize (h :: rest) <? expectedSize
    then (mk PTInvalid (h :: rest), Some WarnServiceSize)
    else (mk PTService (h :: rest), None).
Proof. reflexivity. Qed.

Lemma servicePayload_written (header : Z) pos temp dir wind gusts humidity pressure :
  exists rest,
    data (servicePayload header pos temp dir wind gusts humidity pressure)
    = header mod 256 :: rest /\
    dsize (header mod 256 :: rest)
    = 7 + (if testFlag header SHTemperature then 1 else 0)
        + (if testFlag header SHWind then 3 else 0)
        + (if testFlag header SHHumidity then 1 else 0)
        + (if testFlag header SHPressure then 2 else 0).
Proof.
  unfold servicePayload, data.
  destruct (testFlag header SHTemperature), (testFlag header SHWind),
    (testFlag header SHHumidity), (testFlag header SHPressure);
    cbn [m_data app]; eexists; (split; [reflexivity | reflexivity]).
Qed.

(** X7.  What [servicePayload] wrote goes through the size check of
    [fromReceivedData] when the header has neither the ExtendedHeader
    nor the StateOfCharge bit; with the StateOfCharge bit, or with the
    ExtendedHeader bit next to a data section, it is rejected as too
    short: the encoder writes no byte for either. *)
Theorem service_payload_acceptance (header : Z) pos temp dir wind gusts humidity pressure :
  0 <= header < 256 ->
  let p := servicePayload header pos temp dir wind gusts humidity pressure in
  (testFlag header SHExtendedHeader = false ->
   testFlag header SHStateOfCharge = false ->
   fromReceivedData (Some PTService) (data p) = (p, None)) /\
  (testFlag header SHStateOfCharge = true \/
   testFlag header SHExtendedHeader = true /\
   (testFlag header SHTemperature = true \/ testFlag header SHWind = true \/
    testFlag header SHHumidity = true \/ testFlag header SHPressure = true) ->
   fromReceivedData (Some PTService) (data p)
   = (mk PTInvalid (data p), Some WarnServiceSize)).
Proof.
  intros Hh p.
  destruct (servicePayload_written header pos temp dir wind gusts humidity pressure)
    as (rest & Hd & Hsz).
  assert (Hp : p = mk PTService (data p)) by reflexivity.
  subst p. rewrite Hp at 2. rewrite Hd, service_expected_size. cbv zeta. rewrite Hsz.
  rewrite Z.mod_small by lia.
  pose proof (byte_cases
    (fun h =>
       let c := Platform.char_to_int h in
       let written :=
         7 + (if testFlag h SHTemperature then 1 else 0)
           + (if testFlag h SHWind then 3 else 0)
           + (if testFlag h SHHumidity then 1 else 0)
           + (if testFlag h SHPressure then 2 else 0) in
       let expected :=
         1 + (if negb (Z.land c (Z.lnot (Z.lor (Z.lor SHExtendedHeader SHInternetGateway)
                                               SHSupportRemoteConfig)) =? 0)
              then 6 else 0)
           + (if testFlag c SHExtendedHeader then 1 else 0)
           + (if testFlag c SHTemperature then 1 else 0)
           + (if testFlag c SHWind then 3 else 0)
           + (if testFlag c SHHumidity then 1 else 0)
           + (if testFlag c SHPressure then 2 else 0)
           + (if testFlag c SHStateOfCharge then 1 else 0) in
       let short := written <? expected in
       (if negb (testFlag h SHExtendedHeader) && negb (testFlag h SHStateOfCharge)
        then negb short else true)
       && (if testFlag h SHStateOfCharge
              || (testFlag h SHExtendedHeader
                  && (testFlag h SHTemperature || testFlag h SHWind
                      || testFlag h SHHumidity || testFlag h SHPressure))
           then short else true))
    ltac:(vm_compute; reflexivity) header Hh) as Hall.
  cbv zeta in Hall. apply andb_true_iff in Hall. destruct Hall as [Hacc Hrej].
  split.
  - intros He Hs. rewrite He, Hs in Hacc. cbn [negb andb] in Hacc.
    apply negb_true_iff in Hacc. rewrite Hacc. reflexivity.
  - intros Hc.
    assert (Hcond : testFlag header SHStateOfCharge
                    || (testFlag header SHExtendedHeader
                        && (testFlag header SHTemperature || testFlag header SHWind
                            || testFlag header SHHumidity || testFlag header SHPressure))
                    = true).
    { destruct Hc as [-> | [-> [-> | [-> | [-> | ->]]]]];
        rewrite ?orb_true_r, ?orb_true_l; reflexivity. }
    rewrite Hcond in Hrej. rewrite Hrej. reflexivity.
Qed.

Lemma service_payload_acceptance_witness :
  fromReceivedData (Some PTService)
    (data (servicePayload (Z.lor SHWind SHTemperature) (Some (47.5, 10.25)%Q)
             215 90 80 150 0 0))
  = (servicePayload (Z.lor SHWind SHTemperature) (Some (47.5, 10.25)%Q) 215 90 80 150 0 0,
     None).
Proof.
  apply (service_payload_acceptance (Z.lor SHWind SHTemperature) (Some (47.5, 10.25)%Q)
           215 90 80 150 0 0); [cbn; lia | reflexivity | reflexivity].
Defined.

End PayloadAcceptance.

(** ** Received packets (receiveevent.cpp) *)

Section ReceivedPackets.

Import Qt Fields.

Lemma split_acc_field (sep : ascii) (a rest cur : QByteArray) :
  free_of sep a ->
  split_acc sep (a ++ sep :: rest) cur = (rev cur ++ a) :: split_acc sep rest [].
Proof.
  revert cur. induction a as [|c a IH]; intros cur Ha.
  - cbn. rewrite Ascii.eqb_refl, app_nil_r. reflexivity.
  - inversion Ha as [|? ? Hc Ha']; subst. cbn [app split_acc]. rewrite Hc.
    rewrite IH by assumption. cbn [rev]. rewrite <- app_assoc. reflexivity.
Qed.

Lemma split_acc_last (sep : ascii) (a cur : QByteArray) :
  free_of sep a -> split_acc sep a cur = [rev cur ++ a].
Proof.
  revert cur. induction a as [|c a IH]; intros cur Ha.
  - cbn. rewrite app_nil_r. reflexivity.
  - inversion Ha as [|? ? Hc Ha']; subst. cbn [split_acc]. rewrite Hc.
    rewrite IH by assumption. cbn [rev]. rewrite <- app_assoc. reflexivity.
Qed.

(** Splitting undoes joining, as long as no field holds the separator. *)
Lemma split_join (sep : ascii) (fields : list QByteArray) :
  fields <> [] -> Forall (free_of sep) fields ->
  split_acc sep (join sep fields) [] = fields.
Proof.
  induction fields as [|f rest IH]; intros Hne Hf; [congruence|].
  inversion Hf as [|? ? Hf1 Hrest]; subst.
  destruct rest as [|g rest'].
  - cbn [join]. rewrite split_acc_last by assumption. reflexivity.
  - change (join sep (f :: g :: rest')) with (f ++ sep :: join sep (g :: rest')).
    rewrite split_acc_field by assumption. rewrite IH by (congruence || assumption).
    reflexivity.
Qed.

Lemma trim_inside (sp : ascii -> bool) (c l : ascii) (s : QByteArray) :
  sp c = false -> sp l = false -> trim sp (c :: s ++ [l]) = c :: s ++ [l].
Proof.
  intros Hc Hl. unfold trim. cbn [dropWhile]. rewrite Hc.
  change (c :: s ++ [l]) with ((c :: s) ++ [l]).
  set (x := c :: s). rewrite rev_app_distr.
  change (rev [l] ++ rev x) with (l :: rev x).
  cbn [dropWhile]. rewrite Hl.
  change (rev (l :: rev x)) with (rev (rev x) ++ [l]).
  rewrite rev_involutive. reflexivity.
Qed.

Lemma digit_val_digit_char (k : Z) : 0 <= k < 16 -> digit_val (digit_char k) = Some k.
Proof.
  intros Hk.
  assert (H : In k (map Z.of_nat (seq 0 16))).
  { apply in_map_iff. exists (Z.to_nat k). split; [lia | apply in_seq; lia]. }
  cbn in H.
  repeat (destruct H as [H|H]; [subst k; reflexivity|]); contradiction.
Qed.

Lemma rev_flat_map {A B} (f : A -> list B) (l : list A) :
  rev (flat_map f l) = flat_map (fun x => rev (f x)) (rev l).
Proof.
  induction l as [|x l IH]; [reflexivity|].
  cbn [flat_map rev]. rewrite rev_app_distr, IH, flat_map_app. cbn [flat_map].
  rewrite app_nil_r. reflexivity.
Qed.

Lemma hex_nibbles_toHex (d : list Z) :
  hex_nibbles (Qt.toHex d) = flat_map (fun b => [(b mod 256) / 16; b mod 16]) d.
Proof.
  induction d as [|b d IH]; [reflexivity|].
  unfold Qt.toHex, hex_nibbles in *. cbn [flat_map app]. rewrite IH.
  rewrite !digit_val_digit_char.
  - destruct (Z.ltb_spec ((b mod 256) / 16) 16) as [|Hge];
      [|assert (0 <= b mod 256 < 256) by (apply Z.mod_pos_bound; lia);
        assert ((b mod 256) / 16 < 16) by (apply Z.div_lt_upper_bound; lia); lia].
    destruct (Z.ltb_spec (b mod 16) 16) as [|Hge];
      [|assert (0 <= b mod 16 < 16) by (apply Z.mod_pos_bound; lia); lia].
    reflexivity.
  - apply Z.mod_pos_bound; lia.
  - assert (0 <= b mod 256 < 256) by (apply Z.mod_pos_bound; lia).
    split; [apply Z.div_pos; lia | apply Z.div_lt_upper_bound; lia].
Qed.

Lemma pair_nibbles_bytes (d : list Z) :
  PayloadFields.bytes d ->
  pair_nibbles (flat_map (fun b => [b mod 16; (b mod 256) / 16]) d) = d.
Proof.
  induction 1 as [|b d Hb Hd IH]; [reflexivity|].
  cbn [flat_map app pair_nibbles]. rewrite IH. f_equal.
  rewrite (Z.mod_small b 256) by lia.
  pose proof (Z.div_mod b 16 ltac:(lia)). lia.
Qed.

(** [fromHex] reads back what [toHex] wrote. *)
Lemma fromHex_toHex (d : list Z) : PayloadFields.bytes d -> fromHex (Qt.toHex d) = d.
Proof.
  intros Hd. unfold fromHex. rewrite hex_nibbles_toHex, rev_flat_map.
  cbn [rev app]. rewrite pair_nibbles_bytes.
  - apply rev_involutive.
  - unfold PayloadFields.bytes in *. apply Forall_rev. exact Hd.
Qed.

Lemma plain_not_sep (c : ascii) : Scenario.plain c -> Ascii.eqb c Tags.FANET_DATA_SEP = false.
Proof. intros (_ & H & _). exact H. Qed.

Lemma digits_acc_plain (fuel : nat) (n : Z) (acc : QByteArray) :
  Forall Scenario.plain acc -> Forall Scenario.plain (digits_acc fuel 16 n acc).
Proof.
  revert n acc. induction fuel as [|fuel IH]; intros n acc Hacc; [exact Hacc|].
  cbn [digits_acc].
  assert (Hd : Forall Scenario.plain (digit_char (n mod 16) :: acc)).
  { constructor; [|exact Hacc]. apply digit_char_plain. apply Z.mod_pos_bound. lia. }
  destruct (n / 16 =? 0); [exact Hd | apply IH, Hd].
Qed.

Lemma digits_acc_nonempty (fuel : nat) (base n : Z) (acc : QByteArray) :
  digits_acc (S fuel) base n acc <> [].
Proof.
  revert n acc. induction fuel as [|fuel IH]; intros n acc.
  - cbn. destruct (n / base =? 0); discriminate.
  - cbn [digits_acc]. destruct (n / base =? 0); [discriminate|].
    apply (IH (n / base) (digit_char (n mod base) :: acc)).
Qed.

Lemma number16_field (n : Z) :
  number n 16 <> [] /\ Forall Scenario.plain (number n 16).
Proof.
  split; [apply digits_acc_nonempty | apply digits_acc_plain; constructor].
Qed.

Lemma toHex_plain (d : list Z) : Forall Scenario.plain (Qt.toHex d).
Proof.
  induction d as [|b d IH]; [constructor|].
  change (Qt.toHex (b :: d)) with (Qt.toHex [b] ++ Qt.toHex d).
  apply Forall_app. split; [|exact IH].
  destruct (toHex_byte b) as (h1 & h2 & -> & P1 & P2).
  constructor; [exact P1 | constructor; [exact P2 | constructor]].
Qed.

Lemma plain_free (s : QByteArray) : Forall Scenario.plain s -> free_of Tags.FANET_DATA_SEP s.
Proof. apply Forall_impl. exact plain_not_sep. Qed.

Lemma plain_no_space (c : ascii) : Scenario.plain c -> qchar_isSpace c = false.
Proof. intros (H & _). exact H. Qed.

(** The fields of the frame of an event, and the body made of them. *)
Lemma event_body_fields (m d : Z) (p : FanetPayload.t) (sig : QByteArray) (bc : bool) :
  event_body (ReceiveEvent.mk (FanetAddress.mk m d) p sig bc)
  = " "%char
    :: join Tags.FANET_DATA_SEP
         [Qt.toHex [m]; Scenario.device_hex d; [if bc then "1"%char else "0"%char]; sig;
          number (FanetPayload.PayloadType_code (FanetPayload.m_type p)) 16;
          number (FanetPayload.dsize (FanetPayload.m_data p)) 16;
          Qt.toHex (FanetPayload.m_data p)].
Proof.
  unfold event_body, ReceiveEvent.serialize, FanetAddress.toHex.
  cbn [ReceiveEvent.m_addr ReceiveEvent.m_payload ReceiveEvent.m_sig ReceiveEvent.m_broadcast
       FanetAddress.m_manufacturerId FanetAddress.m_deviceId join].
  fold (Scenario.device_hex d).
  change (mid (Tags.MSG_FANET_RECEIVE ++ ?x) FanetProtocolParser.MSG_SIZE_IDENTIFIER) with x.
  cbn [app]. rewrite <- !app_assoc. cbn [app]. reflexivity.
Qed.

(** The tokens the constructor finds in such a body. *)
Lemma event_body_tokens (fields : list QByteArray) (c : ascii) (s : QByteArray) :
  join Tags.FANET_DATA_SEP fields = c :: s ->
  qchar_isSpace c = false ->
  (exists s' l, c :: s = s' ++ [l] /\ qchar_isSpace l = false) ->
  fields <> [] ->
  Forall (free_of Tags.FANET_DATA_SEP) fields ->
  split_skip_empty Tags.FANET_DATA_SEP
    (qstring_trimmed (" "%char :: join Tags.FANET_DATA_SEP fields))
  = filter (fun t => negb (isEmpty t)) fields.
Proof.
  intros Hj Hc (s' & l & Hl & Hsp) Hne Hfree.
  assert (Htrim : qstring_trimmed (" "%char :: join Tags.FANET_DATA_SEP fields)
                  = join Tags.FANET_DATA_SEP fields).
  { unfold qstring_trimmed, trim. cbn [dropWhile].
    change (qchar_isSpace " ") with true. cbv iota.
    fold (trim qchar_isSpace (join Tags.FANET_DATA_SEP fields)).
    rewrite Hj. destruct s' as [|c' s''].
    - cbn [app] in Hl. injection Hl as -> ->.
      unfold trim. cbn [dropWhile rev app]. rewrite Hc. cbn [dropWhile rev app].
      rewrite Hc. reflexivity.
    - cbn [app] in Hl. injection Hl as -> ->. apply trim_inside; assumption. }
  rewrite Htrim. unfold split_skip_empty. rewrite split_join by assumption. reflexivity.
Qed.

Lemma payload_type_text (ty : FanetPayload.PayloadType) :
  toInt 16 (number (FanetPayload.PayloadType_code ty) 16)
  = (FanetPayload.PayloadType_code ty, true) /\
  FanetPayload.PayloadType_of_int (FanetPayload.PayloadType_code ty) = Some ty.
Proof. destruct ty; split; reflexivity. Qed.

Lemma plain_no_ascii_space (c : ascii) : Scenario.plain c -> ascii_isspace c = false.
Proof.
  intros (H & _). unfold qchar_isSpace in H.
  apply orb_false_iff in H. destruct H as [H _].
  apply orb_false_iff in H. destruct H as [H _]. exact H.
Qed.

Lemma startsWith_app (p s : QByteArray) : startsWith (p ++ s) p = true.
Proof.
  induction p as [|c p IH]; [destruct s; reflexivity|].
  cbn [app startsWith]. rewrite Ascii.eqb_refl, IH. reflexivity.
Qed.

(** A frame body with the FNF tag in front is handed to the constructor
    of [ReceiveEvent]. *)
Lemma parseMessage_fnf (x : QByteArray) (l : ascii) :
  ascii_isspace l = false ->
  FanetProtocolParser.parseMessage (Tags.MSG_FANET_RECEIVE ++ x ++ [l])
  = (Some (AbstractFanetMessage.ReceiveEvent (ReceiveEvent.make (x ++ [l]))), []).
Proof.
  intros Hl. unfold FanetProtocolParser.parseMessage.
  assert (Hsz : (FanetProtocolParser.MSG_SIZE_IDENTIFIER
                 <? size (Tags.MSG_FANET_RECEIVE ++ x ++ [l])) = true).
  { apply Z.ltb_lt. unfold size, FanetProtocolParser.MSG_SIZE_IDENTIFIER.
    rewrite !length_app. cbn [length Tags.MSG_FANET_RECEIVE lit list_ascii_of_string]. lia. }
  rewrite Hsz.
  assert (Htrim : trimmed (Tags.MSG_FANET_RECEIVE ++ x ++ [l])
                  = Tags.MSG_FANET_RECEIVE ++ x ++ [l]).
  { change (Tags.MSG_FANET_RECEIVE ++ x ++ [l])
      with ("F"%char :: ("N"%char :: "F"%char :: x) ++ [l]).
    apply trim_inside; [reflexivity | exact Hl]. }
  rewrite Htrim.
  rewrite startsWith_app.
  change (mid (Tags.MSG_FANET_RECEIVE ++ x ++ [l]) FanetProtocolParser.MSG_SIZE_IDENTIFIER)
    with (x ++ [l]).
  reflexivity.
Qed.

(** The fields the constructor finds in the body of the frame of an
    event, and the last character of the body. *)
Lemma event_tokens (m d : Z) (ty : FanetPayload.PayloadType) (data : list Z)
    (sig : QByteArray) (bc : bool) :
  data <> [] -> field sig ->
  let e := ReceiveEvent.mk (FanetAddress.mk m d) (FanetPayload.mk ty data) sig bc in
  split_skip_empty Tags.FANET_DATA_SEP (qstring_trimmed (event_body e))
  = [Qt.toHex [m]; Scenario.device_hex d; [if bc then "1"%char else "0"%char]; sig;
     number (FanetPayload.PayloadType_code ty) 16;
     number (FanetPayload.dsize data) 16; Qt.toHex data] /\
  exists y l, event_body e = y ++ [l] /\ ascii_isspace l = false.
Proof.
  intros Hne [Hsig Hsigfree] e.
  pose proof (event_body_fields m d (FanetPayload.mk ty data) sig bc) as Hbody.
  fold e in Hbody. cbn [FanetPayload.m_type FanetPayload.m_data] in Hbody.
  destruct (toHex_byte m) as (h1 & h2 & Hh & P1 & P2).
  destruct (number16_field (FanetPayload.PayloadType_code ty)) as [Nt Pt].
  destruct (number16_field (FanetPayload.dsize data)) as [Ns Ps].
  pose proof (toHex_plain data) as Px.
  assert (Hxne : Qt.toHex data <> []).
  { destruct data as [|b data']; [congruence|]. discriminate. }
  destruct (exists_last Hxne) as (x0 & l0 & Hx).
  assert (Pl0 : Scenario.plain l0).
  { rewrite Forall_forall in Px. apply Px. rewrite Hx. apply in_or_app. right. left. reflexivity. }
  set (fields := [Qt.toHex [m]; Scenario.device_hex d; [if bc then "1"%char else "0"%char]; sig;
                  number (FanetPayload.PayloadType_code ty) 16;
                  number (FanetPayload.dsize data) 16; Qt.toHex data]) in *.
  assert (Hfree : Forall (free_of Tags.FANET_DATA_SEP) fields).
  { subst fields.
    apply Forall_cons;
      [rewrite Hh; apply plain_free; constructor; [exact P1 | constructor; [exact P2 | constructor]]|].
    apply Forall_cons.
    { destruct (device_hex_chars d) as (d1 & d2 & d3 & d4 & -> & Q1 & Q2 & Q3 & Q4).
      apply plain_free.
      constructor; [exact Q1 | constructor; [exact Q2 | constructor; [exact Q3 | constructor; [exact Q4 | constructor]]]]. }
    apply Forall_cons; [destruct bc; (constructor; [reflexivity | constructor])|].
    apply Forall_cons; [exact Hsigfree|].
    apply Forall_cons; [apply plain_free, Pt|].
    apply Forall_cons; [apply plain_free, Ps|].
    apply Forall_cons; [apply plain_free, Px | constructor]. }
  assert (Hfull : filter (fun t => negb (isEmpty t)) fields = fields).
  { subst fields. cbn [filter]. rewrite Hh.
    destruct (device_hex_chars d) as (d1 & d2 & d3 & d4 & -> & _).
    destruct sig as [|c0 sig']; [congruence|].
    destruct (number (FanetPayload.PayloadType_code ty) 16) as [|? ?]; [congruence|].
    destruct (number (FanetPayload.dsize data) 16) as [|? ?]; [congruence|].
    destruct (Qt.toHex data) as [|? ?]; [congruence|].
    reflexivity. }
  assert (Hjoin : exists s, join Tags.FANET_DATA_SEP fields = h1 :: s /\
                            exists s', h1 :: s = s' ++ [l0]).
  { subst fields. cbn [join]. rewrite Hh, Hx. cbn [app]. eexists. split; [reflexivity|].
    exists (h1 :: h2 :: Tags.FANET_DATA_SEP
            :: Scenario.device_hex d ++ Tags.FANET_DATA_SEP
            :: [if bc then "1"%char else "0"%char] ++ Tags.FANET_DATA_SEP
            :: sig ++ Tags.FANET_DATA_SEP
            :: number (FanetPayload.PayloadType_code ty) 16 ++ Tags.FANET_DATA_SEP
            :: number (FanetPayload.dsize data) 16 ++ Tags.FANET_DATA_SEP :: x0).
    cbn [app]. repeat (rewrite <- app_assoc; cbn [app]). reflexivity. }
  destruct Hjoin as (s & Hj & s' & Hlast).
  split.
  - rewrite Hbody. etransitivity; [|exact Hfull].
    apply (event_body_tokens fields h1 s Hj).
    + apply plain_no_space, P1.
    + exists s', l0. split; [exact Hlast | apply plain_no_space, Pl0].
    + subst fields. discriminate.
    + exact Hfree.
  - exists (" "%char :: s'), l0. split.
    + rewrite Hbody, Hj, Hlast. reflexivity.
    + apply plain_no_ascii_space, Pl0.
Qed.

(** The frame of an event is parsed back into the event. *)
Lemma event_frame_parses (m d : Z) (ty : FanetPayload.PayloadType) (data : list Z)
    (sig : QByteArray) (bc : bool) :
  0 <= m < 256 -> 0 <= d < 65536 ->
  PayloadFields.bytes data -> data <> [] ->
  field sig ->
  fst (FanetPayload.fromReceivedData (Some ty) data) = FanetPayload.mk ty data ->
  let e := ReceiveEvent.mk (FanetAddress.mk m d) (FanetPayload.mk ty data) sig bc in
  FanetProtocolParser.parseMessage (ReceiveEvent.serialize e)
  = (Some (AbstractFanetMessage.ReceiveEvent e), []).
Proof.
  intros Hm Hd Hb Hne Hsig Hpay e.
  destruct (event_tokens m d ty data sig bc Hne Hsig) as (Htok & y & l0 & Hy & Hl0).
  fold e in Htok, Hy.
  assert (Hser : ReceiveEvent.serialize e = Tags.MSG_FANET_RECEIVE ++ event_body e).
  { reflexivity. }
  rewrite Hser, Hy.
  rewrite parseMessage_fnf by exact Hl0.
  rewrite <- Hy. f_equal. f_equal. f_equal.
  unfold ReceiveEvent.make. rewrite Htok.
  cbn [size_list length Z.of_nat Pos.of_succ_nat Pos.succ Z.ltb Z.compare Pos.compare
       Pos.compare_cont nth].
  change (Qt.toHex [m] ++ [Tags.FANET_DATA_SEP] ++ Scenario.device_hex d)
    with (FanetAddress.toHex (FanetAddress.mk m d) ","%char).
  unfold FanetAddress.parse.
  rewrite (address_text_roundtrip m d false Hm Hd). cbn [fst].
  destruct (payload_type_text ty) as [Hty Hof]. rewrite Hty. cbn [negb].
  rewrite Hof, fromHex_toHex by exact Hb. rewrite Hpay.
  subst e. destruct bc; reflexivity.
Qed.

(** What the parser hands to the constructor of the event: the frame
    is not changed by [trimmed], the tag is cut off. *)
Lemma event_body_handed (e : ReceiveEvent.t) (y : QByteArray) (l : ascii) :
  event_body e = y ++ [l] -> ascii_isspace l = false ->
  mid (trimmed (ReceiveEvent.serialize e)) FanetProtocolParser.MSG_SIZE_IDENTIFIER
  = event_body e.
Proof.
  intros Hy Hl.
  assert (Hser : ReceiveEvent.serialize e = Tags.MSG_FANET_RECEIVE ++ event_body e).
  { reflexivity. }
  rewrite Hser, Hy.
  assert (Htrim : trimmed (Tags.MSG_FANET_RECEIVE ++ y ++ [l])
                  = Tags.MSG_FANET_RECEIVE ++ y ++ [l]).
  { change (Tags.MSG_FANET_RECEIVE ++ y ++ [l])
      with ("F"%char :: ("N"%char :: "F"%char :: y) ++ [l]).
    apply trim_inside; [reflexivity | exact Hl]. }
  rewrite Htrim. reflexivity.
Qed.

(** What is logged while the event is made of the body of its frame:
    the warning of [fromReceivedData] for the payload, if it has one. *)
Lemma event_frame_logged (m d : Z) (ty : FanetPayload.PayloadType) (data : list Z)
    (sig : QByteArray) (bc : bool) :
  0 <= m < 256 -> 0 <= d < 65536 ->
  PayloadFields.bytes data -> data <> [] ->
  field sig ->
  let e := ReceiveEvent.mk (FanetAddress.mk m d) (FanetPayload.mk ty data) sig bc in
  ReceiveEvent.logged (event_body e)
  = match snd (FanetPayload.fromReceivedData (Some ty) data) with
    | Some w => [ReceiveEvent.WarnPayload w]
    | None => []
    end.
Proof.
  intros Hm Hd Hb Hne Hsig e.
  destruct (event_tokens m d ty data sig bc Hne Hsig) as (Htok & _).
  fold e in Htok.
  unfold ReceiveEvent.logged. rewrite Htok.
  cbn [size_list length Z.of_nat Pos.of_succ_nat Pos.succ Z.ltb Z.compare Pos.compare
       Pos.compare_cont nth].
  change (Qt.toHex [m] ++ [Tags.FANET_DATA_SEP] ++ Scenario.device_hex d)
    with (FanetAddress.toHex (FanetAddress.mk m d) ","%char).
  rewrite (address_text_roundtrip m d false Hm Hd). cbn [snd app].
  destruct (payload_type_text ty) as [Hty Hof]. rewrite Hty. cbn [negb].
  rewrite Hof, fromHex_toHex by exact Hb. reflexivity.
Qed.

(** X10.  An event made of an address, a payload that passes the checks
    of its type and is not empty, a signature without comma and the
    broadcast flag comes back from its FNF frame as it was.  The parser
    logs nothing; the constructor of the event, on the bytes the parser
    hands it, and the constructors it calls log one line at most: the
    warning [fromReceivedData] has for the payload.  For a type other
    than Invalid there is none, but for a Thermal payload below 11
    bytes, which is accepted with the size warning. *)
Theorem receive_event_roundtrip (m d : Z) (ty : FanetPayload.PayloadType) (data : list Z)
    (sig : QByteArray) (bc : bool) :
  0 <= m < 256 -> 0 <= d < 65536 ->
  PayloadFields.bytes data -> data <> [] ->
  field sig ->
  fst (FanetPayload.fromReceivedData (Some ty) data) = FanetPayload.mk ty data ->
  let e := ReceiveEvent.mk (FanetAddress.mk m d) (FanetPayload.mk ty data) sig bc in
  let handed := mid (trimmed (ReceiveEvent.serialize e))
                  FanetProtocolParser.MSG_SIZE_IDENTIFIER in
  FanetProtocolParser.parseMessage (ReceiveEvent.serialize e)
  = (Some (AbstractFanetMessage.ReceiveEvent e), []) /\
  ReceiveEvent.make handed = e /\
  ReceiveEvent.logged handed
  = match snd (FanetPayload.fromReceivedData (Some ty) data) with
    | Some w => [ReceiveEvent.WarnPayload w]
    | None => []
    end /\
  (ty <> FanetPayload.PTInvalid ->
   (ty = FanetPayload.PTThermal -> FanetPayload.PAYLOAD_SIZE_THERMAL <= FanetPayload.dsize data) ->
   snd (FanetPayload.fromReceivedData (Some ty) data) = None).
Proof.
  intros Hm Hd Hb Hne Hsig Hpay e handed.
  pose proof (event_frame_parses m d ty data sig bc Hm Hd Hb Hne Hsig Hpay) as Hparse.
  cbv zeta in Hparse. fold e in Hparse.
  destruct (event_tokens m d ty data sig bc Hne Hsig) as (_ & y & l & Hy & Hl).
  fold e in Hy.
  assert (Hh : handed = event_body e) by (apply (event_body_handed e y l Hy Hl)).
  split; [exact Hparse|]. rewrite Hh. split; [|split].
  - assert (Hser : ReceiveEvent.serialize e = Tags.MSG_FANET_RECEIVE ++ event_body e).
    { reflexivity. }
    rewrite Hser, Hy, parseMessage_fnf in Hparse by exact Hl.
    rewrite <- Hy in Hparse. injection Hparse as Hparse. exact Hparse.
  - apply event_frame_logged; assumption.
  - clear - Hpay. intros Hinv Hth. unfold FanetPayload.fromReceivedData in *.
    destruct ty; cbn [fst snd] in *; try discriminate Hpay; try reflexivity;
      try (exfalso; apply Hinv; reflexivity); cbv zeta in *;
      repeat match goal with
             | H : fst (if ?c then _ else _) = _ |- _ =>
                 destruct c eqn:?; cbn [fst snd] in *
             | |- (if ?c then _ else _) = None => destruct c eqn:?
             end;
      try discriminate Hpay; try reflexivity.
    specialize (Hth eq_refl).
    match goal with E : (_ <? _) = true |- _ => apply Z.ltb_lt in E; lia end.
Qed.

Lemma receive_event_roundtrip_witness :
  (FanetProtocolParser.parseMessage (Qt.lit "FNF 11,45aa,1,0,2,3,414243")
   = (Some (AbstractFanetMessage.ReceiveEvent
              (ReceiveEvent.mk (FanetAddress.mk 0x11 0x45AA)
                 (FanetPayload.mk FanetPayload.PTName [0x41; 0x42; 0x43]) (lit "0") true)),
      []) /\
   ReceiveEvent.logged (Qt.lit " 11,45aa,1,0,2,3,414243") = []) /\
  (FanetProtocolParser.parseMessage (Qt.lit "FNF 11,45aa,1,0,9,1,00")
   = (Some (AbstractFanetMessage.ReceiveEvent
              (ReceiveEvent.mk (FanetAddress.mk 0x11 0x45AA)
                 (FanetPayload.mk FanetPayload.PTThermal [0]) (lit "0") true)),
      []) /\
   ReceiveEvent.logged (Qt.lit " 11,45aa,1,0,9,1,00")
   = [ReceiveEvent.WarnPayload FanetPayload.WarnThermalSize]).
Proof.
  split.
  - destruct (receive_event_roundtrip 0x11 0x45AA FanetPayload.PTName [0x41; 0x42; 0x43]
                (lit "0") true) as (H1 & _ & H2 & _).
    + lia.
    + lia.
    + repeat (apply Forall_cons; [lia|]). apply Forall_nil.
    + discriminate.
    + split; [discriminate | repeat (apply Forall_cons; [reflexivity|]); apply Forall_nil].
    + reflexivity.
    + exact (conj H1 H2).
  - destruct (receive_event_roundtrip 0x11 0x45AA FanetPayload.PTThermal [0]
                (lit "0") true) as (H1 & _ & H2 & _).
    + lia.
    + lia.
    + repeat (apply Forall_cons; [lia|]). apply Forall_nil.
    + discriminate.
    + split; [discriminate | repeat (apply Forall_cons; [reflexivity|]); apply Forall_nil].
    + reflexivity.
    + exact (conj H1 H2).
Defined.

(** X11.  With an empty payload the frame has a field less than the
    constructor asks for: the event that comes back has lost address,
    signature and type, and is not valid. *)
Theorem receive_event_empty_payload (m d : Z) (ty : FanetPayload.PayloadType)
    (sig : QByteArray) (bc : bool) :
  field sig ->
  let e := ReceiveEvent.mk (FanetAddress.mk m d) (FanetPayload.mk ty []) sig bc in
  let lost := ReceiveEvent.mk FanetAddress.default
                (FanetPayload.mk FanetPayload.PTInvalid []) [] false in
  FanetProtocolParser.parseMessage (ReceiveEvent.serialize e)
  = (Some (AbstractFanetMessage.ReceiveEvent lost), []) /\
  ReceiveEvent.isValid lost = false.
Proof.
  intros [Hsig Hsigfree] e lost. split; [|reflexivity].
  pose proof (event_body_fields m d (FanetPayload.mk ty []) sig bc) as Hbody.
  fold e in Hbody. cbn [FanetPayload.m_type FanetPayload.m_data] in Hbody.
  destruct (toHex_byte m) as (h1 & h2 & Hh & P1 & P2).
  destruct (number16_field (FanetPayload.PayloadType_code ty)) as [Nt Pt].
  destruct (number16_field (FanetPayload.dsize [])) as [Ns Ps].
  change (Qt.toHex []) with (@nil ascii) in Hbody.
  set (fields := [Qt.toHex [m]; Scenario.device_hex d; [if bc then "1"%char else "0"%char]; sig;
                  number (FanetPayload.PayloadType_code ty) 16;
                  number (FanetPayload.dsize []) 16; []]) in *.
  assert (Hfree : Forall (free_of Tags.FANET_DATA_SEP) fields).
  { subst fields.
    apply Forall_cons;
      [rewrite Hh; apply plain_free; constructor; [exact P1 | constructor; [exact P2 | constructor]]|].
    apply Forall_cons.
    { destruct (device_hex_chars d) as (d1 & d2 & d3 & d4 & -> & Q1 & Q2 & Q3 & Q4).
      apply plain_free.
      constructor; [exact Q1 | constructor; [exact Q2 | constructor; [exact Q3 | constructor; [exact Q4 | constructor]]]]. }
    apply Forall_cons; [destruct bc; (constructor; [reflexivity | constructor])|].
    apply Forall_cons; [exact Hsigfree|].
    apply Forall_cons; [apply plain_free, Pt|].
    apply Forall_cons; [apply plain_free, Ps|].
    apply Forall_cons; [constructor | constructor]. }
  assert (Hsix : size_list (filter (fun t => negb (isEmpty t)) fields) = 6).
  { subst fields. cbn [filter]. rewrite Hh.
    destruct (device_hex_chars d) as (d1 & d2 & d3 & d4 & -> & _).
    destruct sig as [|c0 sig']; [congruence|].
    destruct (number (FanetPayload.PayloadType_code ty) 16) as [|? ?]; [congruence|].
    destruct (number (FanetPayload.dsize []) 16) as [|? ?]; [congruence|].
    reflexivity. }
  assert (Hjoin : exists s, join Tags.FANET_DATA_SEP fields = h1 :: s /\
                            exists s', h1 :: s = s' ++ [Tags.FANET_DATA_SEP]).
  { subst fields. cbn [join]. rewrite Hh. cbn [app]. eexists. split; [reflexivity|].
    exists (h1 :: h2 :: Tags.FANET_DATA_SEP
            :: Scenario.device_hex d ++ Tags.FANET_DATA_SEP
            :: [if bc then "1"%char else "0"%char] ++ Tags.FANET_DATA_SEP
            :: sig ++ Tags.FANET_DATA_SEP
            :: number (FanetPayload.PayloadType_code ty) 16 ++ Tags.FANET_DATA_SEP
            :: number (FanetPayload.dsize []) 16).
    cbn [app]. repeat (rewrite <- app_assoc; cbn [app]). reflexivity. }
  destruct Hjoin as (s & Hj & s' & Hlast).
  assert (Htok : split_skip_empty Tags.FANET_DATA_SEP (qstring_trimmed (event_body e))
                 = filter (fun t => negb (isEmpty t)) fields).
  { rewrite Hbody. apply (event_body_tokens fields h1 s Hj).
    - apply plain_no_space, P1.
    - exists s', Tags.FANET_DATA_SEP. split; [exact Hlast | reflexivity].
    - subst fields. discriminate.
    - exact Hfree. }
  assert (Hser : ReceiveEvent.serialize e = Tags.MSG_FANET_RECEIVE ++ event_body e)
    by reflexivity.
  rewrite Hser.
  assert (Hb2 : exists y, event_body e = y ++ [Tags.FANET_DATA_SEP]).
  { exists (" "%char :: s'). rewrite Hbody.
    change (join Tags.FANET_DATA_SEP _) with (join Tags.FANET_DATA_SEP fields).
    rewrite Hj, Hlast. reflexivity. }
  destruct Hb2 as (y & Hy). rewrite Hy.
  rewrite parseMessage_fnf by reflexivity.
  rewrite <- Hy. f_equal. f_equal. f_equal.
  unfold ReceiveEvent.make. rewrite Htok. cbv zeta.
  assert (Hlt : (size_list (filter (fun t => negb (isEmpty t)) fields) <? 7) = true)
    by (rewrite Hsix; reflexivity).
  match goal with
  | |- (if ?c then _ else _) = _ => replace c with true by (symmetry; exact Hlt)
  end.
  reflexivity.
Qed.

Lemma receive_event_empty_payload_witness :
  FanetProtocolParser.parseMessage (Qt.lit "FNF 11,45aa,1,0,2,0,")
  = (Some (AbstractFanetMessage.ReceiveEvent
             (ReceiveEvent.mk FanetAddress.default
                (FanetPayload.mk FanetPayload.PTInvalid []) [] false)), []) /\
  ReceiveEvent.isValid
    (ReceiveEvent.mk FanetAddress.default (FanetPayload.mk FanetPayload.PTInvalid []) [] false)
  = false.
Proof.
  apply (receive_event_empty_payload 0x11 0x45AA FanetPayload.PTName (lit "0") true).
  split; [discriminate | repeat (apply Forall_cons; [reflexivity|]); apply Forall_nil].
Defined.

End ReceivedPackets.

(** ** Code and text of a reply (genericreply.cpp) *)

Section ReplyFields.

Import Qt Fields.

Lemma digit_char_decimal (k : Z) : 0 <= k < 10 -> decimal (digit_char k) k.
Proof.
  intros Hk.
  assert (H : In k (map Z.of_nat (seq 0 10))).
  { apply in_map_iff. exists (Z.to_nat k). split; [lia | apply in_seq; lia]. }
  cbn in H.
  repeat (destruct H as [H|H]; [subst k; repeat split|]); contradiction.
Qed.

(** The digits [QString::number] writes in base 10, read from the left,
    continue a value [v] to [v * 10 ^ length + n]. *)
Lemma digits_acc_value (fuel : nat) :
  forall (n : Z) (acc : QByteArray),
    fuel <> O -> 0 <= n < 10 ^ Z.of_nat fuel ->
    exists c s,
      digits_acc fuel 10 n acc = (c :: s) ++ acc /\
      Forall (fun x => exists k, decimal x k) (c :: s) /\
      forall t v, digits_value 10 ((c :: s) ++ t) v
                  = digits_value 10 t (v * 10 ^ Z.of_nat (length (c :: s)) + n).
Proof.
  induction fuel as [|f IH]; intros n acc Hf Hn; [congruence|].
  cbn [digits_acc].
  assert (Hm : 0 <= n mod 10 < 10) by (apply Z.mod_pos_bound; lia).
  pose proof (digit_char_decimal (n mod 10) Hm) as Hdec.
  destruct (Z.eqb_spec (n / 10) 0) as [Hz|Hz].
  - exists (digit_char (n mod 10)), []. split; [reflexivity|].
    split; [constructor; [exists (n mod 10); exact Hdec | constructor]|].
    intros t v. cbn [app digits_value length].
    destruct Hdec as (Hv & _). rewrite Hv.
    destruct (Z.ltb_spec (n mod 10) 10); [|lia].
    f_equal. change (10 ^ Z.of_nat 1) with 10.
    pose proof (Z.div_mod n 10 ltac:(lia)). lia.
  - assert (Hq : 0 <= n / 10 < 10 ^ Z.of_nat f).
    { split; [apply Z.div_pos; lia|].
      apply Z.div_lt_upper_bound; [lia|].
      rewrite Nat2Z.inj_succ, Z.pow_succ_r in Hn by lia. lia. }
    assert (Hf' : f <> O).
    { intros ->. change (10 ^ Z.of_nat 0) with 1 in Hq. lia. }
    destruct (IH (n / 10) (digit_char (n mod 10) :: acc) Hf' Hq)
      as (c & s & Hd & Hall & Hval).
    exists c, (s ++ [digit_char (n mod 10)]). split.
    + rewrite Hd. cbn [app]. rewrite <- app_assoc. reflexivity.
    + split.
      * change (c :: s ++ [digit_char (n mod 10)])
          with ((c :: s) ++ [digit_char (n mod 10)]).
        apply Forall_app. split; [exact Hall|].
        constructor; [exists (n mod 10); exact Hdec | constructor].
      * intros t v.
        change ((c :: s ++ [digit_char (n mod 10)]) ++ t)
          with (((c :: s) ++ [digit_char (n mod 10)]) ++ t).
        rewrite <- app_assoc. rewrite Hval. cbn [app digits_value].
        destruct Hdec as (Hv & _). rewrite Hv.
        destruct (Z.ltb_spec (n mod 10) 10); [|lia].
        f_equal.
        change (c :: s ++ [digit_char (n mod 10)])
          with ((c :: s) ++ [digit_char (n mod 10)]).
        rewrite length_app. cbn [length]. rewrite Nat2Z.inj_add.
        change (Z.of_nat 1) with 1. rewrite Z.pow_add_r by lia.
        change (10 ^ 1) with 10.
        pose proof (Z.div_mod n 10 ltac:(lia)). lia.
Qed.

Lemma trim_no_space (sp : ascii -> bool) (s : QByteArray) :
  Forall (fun c => sp c = false) s -> trim sp s = s.
Proof.
  intros H. unfold trim.
  assert (Hd : forall l, Forall (fun c => sp c = false) l -> dropWhile sp l = l).
  { intros l Hl. destruct Hl as [|c l' Hc _]; [reflexivity|]. cbn. rewrite Hc. reflexivity. }
  rewrite (Hd s H). rewrite Hd by (apply Forall_rev; exact H).
  apply rev_involutive.
Qed.

(** A number written by [QString::number] in base 10 is a field of a
    frame, and [toInt] reads it back. *)
Lemma number10_field (n : Z) :
  0 <= n < 2 ^ 31 ->
  number n 10 <> [] /\ Forall Scenario.plain (number n 10) /\
  toInt 10 (number n 10) = (n, true).
Proof.
  intros Hn. unfold number.
  destruct (digits_acc_value 64 n []) as (c & s & Hd & Hall & Hval);
    [discriminate | split; [lia|]; apply Z.lt_le_trans with (2 ^ 31); [lia|];
                    apply Z.leb_le; reflexivity |].
  rewrite Hd, app_nil_r.
  split; [discriminate|]. split.
  { eapply Forall_impl; [|exact Hall]. intros x (k & _ & Hp & _). exact Hp. }
  unfold toInt, parse_integer, trimmed.
  rewrite trim_no_space
    by (eapply Forall_impl; [|exact Hall]; intros x (k & _ & _ & Hs & _); exact Hs).
  inversion Hall as [|? ? (k & _ & _ & _ & Hminus & Hplus) _]; subst.
  rewrite Hminus, Hplus. change (10 =? 16) with false. cbv iota.
  specialize (Hval [] 0). rewrite app_nil_r in Hval. rewrite Hval.
  cbn [digits_value option_map]. rewrite Z.mul_0_l, Z.add_0_l, Z.mul_1_l.
  destruct (Z.leb_spec (-2147483648) n); [|lia].
  destruct (Z.leb_spec n 2147483647); [reflexivity|].
  change (2 ^ 31) with 2147483648 in Hn. lia.
Qed.

(** X27.  A reply body [ERR,code,text] or [MSG,code,text] gives a reply
    of sub-kind Error or Msg with that code and that text, when the
    text is not empty, has no comma and does not end in a blank.
    Without a text the code is not read: the reply has the sub-kind,
    the code -1 and no text. *)
Theorem reply_code_and_text (type : FanetMessageType) (err : bool) (n : Z)
    (text : QByteArray) :
  0 <= n < 2 ^ 31 ->
  field text ->
  qchar_isSpace (last text " "%char) = false ->
  let kind := if err then GenericReply.ReplyError else GenericReply.ReplyMsg in
  let full := " "%char :: join Tags.FANET_DATA_SEP [reply_tag err; number n 10; text] in
  let short := " "%char :: join Tags.FANET_DATA_SEP [reply_tag err; number n 10] in
  GenericReply.make type full = GenericReply.mk type full n kind text /\
  GenericReply.make type short
  = GenericReply.mk type short GenericReply.REPLY_CODE_INVALID kind [].
Proof.
  intros Hn [Hne Hfree] Hlast kind full short.
  destruct (number10_field n Hn) as (Nne & Np & Nint).
  assert (Htag : free_of Tags.FANET_DATA_SEP (reply_tag err))
    by (destruct err; repeat (apply Forall_cons; [reflexivity|]); apply Forall_nil).
  assert (Hfull : GenericReply.tokens full = [reply_tag err; number n 10; text]).
  { unfold GenericReply.tokens. subst full.
    destruct (exists_last Hne) as (t' & l & Ht).
    assert (Hl : qchar_isSpace l = false).
    { rewrite Ht in Hlast. rewrite last_last in Hlast. exact Hlast. }
    assert (Hj : exists c s, join Tags.FANET_DATA_SEP [reply_tag err; number n 10; text]
                             = c :: s /\ qchar_isSpace c = false /\
                             exists s', c :: s = s' ++ [l]).
    { cbn [join]. rewrite Ht.
      destruct err; cbn [reply_tag GenericReply.FANET_REPLY_ERR GenericReply.FANET_REPLY_MSG
                           lit list_ascii_of_string app];
        (do 2 eexists; split; [reflexivity|]; split; [reflexivity|];
         eexists (_ :: _ :: _ :: Tags.FANET_DATA_SEP
                    :: number n 10 ++ Tags.FANET_DATA_SEP :: t');
         cbn [app]; rewrite <- app_assoc; reflexivity). }
    destruct Hj as (c & s & Hj & Hc & s' & Hs').
    rewrite (event_body_tokens _ c s Hj Hc).
    - cbn [filter]. destruct err, (number n 10), text; try congruence; reflexivity.
    - exists s', l. split; assumption.
    - discriminate.
    - constructor; [exact Htag | constructor; [apply plain_free, Np | constructor;
                                               [exact Hfree | constructor]]]. }
  assert (Hshort : GenericReply.tokens short = [reply_tag err; number n 10]).
  { unfold GenericReply.tokens. subst short.
    destruct (exists_last Nne) as (t' & l & Ht).
    assert (Hl : qchar_isSpace l = false).
    { apply plain_no_space. rewrite Forall_forall in Np. apply Np. rewrite Ht.
      apply in_or_app. right. left. reflexivity. }
    assert (Hj : exists c s, join Tags.FANET_DATA_SEP [reply_tag err; number n 10]
                             = c :: s /\ qchar_isSpace c = false /\
                             exists s', c :: s = s' ++ [l]).
    { cbn [join]. rewrite Ht.
      destruct err; cbn [reply_tag GenericReply.FANET_REPLY_ERR GenericReply.FANET_REPLY_MSG
                           lit list_ascii_of_string app];
        (do 2 eexists; split; [reflexivity|]; split; [reflexivity|];
         eexists (_ :: _ :: _ :: Tags.FANET_DATA_SEP :: t'); reflexivity). }
    destruct Hj as (c & s & Hj & Hc & s' & Hs').
    rewrite (event_body_tokens _ c s Hj Hc).
    - cbn [filter]. destruct err, (number n 10); try congruence; reflexivity.
    - exists s', l. split; assumption.
    - discriminate.
    - constructor; [exact Htag | constructor; [apply plain_free, Np | constructor]]. }
  unfold GenericReply.make. rewrite Hfull, Hshort. cbv zeta.
  cbn [nth size_list length]. rewrite Nint. cbn [fst].
  subst kind. destruct err; split; reflexivity.
Qed.

Lemma reply_code_and_text_witness :
  GenericReply.make FMTFanetReply (lit " MSG,1,initialized")
  = GenericReply.mk FMTFanetReply (lit " MSG,1,initialized") 1 GenericReply.ReplyMsg
      (lit "initialized") /\
  GenericReply.make FMTFanetReply (lit " MSG,1")
  = GenericReply.mk FMTFanetReply (lit " MSG,1") (-1) GenericReply.ReplyMsg [].
Proof.
  apply (reply_code_and_text FMTFanetReply false 1 (lit "initialized")).
  - split; [lia | apply Z.ltb_lt; reflexivity].
  - split; [discriminate | repeat (apply Forall_cons; [reflexivity|]); apply Forall_nil].
  - reflexivity.
Defined.

End ReplyFields.

(** ** Commands and the parser (fanetprotocolparser.cpp) *)

Section CommandEcho.

Import Qt.

Lemma dropWhile_keeps (sp : ascii -> bool) (x : ascii) (m : QByteArray) :
  sp x = false ->
  forall l, exists l', dropWhile sp (l ++ x :: m) = l' ++ x :: m.
Proof.
  intros Hx l. induction l as [|y l IH].
  - exists []. cbn. rewrite Hx. reflexivity.
  - cbn [app dropWhile]. destruct (sp y).
    + exact IH.
    + exists (y :: l). reflexivity.
Qed.

(** Trimming leaves a tag of three characters that are no blanks. *)
Lemma trimmed_tag (a b c : ascii) (s : QByteArray) :
  ascii_isspace a = false -> ascii_isspace c = false ->
  exists s', trimmed (a :: b :: c :: s) = a :: b :: c :: s'.
Proof.
  intros Ha Hc. unfold trimmed, trim. cbn [dropWhile]. rewrite Ha.
  cbn [rev]. repeat rewrite <- app_assoc. cbn [app].
  destruct (dropWhile_keeps ascii_isspace c [b; a] Hc (rev s)) as (l' & ->).
  exists (rev l'). rewrite rev_app_distr. reflexivity.
Qed.

Lemma parseMessage_unknown_tag (a b c : ascii) (s : QByteArray) :
  ascii_isspace a = false -> ascii_isspace c = false ->
  startsWith [a; b; c] Tags.MSG_FANET_RECEIVE = false ->
  startsWith [a; b; c] Tags.MSG_FANET_REPLY = false ->
  startsWith [a; b; c] Tags.MSG_VERSION_REPLY = false ->
  startsWith [a; b; c] Tags.MSG_REGION_REPLY = false ->
  fst (FanetProtocolParser.parseMessage (a :: b :: c :: s)) = None.
Proof.
  intros Ha Hc H1 H2 H3 H4. unfold FanetProtocolParser.parseMessage.
  destruct (FanetProtocolParser.MSG_SIZE_IDENTIFIER <? size (a :: b :: c :: s));
    [|reflexivity].
  destruct (trimmed_tag a b c s Ha Hc) as (s' & ->).
  assert (Hp : forall tag, length tag = 3%nat ->
                           startsWith (a :: b :: c :: s') tag = startsWith [a; b; c] tag).
  { intros [|t1 [|t2 [|t3 [|? ?]]]] Hl; try discriminate Hl. cbn.
    destruct s'; destruct (Ascii.eqb t1 a), (Ascii.eqb t2 b), (Ascii.eqb t3 c); reflexivity. }
  cbv zeta. rewrite !Hp by reflexivity. rewrite H1, H2, H3, H4. reflexivity.
Qed.

(** X28.  What a command serializes to is never taken for a message of
    the radio: [parseMessage] returns no object for it.  The tags DGL,
    DGP and FNT are unknown to the parser; the version command DGV has
    the tag of the version reply and is dropped by the length check. *)
Theorem commands_are_not_parsed (msg : AbstractFanetMessage.t) :
  AbstractFanetMessage.isCommand msg = true ->
  fst (FanetProtocolParser.parseMessage (AbstractFanetMessage.serialize msg)) = None.
Proof.
  intros Hc.
  assert (Hreply : forall r, AbstractFanetMessage.isCommand (AbstractFanetMessage.GenericReply r)
                             = true -> GenericReply.serialize r = []).
  { intros r. unfold AbstractFanetMessage.isCommand, GenericReply.serialize.
    cbn [AbstractFanetMessage.type]. destruct (GenericReply.m_type r); cbn; congruence. }
  destruct msg as [|c|e|c|e|r|r|r]; cbn [AbstractFanetMessage.serialize].
  - reflexivity.
  - unfold RegionCommand.serialize.
    destruct (RegionCommand.m_freq c); [reflexivity | |];
      apply parseMessage_unknown_tag; reflexivity.
  - apply parseMessage_unknown_tag; reflexivity.
  - unfold TransmitCommand.serialize.
    destruct (FanetPayload.PayloadType_eqb _ _); [reflexivity|].
    cbv zeta. apply parseMessage_unknown_tag; reflexivity.
  - discriminate Hc.
  - rewrite (Hreply (TransmitReply.base r)) by exact Hc. reflexivity.
  - discriminate Hc.
  - rewrite (Hreply r) by exact Hc. reflexivity.
Qed.

Lemma commands_are_not_parsed_witness :
  fst (FanetProtocolParser.parseMessage (lit "DGL 868,14")) = None /\
  fst (FanetProtocolParser.parseMessage (lit "DGV")) = None.
Proof.
  split.
  - apply (commands_are_not_parsed
             (AbstractFanetMessage.RegionCommand
                (RegionCommand.make 14 RegionCommand.Freq868MHz))).
    reflexivity.
  - apply (commands_are_not_parsed AbstractFanetMessage.VersionCommand). reflexivity.
Defined.

End CommandEcho.

(** ** Invariants of the radio (fanetradio.cpp) *)

Section RadioInvariants.

Import Qt FanetRadio RadioRuns.

#[local] Arguments RadioState_eqb : simpl never.

Lemma silent_preserves {A} (m : radio A) : silent m -> preserves m.
Proof.
  intros Hs r [Ht Hf]. destruct (Hs r) as (H1 & H2 & H3).
  unfold inv, tracked, frames_only. rewrite H1, H2, H3. auto.
Qed.

Lemma preserves_bind {A B} (m : radio A) (k : A -> radio B) :
  preserves m -> (forall a, preserves (k a)) -> preserves (bind m k).
Proof. intros Hm Hk r Hr. rewrite exec_bind. apply Hk, Hm, Hr. Qed.

Lemma preserves_ret {A} (a : A) : preserves (ret a).
Proof. intros r Hr. exact Hr. Qed.

Lemma preserves_get : preserves get.
Proof. intros r Hr. exact Hr. Qed.

Lemma silent_m_log l s : silent (m_log l s).
Proof. intros r. repeat split. Qed.

Lemma silent_gpio c : silent (gpio c).
Proof. intros r. unfold gpio, execState. cbn. destruct (m_gpio r); repeat split. Qed.

Lemma silent_timer_start ms : silent (timer_start ms).
Proof. intros r. repeat split. Qed.

Lemma silent_timer_stop : silent timer_stop.
Proof. intros r. repeat split. Qed.

Lemma silent_uart_open : silent uart_open.
Proof. intros r. unfold uart_open, execState. cbn. destruct (uart_error r); repeat split. Qed.

Lemma silent_uart_close : silent uart_close.
Proof. intros r. repeat split. Qed.

Lemma silent_parser_next : silent parser_next.
Proof.
  intros r. unfold parser_next, execState. cbn. destruct (uart_isOpen r); repeat split.
Qed.

Lemma announced_app (l1 l2 : list Signal) (s : RadioState) :
  announced (l1 ++ l2) s = announced l2 (announced l1 s).
Proof.
  revert s. induction l1 as [|x l1 IH]; intros s; [reflexivity|].
  destruct x; cbn [app announced]; apply IH.
Qed.

Lemma preserves_emit_message addr payload broadcast :
  preserves (emit (messageReceived addr payload broadcast)).
Proof.
  intros r [Ht Hf]. split; [|exact Hf].
  unfold tracked in *. cbn. rewrite announced_app. exact Ht.
Qed.

Lemma preserves_setState s : preserves (setState s).
Proof.
  intros [cfg st gp gc op er rx tx tm bf sg lg] [Ht Hf].
  unfold inv, tracked, frames_only, setState, execState in *. cbn in *.
  destruct (RadioState_eqb s st) eqn:E; cbn.
  - auto.
  - destruct gp, s; cbn; rewrite announced_app; auto.
Qed.

Lemma preserves_uart_write buf : one_frame buf -> preserves (uart_write buf).
Proof.
  intros Hb [cfg st gp gc op er rx tx tm bf sg lg] [Ht Hf].
  unfold inv, tracked, frames_only, uart_write, execState in *. cbn in *.
  destruct op; [destruct er|]; cbn; split; auto.
  apply Forall_app. split; [exact Hf | constructor; [exact Hb | constructor]].
Qed.

Lemma digit_char_no_delimiter (k : Z) : 0 <= k < 16 -> delimiter (digit_char k) = false.
Proof.
  intros Hk.
  assert (H : In k (map Z.of_nat (seq 0 16))).
  { apply in_map_iff. exists (Z.to_nat k). split; [lia | apply in_seq; lia]. }
  cbn in H.
  repeat (destruct H as [H|H]; [subst k; reflexivity|]); contradiction.
Qed.

Lemma digits_acc_no_delimiter (fuel : nat) (base n : Z) (acc : QByteArray) :
  0 < base <= 16 ->
  Forall (fun c => delimiter c = false) acc ->
  Forall (fun c => delimiter c = false) (digits_acc fuel base n acc).
Proof.
  intros Hb. revert n acc. induction fuel as [|fuel IH]; intros n acc Hacc; [exact Hacc|].
  cbn [digits_acc].
  assert (Hd : Forall (fun c => delimiter c = false) (digit_char (n mod base) :: acc)).
  { constructor; [|exact Hacc]. apply digit_char_no_delimiter.
    pose proof (Z.mod_pos_bound n base ltac:(lia)). lia. }
  destruct (n / base =? 0); [exact Hd | apply IH, Hd].
Qed.

Lemma number_no_delimiter (n base : Z) :
  0 < base <= 16 -> Forall (fun c => delimiter c = false) (number n base).
Proof. intros Hb. apply digits_acc_no_delimiter; [exact Hb | constructor]. Qed.

Lemma toHex_no_delimiter (d : list Z) : Forall (fun c => delimiter c = false) (Qt.toHex d).
Proof.
  induction d as [|b d IH]; [constructor|].
  change (Qt.toHex (b :: d))
    with (digit_char ((b mod 256) / 16) :: digit_char (b mod 16) :: Qt.toHex d).
  constructor; [|constructor; [|exact IH]]; apply digit_char_no_delimiter.
  - assert (0 <= b mod 256 < 256) by (apply Z.mod_pos_bound; lia).
    split; [apply Z.div_pos; lia | apply Z.div_lt_upper_bound; lia].
  - apply Z.mod_pos_bound; lia.
Qed.

Lemma lit_no_delimiter (s : QByteArray) :
  forallb (fun c => negb (delimiter c)) s = true ->
  Forall (fun c => delimiter c = false) s.
Proof.
  intros H. rewrite forallb_forall in H. apply Forall_forall. intros c Hc.
  apply negb_true_iff, H, Hc.
Qed.

Ltac no_delimiter :=
  repeat first
    [ apply number_no_delimiter; lia
    | apply toHex_no_delimiter
    | apply lit_no_delimiter; reflexivity
    | apply Forall_app; split ].

(** The body of a command holds no delimiter. *)
Lemma command_no_delimiter (msg : AbstractFanetMessage.t) :
  AbstractFanetMessage.isCommand msg = true ->
  Forall (fun c => delimiter c = false) (AbstractFanetMessage.serialize msg).
Proof.
  intros Hc. destruct msg as [|c|en|c|e|r|r|r]; cbn [AbstractFanetMessage.serialize].
  - no_delimiter.
  - unfold RegionCommand.serialize. destruct (RegionCommand.m_freq c); no_delimiter.
  - unfold EnableCommand.serialize. destruct en; no_delimiter.
  - unfold TransmitCommand.serialize, FanetAddress.toHex.
    destruct (FanetPayload.PayloadType_eqb _ _); [constructor|].
    destruct (FanetAddress.isBroadcast _); no_delimiter.
  - discriminate Hc.
  - unfold AbstractFanetMessage.isCommand in Hc. cbn [AbstractFanetMessage.type] in Hc.
    unfold GenericReply.serialize.
    destruct (GenericReply.m_type (TransmitReply.base r)); try discriminate Hc; constructor.
  - discriminate Hc.
  - unfold AbstractFanetMessage.isCommand in Hc. cbn [AbstractFanetMessage.type] in Hc.
    unfold GenericReply.serialize.
    destruct (GenericReply.m_type r); try discriminate Hc; constructor.
Qed.

Ltac step :=
  lazymatch goal with
  | |- preserves (bind _ _) => apply preserves_bind; [| intros ?]
  | |- preserves (ret _) => apply preserves_ret
  | |- preserves get => apply preserves_get
  | |- preserves (m_log _ _) => apply silent_preserves, silent_m_log
  | |- preserves (gpio _) => apply silent_preserves, silent_gpio
  | |- preserves (timer_start _) => apply silent_preserves, silent_timer_start
  | |- preserves timer_stop => apply silent_preserves, silent_timer_stop
  | |- preserves uart_open => apply silent_preserves, silent_uart_open
  | |- preserves uart_close => apply silent_preserves, silent_uart_close
  | |- preserves parser_next => apply silent_preserves, silent_parser_next
  | |- preserves (setState _) => apply preserves_setState
  | |- preserves (emit (messageReceived _ _ _)) => apply preserves_emit_message
  | |- preserves (if ?b then _ else _) => destruct b eqn:?
  | |- preserves (match ?x with _ => _ end) => destruct x eqn:?
  end.

Lemma preserves_sendMessage msg : preserves (sendMessage msg).
Proof.
  unfold sendMessage.
  destruct (AbstractFanetMessage.isValid msg && AbstractFanetMessage.isCommand msg) eqn:E;
    [|apply preserves_ret].
  apply andb_true_iff in E. destruct E as [_ Hc].
  apply preserves_bind; [apply preserves_get | intros r0].
  destruct (negb (uart_isOpen r0) && uart_isOpen r0); [repeat step|].
  cbv zeta.
  apply preserves_bind; [apply silent_preserves, silent_m_log | intros _].
  apply preserves_bind.
  - apply preserves_uart_write. eexists. split; [reflexivity|].
    apply command_no_delimiter, Hc.
  - intros n. repeat step.
Qed.

Ltac steps :=
  cbv zeta; repeat first [apply preserves_sendMessage | step].

Lemma preserves_handleMessage msg : preserves (handleMessage msg).
Proof.
  unfold handleMessage, handleFanetPktRecv, onRadioInitialized, handleFanetReply,
    handleRegionReply, handleVersionReply.
  steps.
Qed.

Lemma preserves_onReadyRead_loop (fuel : nat) : preserves (onReadyRead_loop fuel).
Proof.
  induction fuel as [|fuel IH]; cbn [onReadyRead_loop]; [apply preserves_ret|].
  apply preserves_bind; [apply silent_preserves, silent_parser_next | intros msg].
  destruct msg as [m|]; [|apply preserves_ret].
  apply preserves_bind; [|intros _; exact IH].
  destruct (AbstractFanetMessage.isValid m);
    [apply preserves_handleMessage | apply preserves_ret].
Qed.

Lemma preserves_deinit : preserves deinit.
Proof. unfold deinit. steps. Qed.

Lemma preserves_enter (e : Entry) : preserves (enter e).
Proof.
  destruct e as [| |addr data|data| |bytes]; cbn [enter].
  - unfold init. cbv zeta. repeat first [apply preserves_deinit | step].
  - apply preserves_deinit.
  - unfold sendData. steps.
  - unfold injectMessage. destruct (FanetProtocolParser.parseMessage data) as [[m|] plog].
    + apply preserves_bind; [|intros _; apply preserves_handleMessage].
      apply silent_preserves. intros r. repeat split.
    + apply preserves_bind; [|intros _; apply preserves_ret].
      apply silent_preserves. intros r. repeat split.
  - unfold timerExpires, onTimeout. steps.
  - intros r Hr. unfold receive. rewrite exec_bind.
    change (evalState get r) with r. change (execState get r) with r.
    destruct (uart_isOpen r); [|exact Hr].
    rewrite exec_bind. unfold onReadyRead. rewrite exec_bind.
    apply preserves_onReadyRead_loop. exact Hr.
Qed.

Lemma preserves_run (entries : list Entry) : preserves (run entries).
Proof.
  induction entries as [|e rest IH]; cbn [run]; [apply preserves_ret|].
  apply preserves_bind; [apply preserves_enter | intros _; exact IH].
Qed.

Lemma inv_constructed (config : RadioConfig) (gpio : bool) : inv (FanetRadio config gpio).
Proof. split; [reflexivity | constructor]. Qed.

(** X12.  Whatever is called on a radio and whatever arrives, in any order:
    the state is the one the last [radioStateChanged] announced
    (Disabled before the first). *)
Theorem radio_signals_track_state (config : RadioConfig) (gpio : bool)
    (entries : list Entry) :
  let r := execState (run entries) (FanetRadio config gpio) in
  announced (signals r) RadioDisabled = m_state r.
Proof. exact (proj1 (preserves_run entries _ (inv_constructed config gpio))). Qed.

(** X13.  Whatever is called and whatever arrives, every buffer handed
    to the serial port is one whole frame: the
    start delimiter, a body without delimiters, the end delimiter. *)
Theorem radio_writes_whole_frames (config : RadioConfig) (gpio : bool)
    (entries : list Entry) :
  Forall one_frame (uart_tx (execState (run entries) (FanetRadio config gpio))).
Proof. exact (proj2 (preserves_run entries _ (inv_constructed config gpio))). Qed.

End RadioInvariants.

(** ** The handlers of the radio (fanetradio.cpp) *)

Section RadioHandlers.

Import Qt FanetRadio.

#[local] Arguments RadioState_eqb : simpl never.
#[local] Arguments number : simpl never.

Lemma RegionCommand_make_clamps (txPower : Z) (freq : RegionCommand.FanetFreq) :
  RegionCommand.make txPower freq = RegionCommand.mk (Z.max 2 (Z.min 20 txPower)) freq.
Proof.
  unfold RegionCommand.make, RegionCommand.FANET_TXPOWER_MIN, RegionCommand.FANET_TXPOWER_MAX.
  destruct (Z.ltb_spec txPower 2), (Z.ltb_spec 20 txPower); f_equal; lia.
Qed.

Lemma setState_same (s : RadioState) (r : t) :
  m_state r = s -> execState (setState s) r = r.
Proof.
  intros <-. destruct r as [cfg st gp gc op er rx tx tm bf sg lg].
  unfold setState, execState. cbn.
  rewrite (proj2 (RadioState_eqb_eq st st) eq_refl). reflexivity.
Qed.

Lemma setState_state (s : RadioState) (r : t) :
  m_state (execState (setState s) r) = s /\
  uart_tx (execState (setState s) r) = uart_tx r /\
  m_timer (execState (setState s) r) = m_timer r.
Proof.
  destruct r as [cfg st gp gc op er rx tx tm bf sg lg].
  unfold setState, execState. cbn.
  destruct (RadioState_eqb s st) eqn:E; cbn.
  - apply RadioState_eqb_eq in E. subst. repeat split.
  - destruct gp, s; cbn; repeat split.
Qed.

(** X14.  Unless the message is a version reply that names the expected
    firmware, the check ends in WrongFw with the timer stopped and
    nothing written: no region is ever set on another firmware. *)
Theorem handleVersionReply_rejects (msg : AbstractFanetMessage.t) (r : t) :
  (forall reply, AbstractFanetMessage.as_VersionReply msg = Some reply ->
                 VersionReply.version reply <> FANET_EXPECTED_FW) ->
  let r' := execState (handleVersionReply msg) r in
  m_state r' = RadioWrongFw /\ uart_tx r' = uart_tx r /\ m_timer r' = None.
Proof.
  intros Hv r'. subst r'. unfold handleVersionReply.
  rewrite exec_bind. set (r1 := execState timer_stop r).
  assert (H1 : uart_tx r1 = uart_tx r /\ m_timer r1 = None) by (split; reflexivity).
  destruct H1 as [Htx Htm]. rewrite <- Htx. clearbody r1.
  assert (Hfail : forall text,
             m_state (execState (m_log Error text ;; setState RadioWrongFw) r1) = RadioWrongFw /\
             uart_tx (execState (m_log Error text ;; setState RadioWrongFw) r1) = uart_tx r1 /\
             m_timer (execState (m_log Error text ;; setState RadioWrongFw) r1) = None).
  { intros text. rewrite exec_bind.
    destruct (setState_state RadioWrongFw (execState (m_log Error text) r1)) as (A & B & C).
    rewrite A, B, C. repeat split. exact Htm. }
  destruct (AbstractFanetMessage.as_VersionReply msg) as [reply|] eqn:Hr; [|apply Hfail].
  specialize (Hv reply eq_refl).
  destruct (isEmpty (VersionReply.version reply)); [apply Hfail|].
  unfold eqb. destruct (list_eq_dec ascii_dec (VersionReply.version reply) FANET_EXPECTED_FW);
    [contradiction | apply Hfail].
Qed.

Lemma handleVersionReply_rejects_witness :
  let r' := execState
              (handleVersionReply
                 (AbstractFanetMessage.VersionReply (VersionReply.make (lit " build-202001010000"))))
              Scenario.radio0 in
  m_state r' = RadioWrongFw /\ uart_tx r' = [] /\ m_timer r' = None.
Proof.
  apply (handleVersionReply_rejects
           (AbstractFanetMessage.VersionReply (VersionReply.make (lit " build-202001010000")))
           Scenario.radio0).
  intros reply H. injection H as <-. discriminate.
Defined.

(** X15.  With the expected firmware and a port that takes the bytes, exactly
    one frame is written: the region command, with the power brought
    into 2..20 dBm and 868 MHz for every configured frequency but 915.
    The 3 s timer is armed; state and signals stay. *)
Theorem handleVersionReply_sets_region (msg : AbstractFanetMessage.t)
    (reply : VersionReply.t) (r : t) :
  AbstractFanetMessage.as_VersionReply msg = Some reply ->
  VersionReply.version reply = FANET_EXPECTED_FW ->
  uart_isOpen r = true ->
  uart_error r = NoError ->
  let r' := execState (handleVersionReply msg) r in
  uart_tx r'
  = uart_tx r
    ++ [["#"%char] ++ lit "DGL "
        ++ (if frequency (m_config r) =? 915 then lit "915" else lit "868")
        ++ lit "," ++ number (Z.max 2 (Z.min 20 (txPower (m_config r)))) 10 ++ [LF]] /\
  m_timer r' = Some FANET_COM_TIMEOUT_MSEC /\
  m_state r' = m_state r /\
  signals r' = signals r.
Proof.
  destruct r as [cfg st gp gc op er rx tx tm bf sg lg]. cbn [uart_isOpen uart_error m_config].
  intros Hr Hv -> ->. cbv zeta.
  unfold handleVersionReply, execState. cbn -[RegionCommand.make]. rewrite Hr, Hv.
  cbn -[RegionCommand.make]. rewrite RegionCommand_make_clamps.
  destruct (frequency cfg =? 915);
    cbn -[Z.max Z.min Z.eqb size]; rewrite Z.eqb_refl; cbn -[Z.max Z.min]; repeat split.
Qed.

Lemma handleVersionReply_sets_region_witness :
  let r := execState (Scenario.bringup [Scenario.frame "CCCCC"; Scenario.frame "FNR MSG,1,initialized"])
             Scenario.radio0 in
  let r' := execState
              (handleVersionReply
                 (AbstractFanetMessage.VersionReply (VersionReply.make (lit " build-202201131742"))))
              r in
  uart_tx r' = uart_tx r ++ [Scenario.frame "DGL 868,14"] /\
  m_timer r' = Some FANET_COM_TIMEOUT_MSEC /\
  m_state r' = m_state r /\
  signals r' = signals r.
Proof.
  apply (handleVersionReply_sets_region
           (AbstractFanetMessage.VersionReply (VersionReply.make (lit " build-202201131742")))
           (VersionReply.make (lit " build-202201131742"))); reflexivity.
Defined.

End RadioHandlers.

(** ** From the bytes of a frame to the signal (parser, event, radio) *)

Section Reception.

Import Qt FanetRadio RadioRuns Fields.

#[local] Arguments RadioState_eqb : simpl never.
#[local] Arguments FanetProtocolParser.parseMessage : simpl never.







End Reception.

(** ** The communication timer of a ready radio (fanetradio.cpp) *)

Section ReadyTimer.

Import Qt FanetRadio ReadyTraffic.

#[local] Arguments RadioState_eqb : simpl never.

Lemma traffic_handled (msg : AbstractFanetMessage.t) (r : t) :
  traffic msg = true ->
  m_state r = RadioReady \/ m_state r = RadioError ->
  let r' := execState (handleMessage msg) r in
  m_timer r' = m_timer r /\ uart_tx r' = uart_tx r /\
  m_state r' = (if error_reply msg then RadioError else m_state r).
Proof.
  intros Ht Hs.
  destruct r as [cfg st gp gc op er rx tx tm bf sg lg]. cbn [m_state] in Hs.
  unfold traffic in Ht. unfold error_reply, handleMessage.
  destruct (AbstractFanetMessage.type msg) eqn:Hty; try discriminate Ht; cbv zeta.
  - unfold execState, handleFanetReply, AbstractFanetMessage.isReply. rewrite Hty.
    destruct Hs as [-> | ->];
      (destruct (AbstractFanetMessage.as_GenericReply msg) as [reply|];
       [destruct (GenericReply.m_reply reply), gp | ]; cbn; repeat split).
  - unfold execState, handleFanetPktRecv.
    destruct (AbstractFanetMessage.as_ReceiveEvent msg) as [e|];
      [destruct (ReceiveEvent.isValid e)|]; cbn; repeat split;
      destruct (AbstractFanetMessage.as_GenericReply msg); reflexivity.
Qed.

Lemma traffic_all_handled (msgs : list AbstractFanetMessage.t) (r : t) :
  Forall (fun msg => traffic msg = true) msgs ->
  m_state r = RadioReady \/ m_state r = RadioError ->
  let r' := execState (handle_all msgs) r in
  m_timer r' = m_timer r /\ uart_tx r' = uart_tx r /\
  m_state r' = (if existsb error_reply msgs then RadioError else m_state r).
Proof.
  intros Hall. revert r.
  induction Hall as [|msg rest Hm _ IH]; intros r Hs; cbv zeta.
  - repeat split.
  - cbn [handle_all existsb]. rewrite exec_bind.
    destruct (traffic_handled msg r Hm Hs) as (H1 & H2 & H3). cbv zeta in IH.
    destruct (IH (execState (handleMessage msg) r)) as (I1 & I2 & I3).
    + rewrite H3. destruct (error_reply msg); [right; reflexivity | exact Hs].
    + rewrite I1, I2, I3, H1, H2, H3.
      repeat split.
      destruct (error_reply msg); cbn [orb]; [|reflexivity].
      destruct (existsb error_reply rest); reflexivity.
Qed.

(** X25.  Received packets and replies to transmissions neither stop nor
    restart the timer of a radio that is Ready, and nothing is written
    in answer to them: when the 3 s timer armed on entering Ready
    expires, the radio goes to ComTimeout whatever traffic there was,
    unless an error reply has taken it to Error before. *)
Theorem ready_times_out_despite_traffic (msgs : list AbstractFanetMessage.t)
    (r : t) (msec : Z) :
  m_state r = RadioReady ->
  m_timer r = Some msec ->
  Forall (fun msg => traffic msg = true) msgs ->
  m_timer (execState (handle_all msgs) r) = Some msec /\
  let r' := execState (handle_all msgs ;; timerExpires) r in
  m_timer r' = None /\
  uart_tx r' = uart_tx r /\
  m_state r' = (if existsb error_reply msgs then RadioError else RadioComTimeout).
Proof.
  intros Hs Ht Hall.
  destruct (traffic_all_handled msgs r Hall (or_introl Hs)) as (H1 & H2 & H3).
  rewrite Hs in H3. split; [rewrite H1; exact Ht|].
  cbv zeta. rewrite exec_bind.
  remember (execState (handle_all msgs) r) as r1 eqn:E. clear E.
  destruct r1 as [cfg st gp gc op er rx tx tm bf sg lg].
  cbn [m_timer uart_tx m_state] in H1, H2, H3. rewrite Ht in H1. subst tm tx st.
  unfold timerExpires, execState.
  destruct (existsb error_reply msgs), gp; cbn; repeat split.
Qed.

Lemma ready_times_out_despite_traffic_witness :
  let ready := execState (Scenario.bringup Scenario.bringup_frames) Scenario.radio0 in
  let msgs := [AbstractFanetMessage.TransmitReply (TransmitReply.make (lit " ACK,11,45aa"));
               AbstractFanetMessage.TransmitReply (TransmitReply.make (lit " OK"))] in
  m_timer (execState (handle_all msgs) ready) = Some FANET_COM_TIMEOUT_MSEC /\
  m_timer (execState (handle_all msgs ;; timerExpires) ready) = None /\
  uart_tx (execState (handle_all msgs ;; timerExpires) ready) = uart_tx ready /\
  m_state (execState (handle_all msgs ;; timerExpires) ready) = RadioComTimeout.
Proof.
  apply (ready_times_out_despite_traffic
           [AbstractFanetMessage.TransmitReply (TransmitReply.make (lit " ACK,11,45aa"));
            AbstractFanetMessage.TransmitReply (TransmitReply.make (lit " OK"))]
           (execState (Scenario.bringup Scenario.bringup_frames) Scenario.radio0)
           FANET_COM_TIMEOUT_MSEC).
  - reflexivity.
  - reflexivity.
  - repeat (apply Forall_cons; [reflexivity|]). apply Forall_nil.
Defined.

End ReadyTimer.

(** ** What a tick transmits (fanetmessagedispatcher.cpp) *)

Section DispatcherTicks.

Import Qt FanetMessageDispatcher Broadcasts.

Lemma radio_sendData_calls (addr : FanetAddress.t) (data : FanetPayload.t) (d : FanetMessageDispatcher.t) :
  sendData_calls (execState (radio_sendData addr data) d) = sendData_calls d ++ [(addr, data)] /\
  m_config (execState (radio_sendData addr data) d) = m_config d /\
  m_stations (execState (radio_sendData addr data) d) = m_stations d /\
  m_lastNodeSeen (execState (radio_sendData addr data) d) = m_lastNodeSeen d /\
  m_lastWeatherUpdate (execState (radio_sendData addr data) d) = m_lastWeatherUpdate d /\
  m_lastNameUpdate (execState (radio_sendData addr data) d) = m_lastNameUpdate d /\
  m_timer (execState (radio_sendData addr data) d) = m_timer d.
Proof.
  unfold radio_sendData, on_radio, execState. cbn.
  destruct (runState (FanetRadio.sendData addr data) (m_radio d)). cbn. repeat split.
Qed.

(** X21.  [sendWeatherData] hands the radio at most one payload: the one of
    the first station, to the broadcast address, and only if its last
    update is younger than the maximum age.  The stations behind the
    first are never transmitted. *)
Theorem sendWeatherData_first_station_only (now : Z) (d : FanetMessageDispatcher.t) :
  let d' := execState (sendWeatherData now) d in
  m_lastWeatherUpdate d' = Some now /\
  sendData_calls d'
  = sendData_calls d
    ++ match m_stations d with
       | [] => []
       | station :: _ =>
           if QDateTime_gtb (AbstractWeatherStation.lastUpdate station)
                (Some (now - weatherDataMaxAge (m_config d) * 1000))
           then [(FanetAddress.default, station_payload station)]
           else []
       end.
Proof.
  cbv zeta. unfold sendWeatherData. rewrite !exec_bind.
  change (evalState get ?x) with x. change (execState get ?x) with x.
  set (d1 := execState (modify (set_m_lastWeatherUpdate (Some now))) d).
  assert (H1 : m_stations d1 = m_stations d /\ m_config d1 = m_config d /\
               sendData_calls d1 = sendData_calls d /\ m_lastWeatherUpdate d1 = Some now)
    by (repeat split).
  destruct H1 as (Hs & Hc & Hcalls & Hw). rewrite Hs, Hc, <- Hcalls. clearbody d1.
  destruct (m_stations d) as [|station rest].
  - cbn [sendWeatherData_loop]. split; [exact Hw | rewrite app_nil_r; reflexivity].
  - cbn [sendWeatherData_loop]. rewrite !exec_bind.
    change (negb supportsAddressChange) with true. cbv iota.
    change (execState (ret tt) ?x) with x.
    destruct (QDateTime_gtb (AbstractWeatherStation.lastUpdate station)
                (Some (now - weatherDataMaxAge (m_config d) * 1000))).
    + rewrite exec_bind. change (execState (ret tt) ?x) with x.
      destruct (radio_sendData_calls FanetAddress.default (station_payload station) d1)
        as (A & _ & _ & _ & B & _).
      fold (station_payload station).
      split; [rewrite B; exact Hw | exact A].
    + split; [exact Hw | rewrite app_nil_r; reflexivity].
Qed.

(** X26.  [sendStationNames] hands the radio at most one payload: the
    name of the first station, to the broadcast address, and only if
    that name is not empty.  The names of the stations behind the first
    are never transmitted. *)
Theorem sendStationNames_first_station_only (now : Z) (d : FanetMessageDispatcher.t) :
  let d' := execState (sendStationNames now) d in
  m_lastNameUpdate d' = Some now /\
  m_lastWeatherUpdate d' = m_lastWeatherUpdate d /\
  sendData_calls d'
  = sendData_calls d
    ++ match m_stations d with
       | [] => []
       | station :: _ =>
           if isEmpty (AbstractWeatherStation.stationName station) then []
           else [(FanetAddress.default,
                  FanetPayload.namePayload (AbstractWeatherStation.stationName station))]
       end.
Proof.
  cbv zeta. unfold sendStationNames. rewrite !exec_bind.
  change (evalState get ?x) with x. change (execState get ?x) with x.
  set (d1 := execState (modify (set_m_lastNameUpdate (Some now))) d).
  assert (H1 : m_stations d1 = m_stations d /\ sendData_calls d1 = sendData_calls d /\
               m_lastNameUpdate d1 = Some now /\
               m_lastWeatherUpdate d1 = m_lastWeatherUpdate d)
    by (repeat split).
  destruct H1 as (Hs & Hcalls & Hn & Hw). rewrite Hs, <- Hcalls, <- Hw. clearbody d1.
  destruct (m_stations d) as [|station rest].
  - cbn [sendStationNames_loop]. repeat split; [exact Hn | rewrite app_nil_r; reflexivity].
  - cbn [sendStationNames_loop]. rewrite !exec_bind.
    change (negb supportsAddressChange) with true. cbv iota.
    change (execState (ret tt) ?x) with x.
    destruct (isEmpty (AbstractWeatherStation.stationName station)); cbn [negb].
    + repeat split; [exact Hn | rewrite app_nil_r; reflexivity].
    + rewrite exec_bind. change (execState (ret tt) ?x) with x.
      destruct (radio_sendData_calls FanetAddress.default
                  (FanetPayload.namePayload (AbstractWeatherStation.stationName station)) d1)
        as (A & _ & _ & _ & B & C & _).
      split; [rewrite C; exact Hn | split; [exact B | exact A]].
Qed.

Lemma secsTo_within (t now interval : Z) :
  0 <= interval -> now - t < (interval + 1) * 1000 -> secsTo t now <= interval.
Proof.
  intros Hi Hlt. unfold secsTo.
  pose proof (Z.quot_rem' (now - t) 1000) as Hq.
  destruct (Z.lt_ge_cases (now - t) 0) as [Hneg|Hpos].
  - pose proof (Z.rem_nonpos (now - t) 1000 ltac:(lia) ltac:(lia)) as Hr.
    pose proof (Z.rem_bound_abs (now - t) 1000 ltac:(lia)) as Ha. lia.
  - pose proof (Z.rem_bound_pos (now - t) 1000 Hpos ltac:(lia)) as Hr. lia.
Qed.

Lemma not_elapsed (last : AbstractWeatherStation.QDateTime) (now interval : Z) :
  interval <= 0 \/ within last now interval ->
  (0 <? interval) && elapsed last now interval = false.
Proof.
  intros [Hle | (t & -> & Hlt)].
  - destruct (Z.ltb_spec 0 interval); [lia | reflexivity].
  - destruct (Z.ltb_spec 0 interval) as [Hpos|]; [|reflexivity].
    cbn [andb elapsed]. apply Z.ltb_ge. apply secsTo_within; lia.
Qed.

(** X22.  A tick transmits nothing, and does not touch the radio, as long as
    neither interval has run out since the last transmission of its
    kind (an interval of zero switches its kind off). *)
Theorem tick_silent_within_intervals (now : Z) (d : FanetMessageDispatcher.t) :
  txIntervalNames (m_config d) <= 0
  \/ within (m_lastNameUpdate d) now (txIntervalNames (m_config d)) ->
  txIntervalWeather (m_config d) <= 0
  \/ within (m_lastWeatherUpdate d) now (txIntervalWeather (m_config d)) ->
  sendData_calls (execState (onTimeout now) d) = sendData_calls d /\
  m_radio (execState (onTimeout now) d) = m_radio d /\
  m_lastNameUpdate (execState (onTimeout now) d) = m_lastNameUpdate d /\
  m_lastWeatherUpdate (execState (onTimeout now) d) = m_lastWeatherUpdate d.
Proof.
  intros Hn Hw. apply not_elapsed in Hn, Hw.
  unfold onTimeout. rewrite exec_bind.
  change (evalState get d) with d. change (execState get d) with d.
  destruct ((0 <? inactivityTimeout (m_config d))
            && elapsed (m_lastNodeSeen d) now (inactivityTimeout (m_config d))).
  - repeat split.
  - rewrite Hn. rewrite exec_bind.
    change (execState (ret tt) d) with d. rewrite exec_bind.
    change (evalState get d) with d. change (execState get d) with d.
    rewrite Hw. repeat split.
Qed.

Lemma tick_silent_within_intervals_witness :
  let d := execState (onTimeout 5000)
             (Scenario.dispatcher_on
                (execState (Scenario.bringup Scenario.bringup_frames) Scenario.radio0)
                (Some 4000)) in
  sendData_calls (execState (onTimeout 45999) d) = sendData_calls d /\
  m_radio (execState (onTimeout 45999) d) = m_radio d /\
  m_lastNameUpdate (execState (onTimeout 45999) d) = m_lastNameUpdate d /\
  m_lastWeatherUpdate (execState (onTimeout 45999) d) = m_lastWeatherUpdate d.
Proof.
  apply (tick_silent_within_intervals 45999).
  - left. apply Z.leb_le. reflexivity.
  - right. exists 5000. split; [reflexivity | apply Z.ltb_lt; reflexivity].
Defined.

(** X23.  When the radio reports Error or ComTimeout, the dispatcher stops
    its tick and the updates of all stations and starts the radio
    again: with a serial port that opens, the radio is Resetting with
    the 250 ms reset timer armed; nothing is transmitted. *)
Theorem error_restarts_radio (state : FanetRadio.RadioState) (d : FanetMessageDispatcher.t) :
  state = FanetRadio.RadioError \/ state = FanetRadio.RadioComTimeout ->
  FanetRadio.uart_error (m_radio d) = FanetRadio.NoError ->
  let d' := execState (onRadioStateChanged state) d in
  m_timer d' = false /\
  Forall (fun s => AbstractWeatherStation.m_updateIntervalSecs s = 0) (m_stations d') /\
  sendData_calls d' = sendData_calls d /\
  FanetRadio.m_state (m_radio d') = FanetRadio.RadioResetting /\
  FanetRadio.m_timer (m_radio d') = Some FanetRadio.FANET_RESET_MSEC /\
  FanetRadio.uart_isOpen (m_radio d') = true /\
  FanetRadio.uart_tx (m_radio d') = FanetRadio.uart_tx (m_radio d).
Proof.
  intros Hs He.
  destruct d as [cfg radio stations seen lw ln tm calls lg].
  destruct radio as [rcfg st gp gc op er rx tx rtm bf sg rlg].
  cbn [m_radio FanetRadio.uart_error] in He. subst er.
  assert (Hst : Forall (fun s => AbstractWeatherStation.m_updateIntervalSecs s = 0)
                  (map (AbstractWeatherStation.setUpdateInterval 0) stations))
    by apply map_setUpdateInterval_0.
  destruct Hs as [-> | ->]; cbv zeta;
    unfold onRadioStateChanged, execState;
    destruct op, gp, st; cbn; repeat split; exact Hst.
Qed.

Lemma error_restarts_radio_witness :
  let d := Scenario.dispatcher_on
             (execState (Scenario.bringup Scenario.bringup_frames) Scenario.radio0)
             (Some 4000) in
  let d' := execState (onRadioStateChanged FanetRadio.RadioComTimeout) d in
  m_timer d' = false /\
  Forall (fun s => AbstractWeatherStation.m_updateIntervalSecs s = 0) (m_stations d') /\
  sendData_calls d' = sendData_calls d /\
  FanetRadio.m_state (m_radio d') = FanetRadio.RadioResetting /\
  FanetRadio.m_timer (m_radio d') = Some FanetRadio.FANET_RESET_MSEC /\
  FanetRadio.uart_isOpen (m_radio d') = true /\
  FanetRadio.uart_tx (m_radio d') = FanetRadio.uart_tx (m_radio d).
Proof.
  apply (error_restarts_radio FanetRadio.RadioComTimeout); [right; reflexivity | reflexivity].
Defined.

End DispatcherTicks.

(** ** Pin names (gpio.cpp, radioconfig.cpp) *)

Section PinNames.

Import Qt Gpio.

Lemma GpioPin_eqb_eq (a b : GpioPin) : GpioPin_eqb a b = true <-> a = b.
Proof.
  unfold GpioPin_eqb. destruct (GpioPin_eq_dec a b); split; congruence.
Qed.

Lemma all_pins_complete (pin : GpioPin) : In pin all_pins.
Proof. destruct pin; cbn; tauto. Qed.

(** X24.  The name [pinToString] prints for a pin is read back by
    [stringToPin] as that pin, in this and in lower case, "invalid pin"
    as no pin; [parsePin] takes the name, with or without the "!" in
    front, and returns the pin and the inversion, and fails for no pin
    only. *)
Theorem pin_names_roundtrip (pin : GpioPin) (inverted : bool) :
  stringToPin (pinToString pin) = pin /\
  stringToPin (toLower (pinToString pin)) = pin /\
  parsePin (pin_text pin inverted)
  = (negb (GpioPin_eqb pin None_), pin, inverted).
Proof.
  assert (Hall : forallb roundtrips all_pins = true) by (vm_compute; reflexivity).
  rewrite forallb_forall in Hall. specialize (Hall pin (all_pins_complete pin)).
  unfold roundtrips in Hall.
  apply andb_true_iff in Hall. destruct Hall as [Hall H3].
  apply andb_true_iff in Hall. destruct Hall as [H1 H2].
  apply GpioPin_eqb_eq in H1, H2.
  split; [exact H1 | split; [exact H2|]].
  rewrite forallb_forall in H3.
  assert (Hin : In inverted [false; true]) by (destruct inverted; cbn; tauto).
  specialize (H3 inverted Hin).
  destruct (parsePin (pin_text pin inverted)) as [[ok pin'] inverted'].
  apply andb_true_iff in H3. destruct H3 as [H3 Hi].
  apply andb_true_iff in H3. destruct H3 as [Hok Hp].
  apply Bool.eqb_prop in Hok, Hi. apply GpioPin_eqb_eq in Hp. subst. reflexivity.
Qed.

End PinNames.
